(** * hot-gossip: comment selection, batching and merging

    A shallow embedding of [comment_analyzer.py] and of the event
    generators of [app.py], with the properties of the selection,
    batching, dispatch and merge pipeline.

    Conventions of the embedding.
    - A Python [str] is a [string]; every [ascii] stands for one code
      point below 256, and [lower], [is_space] follow Python on that range.
    - A Python [int] is a [Z]; [//] is [Z.div] (both round to the floor).
    - A [dict] that is read with [.get(key, default)] is a record of
      [option] fields; a [dict] used as an insertion-ordered map is an
      association list.
    - A call that may raise returns [exn + A]. *)

From Stdlib Require Import ZArith List Bool Ascii String Lia Arith.
From Stdlib Require Import Permutation Sorted DecimalString.
Import ListNotations.
Local Open Scope string_scope.
Local Open Scope Z_scope.

(** ** Exceptions *)

Inductive exn : Type :=
| ZeroDivisionError (msg : string)
| ValueError (msg : string)
| Exception (msg : string).

(** [str(e)] *)
Definition exn_str (e : exn) : string :=
  match e with
  | ZeroDivisionError m | ValueError m | Exception m => m
  end.

Definition is_ValueError (e : exn) : bool :=
  match e with ValueError _ => true | _ => false end.

(** ** Characters and strings *)

Module PyStr.

(** [str.isspace] on one code point below 256: TAB..CR, FS..US, space,
    NEL and NBSP. The same set drives [\s] in [re] and [str.strip]. *)
Definition is_space (c : ascii) : bool :=
  let n := nat_of_ascii c in
  ((9 <=? n) && (n <=? 13) || (28 <=? n) && (n <=? 32)
   || (n =? 133) || (n =? 160))%nat.

(** [str.lower] on one code point below 256: A-Z and the Latin-1
    capitals (all of 0xC0..0xDE but the multiplication sign). *)
Definition lower_char (c : ascii) : ascii :=
  let n := nat_of_ascii c in
  if ((65 <=? n) && (n <=? 90)
      || (192 <=? n) && (n <=? 222) && negb (n =? 215))%nat
  then ascii_of_nat (n + 32) else c.

Fixpoint lower (s : string) : string :=
  match s with
  | EmptyString => EmptyString
  | String c r => String (lower_char c) (lower r)
  end.

(** Truth value of a string: [bool(s)], false only for the empty one. *)
Definition truthy (s : string) : bool :=
  match s with EmptyString => false | _ => true end.

Fixpoint lstrip (s : string) : string :=
  match s with
  | EmptyString => EmptyString
  | String c r => if is_space c then lstrip r else s
  end.

Fixpoint rstrip (s : string) : string :=
  match s with
  | EmptyString => EmptyString
  | String c r =>
      let r' := rstrip r in
      if is_space c && negb (truthy r') then EmptyString else String c r'
  end.

(** [s.strip()] *)
Definition strip (s : string) : string := rstrip (lstrip s).

(** [str(n)] for an [int]. *)
Definition str_of_Z (n : Z) : string := NilZero.string_of_int (Z.to_int n).

(** [sep.join(parts)] *)
Fixpoint join (sep : string) (parts : list string) : string :=
  match parts with
  | [] => ""
  | [p] => p
  | p :: rest => p ++ sep ++ join sep rest
  end.

End PyStr.

(** ** [clean_html] *)

Module CleanHtml.
Import PyStr.

Definition lt_char : ascii := "<"%char.
Definition gt_char : ascii := ">"%char.
Definition space : ascii := " "%char.

(** Does the string contain [">"]? *)
Fixpoint has_gt (s : string) : bool :=
  match s with
  | EmptyString => false
  | String c r => Ascii.eqb c gt_char || has_gt r
  end.

(** After a ["<"], does [[^>]+>] match the rest? It does when the next
    character is not [">"] and some [">"] follows. *)
Definition tag_follows (s : string) : bool :=
  match s with
  | EmptyString => false
  | String d r => negb (Ascii.eqb d gt_char) && has_gt r
  end.

(** [re.sub(r'<[^>]+>', ' ', s)], scanning left to right. [in_tag] is
    set while the scan is inside a match, whose characters are dropped
    up to and including the closing [">"]; a match starts at a ["<"]
    where [tag_follows] holds, and one space replaces it. *)
Fixpoint sub_tags (in_tag : bool) (s : string) : string :=
  match s with
  | EmptyString => EmptyString
  | String c r =>
      if in_tag then
        if Ascii.eqb c gt_char then sub_tags false r else sub_tags true r
      else if Ascii.eqb c lt_char && tag_follows r
           then String space (sub_tags true r)
           else String c (sub_tags false r)
  end.

(** [re.sub(r'\s+', ' ', s)]: every maximal run of whitespace becomes
    one space. [in_run] is set while the scan is inside a run. *)
Fixpoint sub_spaces (in_run : bool) (s : string) : string :=
  match s with
  | EmptyString => EmptyString
  | String c r =>
      if is_space c then
        if in_run then sub_spaces true r
        else String space (sub_spaces true r)
      else String c (sub_spaces false r)
  end.

Definition clean_html (html_text : string) : string :=
  let clean := sub_tags false html_text in
  let clean := sub_spaces false clean in
  strip clean.

(** *** Predicates on cleaned text *)

(** No match of the tag pattern starts anywhere in the string. *)
Fixpoint tag_free (s : string) : bool :=
  match s with
  | EmptyString => true
  | String c r => negb (Ascii.eqb c lt_char && tag_follows r) && tag_free r
  end.

(** Every whitespace character is a single space that follows a
    character which is not whitespace; [prev] tells whether the
    character before the string is whitespace. *)
Fixpoint single_spaced (prev : bool) (s : string) : bool :=
  match s with
  | EmptyString => true
  | String c r =>
      if is_space c
      then negb prev && Ascii.eqb c space && single_spaced true r
      else single_spaced false r
  end.

Definition starts_nonspace (s : string) : bool :=
  match s with
  | EmptyString => true
  | String c _ => negb (is_space c)
  end.

End CleanHtml.

(** ** Lists: slices, ranges and the stable sort *)

Module PyList.

(** The error monad of a call that may raise. *)
Definition bind {A B} (m : exn + A) (f : A -> exn + B) : exn + B :=
  match m with
  | inl e => inl e
  | inr a => f a
  end.

Definition len {A} (l : list A) : Z := Z.of_nat (List.length l).

(** [a // b] *)
Definition floordiv (a b : Z) : exn + Z :=
  if b =? 0 then inl (ZeroDivisionError "integer division or modulo by zero")
  else inr (a / b).

(** A slice bound [i] on a sequence of length [n]: a negative bound
    counts from the end, and every bound is clamped to [0..n]. *)
Definition clamp (n i : Z) : Z :=
  if i <? 0 then Z.max 0 (i + n) else Z.min i n.

(** [l[:stop]] *)
Definition slice_to {A} (l : list A) (stop : Z) : list A :=
  firstn (Z.to_nat (clamp (len l) stop)) l.

(** [l[start:]] *)
Definition slice_from {A} (l : list A) (start : Z) : list A :=
  skipn (Z.to_nat (clamp (len l) start)) l.

(** [l[start:stop]] *)
Definition slice {A} (l : list A) (start stop : Z) : list A :=
  let a := clamp (len l) start in
  let b := clamp (len l) stop in
  firstn (Z.to_nat (b - a)) (skipn (Z.to_nat a) l).

(** The values [i, i + step, ...] that [range] yields while they stay
    before [stop] in the direction of [step]. *)
Fixpoint range_from (fuel : nat) (i stop step : Z) : list Z :=
  match fuel with
  | O => []
  | S fuel' =>
      if (if 0 <? step then i <? stop else stop <? i)
      then i :: range_from fuel' (i + step) stop step
      else []
  end.

(** [range(start, stop, step)]; a range has at most [|stop - start|]
    values, which bounds the recursion. *)
Definition range (start stop step : Z) : exn + list Z :=
  if step =? 0 then inl (ValueError "range() arg 3 must not be zero")
  else inr (range_from (Z.to_nat (Z.abs (stop - start))) start stop step).

(** The elements of [l] at the given indices (all within bounds). *)
Definition pick {A} (l : list A) (idxs : list Z) : list A :=
  flat_map (fun i => match nth_error l (Z.to_nat i) with
                     | Some x => [x]
                     | None => []
                     end) idxs.

(** [l[::step]]: from the front for a positive step, from the back
    for a negative one. *)
Definition stride {A} (l : list A) (step : Z) : exn + list A :=
  if step =? 0 then inl (ValueError "slice step cannot be zero")
  else if 0 <? step
       then bind (range 0 (len l) step) (fun idxs => inr (pick l idxs))
       else bind (range (len l - 1) (-1) step) (fun idxs => inr (pick l idxs)).

Section Sorting.
Context {A : Type} (key : A -> Z).

(** Insertion of [x] in front of a list sorted by descending key:
    [x] passes the elements of greater key and stops before the first
    one whose key it reaches. *)
Fixpoint insert_desc (x : A) (l : list A) : list A :=
  match l with
  | [] => [x]
  | y :: t => if key y <=? key x then x :: l else y :: insert_desc x t
  end.

(** [sorted(l, key=key, reverse=True)]: descending by key, elements
    of equal key in their original order. *)
Fixpoint sorted_desc (l : list A) : list A :=
  match l with
  | [] => []
  | x :: t => insert_desc x (sorted_desc t)
  end.
End Sorting.

(** What Python promises of [sorted(l, key=key, reverse=True)]: the
    same elements, keys descending, and the elements of any one key in
    the order they had in [l]. *)
Definition stable_desc_sort {A} (key : A -> Z) (l l' : list A) : Prop :=
  Permutation l l'
  /\ StronglySorted (fun a b => key b <= key a) l'
  /\ forall k, filter (fun x => key x =? k) l' = filter (fun x => key x =? k) l.

(** [ceil(n / b)] for a positive [b]. *)
Definition ceil_div (n b : Z) : Z := (n + b - 1) / b.

(** [enumerate(l, start)] *)
Fixpoint enumerate {A} (l : list A) (start : Z) : list (Z * A) :=
  match l with
  | [] => []
  | x :: t => (start, x) :: enumerate t (start + 1)
  end.

End PyList.

Notation "x <- m ;; k" := (PyList.bind m (fun x => k))
  (at level 61, m at next level, right associativity).

(** ** Comments and their selection *)

Module Comments.
Import PyStr PyList.

Record userProfile := {
  displayName : option string;
  userId : option string
}.

(** A comment as the discussion API returns it, with the
    [_article_title] key the multi-article flows add. *)
Record comment := {
  body : option string;
  numRecommends : option Z;
  profile : option userProfile;
  article_title : option string
}.

Definition get {A} (field : option A) (default : A) : A :=
  match field with Some v => v | None => default end.

(** [c.get('numRecommends', 0)] *)
Definition recommends (c : comment) : Z := get (numRecommends c) 0.

(** [c.get('userProfile', {}).get('displayName', 'Anonymous')] *)
Definition author (c : comment) : string :=
  match profile c with
  | Some p => get (displayName p) "Anonymous"
  | None => "Anonymous"
  end.

(** The selection of [prepare_comments_for_analysis]: the whole sorted
    list when it fits, else the top half of the budget followed by a
    strided sample of the rest. *)
Definition select (comments : list comment) (max_comments : Z)
  : exn + list comment :=
  let sorted_comments := sorted_desc recommends comments in
  if len sorted_comments >? max_comments then
    let top_comments := slice_to sorted_comments (max_comments / 2) in
    let remaining := slice_from sorted_comments (max_comments / 2) in
    step <- (if len remaining >? max_comments / 2
             then floordiv (len remaining) (max_comments / 2)
             else inr 1) ;;
    strided <- stride remaining step ;;
    let sampled := slice_to strided (max_comments / 2) in
    inr (top_comments ++ sampled)%list
  else inr sorted_comments.

Definition newline : string := String (ascii_of_nat 10) EmptyString.

(** One display line:
    [[Comment i] (recommends likes) @author: body] *)
Definition format_comment (ic : Z * comment) : string :=
  let (i, c) := ic in
  "[Comment " ++ str_of_Z i ++ "] (" ++ str_of_Z (recommends c)
    ++ " likes) @" ++ author c ++ ": "
    ++ CleanHtml.clean_html (get (body c) "").

Definition prepare_comments_for_analysis
  (comments : list comment) (max_comments : Z) : exn + string :=
  selected <- select comments max_comments ;;
  inr (join (newline ++ newline) (map format_comment (enumerate selected 1))).

(** The batches of [extract_commercial_opportunities_batched] and of
    the multi-article generators: the sorted comments cut at the
    multiples of [batch_size]. *)
Definition split_batches (comments : list comment) (batch_size : Z)
  : exn + list (list comment) :=
  let sorted_comments := sorted_desc recommends comments in
  starts <- range 0 (len sorted_comments) batch_size ;;
  inr (map (fun i => slice sorted_comments i (i + batch_size)) starts).

End Comments.

(** ** Insertion-ordered dictionaries *)

Module ODict.
Section Dict.
Context {K V : Type} (eqb : K -> K -> bool).

(** A [dict] as the list of its items in insertion order. *)
Definition t : Type := list (K * V).

(** [d.get(k)]; [k in d] is [lookup k d <> None]. *)
Fixpoint lookup (k : K) (d : t) : option V :=
  match d with
  | [] => None
  | (k', v) :: rest => if eqb k k' then Some v else lookup k rest
  end.

Definition contains (k : K) (d : t) : bool :=
  match lookup k d with Some _ => true | None => false end.

(** [d[k] = v]: a present key keeps its place, a new key goes last. *)
Fixpoint store (k : K) (v : V) (d : t) : t :=
  match d with
  | [] => [(k, v)]
  | (k', v') :: rest =>
      if eqb k k' then (k', v) :: rest else (k', v') :: store k v rest
  end.

(** [d.keys()] and [d.values()] *)
Definition keys (d : t) : list K := map fst d.
Definition values (d : t) : list V := map snd d.

(** The shape the three loops of the merge share: an item without a
    key is passed over, the first item of a key seeds its entry, a
    later one updates the entry in place. *)
Definition upsert {I : Type} (key : I -> option K) (seed : I -> V)
  (update : V -> I -> V) (d : t) (i : I) : t :=
  match key i with
  | None => d
  | Some k =>
      match lookup k d with
      | Some e => store k (update e i) d
      | None => store k (seed i) d
      end
  end.

(** Every entry of [d], read again as an item by [back], has the key
    it is stored under and seeds the same entry. *)
Definition reseeds {I : Type} (key : I -> option K) (seed : I -> V)
  (back : V -> I) (d : t) : Prop :=
  Forall (fun kv => key (back (snd kv)) = Some (fst kv)
                    /\ seed (back (snd kv)) = snd kv) d.

(** Two dictionaries with the same items, whatever their order. *)
Definition same_items (d1 d2 : t) : Prop :=
  NoDup (keys d1) /\ NoDup (keys d2)
  /\ forall k, lookup k d1 = lookup k d2.
End Dict.
End ODict.

(** ** Merging the analysis results *)

Module Merge.
Import PyStr PyList.
Import Comments (get).

(** The items of an analysis result, as parsed from the JSON answer. *)
Record brand := {
  b_name : option string;
  b_category : option string;
  b_sentiment : option string;
  b_mentions : option Z
}.

Record recommendation := {
  r_item : option string;
  r_category : option string;
  r_quote : option string;
  r_endorsements : option Z
}.

Record opportunity := {
  o_type : option string;
  o_target : option string;
  o_rationale : option string
}.

(** An analysis result: the three lists, or the [error] and [raw] keys
    of an answer that could not be parsed. *)
Record result := {
  error : option string;
  raw : option string;
  brands : option (list brand);
  recommendations : option (list recommendation);
  opportunities : option (list opportunity)
}.

(** The entries [merge_commercial_results] builds; every key is set
    when the entry is created. *)
Record brand_entry := {
  name : option string;
  category : string;
  sentiment : string;
  mentions : Z
}.

Record rec_entry := {
  item : option string;
  rec_category : string;
  quote : string;
  endorsements : Z
}.

Record merged := {
  m_brands : list brand_entry;
  m_recommendations : list rec_entry;
  m_opportunities : list opportunity
}.

(** [not result]: [None], or a dict without any key. *)
Definition falsy (r : option result) : bool :=
  match r with
  | None => true
  | Some d =>
      match error d, raw d, brands d, recommendations d, opportunities d with
      | None, None, None, None, None => true
      | _, _, _, _, _ => false
      end
  end.

(** ["error" in result] *)
Definition has_error (d : result) : bool :=
  match error d with Some _ => true | None => false end.

(** [not result or "error" in result] *)
Definition skipped (r : option result) : bool :=
  falsy r || match r with Some d => has_error d | None => false end.

(** [brand.get("sentiment") in ("positive", "negative")] *)
Definition polarized (s : option string) : bool :=
  match s with
  | Some v => String.eqb v "positive" || String.eqb v "negative"
  | None => false
  end.

Definition pair_eqb (a b : string * string) : bool :=
  String.eqb (fst a) (fst b) && String.eqb (snd a) (snd b).

Definition brand_map := ODict.t (K := string) (V := brand_entry).
Definition rec_map := ODict.t (K := string) (V := rec_entry).
Definition opp_map := ODict.t (K := string * string) (V := opportunity).

(** One turn of the loop over [result.get("brands", [])]; [key] is
    the lowered name the source calls [name]. *)
Definition merge_brand (merged_brands : brand_map) (brand : brand)
  : brand_map :=
  let key := lower (get (b_name brand) "") in
  if negb (truthy key) then merged_brands
  else
    match ODict.lookup String.eqb key merged_brands with
    | Some entry =>
        let entry :=
          {| name := entry.(name);
             category := entry.(category);
             sentiment := entry.(sentiment);
             mentions := entry.(mentions) + get (b_mentions brand) 1 |} in
        let entry :=
          if polarized (b_sentiment brand)
          then {| name := entry.(name);
                  category := entry.(category);
                  sentiment := get (b_sentiment brand) "";
                  mentions := entry.(mentions) |}
          else entry in
        ODict.store String.eqb key entry merged_brands
    | None =>
        ODict.store String.eqb key
          {| name := b_name brand;
             category := get (b_category brand) "";
             sentiment := get (b_sentiment brand) "neutral";
             mentions := get (b_mentions brand) 1 |}
          merged_brands
    end.

(** One turn of the loop over [result.get("recommendations", [])];
    [key] is the lowered item the source calls [item]. *)
Definition merge_recommendation (merged_recommendations : rec_map)
  (rec : recommendation) : rec_map :=
  let key := lower (get (r_item rec) "") in
  if negb (truthy key) then merged_recommendations
  else
    match ODict.lookup String.eqb key merged_recommendations with
    | Some entry =>
        ODict.store String.eqb key
          {| item := entry.(item);
             rec_category := entry.(rec_category);
             quote := entry.(quote);
             endorsements :=
               entry.(endorsements) + get (r_endorsements rec) 1 |}
          merged_recommendations
    | None =>
        ODict.store String.eqb key
          {| item := r_item rec;
             rec_category := get (r_category rec) "";
             quote := get (r_quote rec) "";
             endorsements := get (r_endorsements rec) 1 |}
          merged_recommendations
    end.

(** One turn of the loop over [result.get("opportunities", [])]. *)
Definition merge_opportunity (merged_opportunities : opp_map)
  (opp : opportunity) : opp_map :=
  let key := (lower (get (o_target opp) ""), lower (get (o_type opp) "")) in
  if truthy (fst key)
     && negb (ODict.contains pair_eqb key merged_opportunities)
  then ODict.store pair_eqb key opp merged_opportunities
  else merged_opportunities.

Record maps := {
  merged_brands : brand_map;
  merged_recommendations : rec_map;
  merged_opportunities : opp_map
}.

(** One turn of the loop over [results]. *)
Definition merge_result (st : maps) (r : option result) : maps :=
  match r with
  | Some d =>
      if skipped r then st
      else
        {| merged_brands :=
             fold_left merge_brand (get (brands d) []) st.(merged_brands);
           merged_recommendations :=
             fold_left merge_recommendation (get (recommendations d) [])
               st.(merged_recommendations);
           merged_opportunities :=
             fold_left merge_opportunity (get (opportunities d) [])
               st.(merged_opportunities) |}
  | None => st
  end.

Definition merge_commercial_results (results : list (option result))
  : merged :=
  let st := fold_left merge_result results
              {| merged_brands := []; merged_recommendations := [];
                 merged_opportunities := [] |} in
  let brands_list := sorted_desc mentions (ODict.values st.(merged_brands)) in
  let recs_list :=
    slice_to (sorted_desc endorsements
                (ODict.values st.(merged_recommendations))) 8 in
  let opps_list := slice_to (ODict.values st.(merged_opportunities)) 5 in
  {| m_brands := brands_list;
     m_recommendations := recs_list;
     m_opportunities := opps_list |}.

(** [{"brands": [], "recommendations": [], "opportunities": []}] *)
Definition empty_merged : merged :=
  {| m_brands := []; m_recommendations := []; m_opportunities := [] |}.

(** A merged result read again as an analysis result: the same
    dictionaries, every key of every entry present. *)
Definition as_brand (e : brand_entry) : brand :=
  {| b_name := e.(name); b_category := Some e.(category);
     b_sentiment := Some e.(sentiment); b_mentions := Some e.(mentions) |}.

Definition as_recommendation (e : rec_entry) : recommendation :=
  {| r_item := e.(item); r_category := Some e.(rec_category);
     r_quote := Some e.(quote); r_endorsements := Some e.(endorsements) |}.

Definition as_result (m : merged) : option result :=
  Some {| error := None; raw := None;
          brands := Some (map as_brand m.(m_brands));
          recommendations := Some (map as_recommendation m.(m_recommendations));
          opportunities := Some m.(m_opportunities) |}.

End Merge.

(** ** The words of the specification about merging *)

Module MergeSpec.
Import PyStr Merge.
Import Comments (get).

Section Keyed.
Context {K I : Type} (eqb : K -> K -> bool) (key : I -> option K).

(** The items that carry the key [k], in the order they come. *)
Definition occurrences (k : K) (items : list I) : list I :=
  filter (fun i => match key i with
                   | Some k' => eqb k k'
                   | None => false
                   end) items.

(** The distinct keys, each at the place of its first occurrence. *)
Fixpoint first_keys (items : list I) : list K :=
  match items with
  | [] => []
  | i :: rest =>
      match key i with
      | Some k => k :: filter (fun k' => negb (eqb k k')) (first_keys rest)
      | None => first_keys rest
      end
  end.
End Keyed.

(** The normalized keys; an item without one is left out of the merge. *)
Definition brand_key (b : brand) : option string :=
  let k := lower (get (b_name b) "") in
  if truthy k then Some k else None.

Definition rec_key (r : recommendation) : option string :=
  let k := lower (get (r_item r) "") in
  if truthy k then Some k else None.

Definition opp_key (o : opportunity) : option (string * string) :=
  let k := (lower (get (o_target o) ""), lower (get (o_type o) "")) in
  if truthy (fst k) then Some k else None.

(** The items of the results that are not skipped, in order. *)
Definition incoming {A} (field : result -> option (list A))
  (results : list (option result)) : list A :=
  flat_map (fun r => match r with
                     | Some d => if skipped r then [] else get (field d) []
                     | None => []
                     end) results.

(** The sentiment after the later occurrences: the last polarized one
    of them, or else the sentiment the first occurrence gave. *)
Definition last_polarized (seed : string) (later : list brand) : string :=
  fold_left (fun s b => if polarized (b_sentiment b)
                        then get (b_sentiment b) "" else s) later seed.

Definition total {A} (count : A -> Z) (l : list A) : Z :=
  fold_right (fun x acc => count x + acc) 0 l.

(** The brand entry of a key, from its first and its later occurrences. *)
Definition brand_entry_of (first : brand) (later : list brand) : brand_entry :=
  {| name := b_name first;
     category := get (b_category first) "";
     sentiment := last_polarized (get (b_sentiment first) "neutral") later;
     mentions := get (b_mentions first) 1
                 + total (fun b => get (b_mentions b) 1) later |}.

(** The same entry, built the way the loop builds it. *)
Definition brand_seed (b : brand) : brand_entry :=
  {| name := b_name b;
     category := get (b_category b) "";
     sentiment := get (b_sentiment b) "neutral";
     mentions := get (b_mentions b) 1 |}.

Definition brand_update (e : brand_entry) (b : brand) : brand_entry :=
  {| name := e.(name);
     category := e.(category);
     sentiment := if polarized (b_sentiment b)
                  then get (b_sentiment b) "" else e.(sentiment);
     mentions := e.(mentions) + get (b_mentions b) 1 |}.

(** The recommendation entry of a key. *)
Definition rec_entry_of (first : recommendation) (later : list recommendation)
  : rec_entry :=
  {| item := r_item first;
     rec_category := get (r_category first) "";
     quote := get (r_quote first) "";
     endorsements := get (r_endorsements first) 1
                     + total (fun r => get (r_endorsements r) 1) later |}.

Definition rec_seed (r : recommendation) : rec_entry :=
  {| item := r_item r;
     rec_category := get (r_category r) "";
     quote := get (r_quote r) "";
     endorsements := get (r_endorsements r) 1 |}.

Definition rec_update (e : rec_entry) (r : recommendation) : rec_entry :=
  {| item := e.(item);
     rec_category := e.(rec_category);
     quote := e.(quote);
     endorsements := e.(endorsements) + get (r_endorsements r) 1 |}.

(** The normalized name of a merged brand with its mention total. *)
Definition brand_total (e : brand_entry) : string * Z :=
  (lower (get e.(name) ""), e.(mentions)).

(** [entries] lists, key by key in first-seen order, the entry that
    [entry_of] gives for the occurrences of the key. *)
Definition entries_by_key {K I E} (eqb : K -> K -> bool)
  (key : I -> option K) (entry_of : I -> list I -> E)
  (items : list I) (entries : list E) : Prop :=
  Forall2 (fun k e => exists first later,
               occurrences eqb key k items = first :: later
               /\ e = entry_of first later)
    (first_keys eqb key items) entries.

End MergeSpec.

(** ** Sample inputs *)

Module Samples.
Import Comments Merge.

Definition sample (n : Z) (b : string) : comment :=
  {| body := Some b; numRecommends := Some n;
     profile := None; article_title := None |}.

Definition four_comments : list comment :=
  [sample 1 "a"; sample 7 "b"; sample 3 "c"; sample 5 "d"].

Definition seven_comments : list comment :=
  [sample 1 "a"; sample 5 "b"; sample 3 "c"; sample 5 "d";
   sample 0 "e"; sample 2 "f"; sample 9 "g"].

(** A result with the given lists and no error. *)
Definition answer (bs : list brand) (rs : list recommendation)
  (os : list opportunity) : option result :=
  Some {| error := None; raw := None; brands := Some bs;
          recommendations := Some rs; opportunities := Some os |}.

(** [{"error": ..., "raw": ...}] *)
Definition parse_error : option result :=
  Some {| error := Some "Failed to parse commercial opportunities";
          raw := Some "not json"; brands := None;
          recommendations := None; opportunities := None |}.

(** [{}] *)
Definition empty_dict : option result :=
  Some {| error := None; raw := None; brands := None;
          recommendations := None; opportunities := None |}.

Definition a_brand (n : string) (m : Z) (s : string) : brand :=
  {| b_name := Some n; b_category := None;
     b_sentiment := Some s; b_mentions := Some m |}.

Definition a_rec (n : string) : recommendation :=
  {| r_item := Some n; r_category := None; r_quote := None;
     r_endorsements := None |}.

Definition an_opp (target type rationale : string) : opportunity :=
  {| o_type := Some type; o_target := Some target;
     o_rationale := Some rationale |}.

Definition nine_recs : list recommendation :=
  [a_rec "r1"; a_rec "r2"; a_rec "r3"; a_rec "r4"; a_rec "r5";
   a_rec "r6"; a_rec "r7"; a_rec "r8"; a_rec "r9"].

End Samples.

(** ** The pipelines *)

Module Pipeline.
Import PyStr PyList Comments Merge.

(** The answer of an analysis the pipelines pass on unread. *)
Definition json : Type := string.

Record article := {
  a_title : string;
  a_url : string;
  a_short_url : string
}.

(** What [fetch_all_comments] returns: the comments and the title of
    the discussion, when there is one. *)
Record fetched := {
  f_comments : list comment;
  f_title : option string
}.

(** [{"title": ..., "url": ..., "commentCount": ...}] *)
Record article_with_comments := {
  ac_title : string;
  ac_url : string;
  ac_commentCount : Z
}.

Inductive payload : Type :=
| ArticleMeta (articleTitle articleUrl : string)
    (totalComments uniqueCommenters commentsAnalyzed : Z)
| KeywordMeta (keyword : string)
    (articlesSearched articlesWithComments totalComments commentsAnalyzed : Z)
| SectionMeta (sectionUrl sectionName : string)
    (articlesFound articlesWithComments totalComments commentsAnalyzed : Z)
| Articles (articles : list article)
| Answer (data : json)
| Commercial (data : option result).

(** The dictionaries the generators yield, before [format_sse] writes
    them as server-sent events. *)
Inductive event : Type :=
| Progress (step message : string)
| Result (section : string) (data : payload)
| Complete (message : string)
| Error (message : string).

(** The environment and the collaborators. The analysis functions are
    the AnalysisClient: each takes the number of analysis calls made
    before it, so that two calls with the same text may differ. *)
Record world := {
  ANTHROPIC_API_KEY : bool;
  GUARDIAN_API_KEY : bool;
  extract_short_url : string -> exn + string;
  fetch_all_comments : string -> exn + fetched;
  search_articles_by_keyword : string -> Z -> exn + list article;
  extract_articles_from_section : string -> Z -> exn + list article;
  generate_discussion_questions : nat -> string -> string -> exn + json;
  analyze_sentiment : nat -> string -> string -> exn + json;
  extract_commercial_opportunities :
    nat -> string -> string -> exn + option result;
  extract_commercial_opportunities_aggregated :
    nat -> string -> string -> Z -> exn + option result;
  section_name_of : string -> string
}.

(** What a run leaves behind: the events yielded, and the texts sent
    to the AnalysisClient, one per call. *)
Record trace := {
  events : list event;
  calls : list string
}.

Definition start : trace := {| events := []; calls := [] |}.

(** A computation that yields events, calls the AnalysisClient and
    may raise. *)
Definition M (A : Type) : Type := trace -> trace * (exn + A).

Definition ret {A} (a : A) : M A := fun t => (t, inr a).

Definition bind {A B} (m : M A) (f : A -> M B) : M B :=
  fun t => match m t with
           | (t', inl e) => (t', inl e)
           | (t', inr a) => f a t'
           end.

Definition lift {A} (r : exn + A) : M A := fun t => (t, r).

Definition yield (e : event) : M unit :=
  fun t => ({| events := t.(events) ++ [e]; calls := t.(calls) |}, inr tt).

(** A call of the AnalysisClient with the text [text]. *)
Definition analysis_call {A} (f : nat -> string -> exn + A) (text : string)
  : M A :=
  fun t => ({| events := t.(events); calls := t.(calls) ++ [text] |},
            f (List.length t.(calls)) text).

(** [try: m except Exception as e: handler(e)] *)
Definition try_except {A} (m : M A) (handler : exn -> M A) : M A :=
  fun t => match m t with
           | (t', inl e) => handler e t'
           | (t', inr a) => (t', inr a)
           end.

(** A [for] loop that collects one value per turn. *)
Fixpoint for_each {A B} (f : A -> M B) (l : list A) : M (list B) :=
  match l with
  | [] => ret []
  | x :: rest =>
      bind (f x) (fun y => bind (for_each f rest) (fun ys => ret (y :: ys)))
  end.

(** A [for] loop that threads a state. *)
Fixpoint for_fold {A S} (f : S -> A -> M S) (l : list A) (s : S) : M S :=
  match l with
  | [] => ret s
  | x :: rest => bind (f s x) (for_fold f rest)
  end.

End Pipeline.

Notation "x <-- m ;;; k" := (Pipeline.bind m (fun x => k))
  (at level 61, m at next level, right associativity).
Notation "m ;;; k" := (Pipeline.bind m (fun _ => k))
  (at level 61, right associativity).

Module Batched.
Import PyStr PyList Comments Merge Pipeline.

(** [extract_commercial_opportunities_batched]; [progress_callback] is
    [None] when the caller gives none. *)
Definition extract_commercial_opportunities_batched (w : world)
  (comments : list comment) (keyword : string) (article_count : Z)
  (batch_size : Z) (progress_callback : option (Z -> Z -> M unit))
  : M merged :=
  batches <-- lift (split_batches comments batch_size) ;;;
  match batches with
  | [] => ret empty_merged
  | _ =>
      batch_results <--
        for_each
          (fun ib : Z * list comment =>
             let (i, batch) := ib in
             match progress_callback with
             | Some callback => callback (i + 1) (len batches)
             | None => ret tt
             end ;;;
             comments_text <--
               lift (prepare_comments_for_analysis batch (len batch)) ;;;
             analysis_call
               (fun n text =>
                  w.(extract_commercial_opportunities_aggregated)
                    n text keyword article_count)
               comments_text)
          (enumerate batches 0) ;;;
      ret (merge_commercial_results batch_results)
  end.

End Batched.

(** ** The generators of [app.py] *)

Module App.
Import PyStr PyList Comments Merge Pipeline.

(** [except ValueError as e] and [except Exception as e], the two
    handlers that close every generator. *)
Definition report (e : exn) : M unit :=
  if is_ValueError e then yield (Error (exn_str e))
  else yield (Error ("Error: " ++ exn_str e)).

(** [c.get("userProfile", {}).get("userId", "")] *)
Definition user_id (c : comment) : string :=
  match profile c with
  | Some p => get (userId p) ""
  | None => ""
  end.

(** [len(set(...))] *)
Definition count_distinct (l : list string) : Z :=
  len (nodup string_dec l).

(** [comment["_article_title"] = title] *)
Definition with_article_title (title : string) (c : comment) : comment :=
  {| body := body c; numRecommends := numRecommends c;
     profile := profile c; article_title := Some title |}.

Definition generate_analysis (w : world) (article_url : string) : M unit :=
  try_except
    (if negb w.(ANTHROPIC_API_KEY) then
       yield (Error "ANTHROPIC_API_KEY environment variable not set. Set it before starting the server.")
     else
       yield (Progress "scraping" "Extracting discussion key...") ;;;
       short_url <-- lift (w.(extract_short_url) article_url) ;;;
       yield (Progress "scraping"
                ("Found key " ++ short_url ++ ". Fetching comments...")) ;;;
       result <-- lift (w.(fetch_all_comments) short_url) ;;;
       let comments := f_comments result in
       let article_title := get (f_title result) "Unknown Article" in
       let total := len comments in
       yield (Progress "scraping"
                ("Scraped " ++ str_of_Z total ++ " comments")) ;;;
       yield (Result "meta"
                (ArticleMeta article_title article_url total
                   (count_distinct (map user_id comments))
                   (Z.min total 200))) ;;;
       if total =? 0 then yield (Complete "No comments to analyze.")
       else
         yield (Progress "preparing" "Preparing comments for analysis...") ;;;
         comments_text <-- lift (prepare_comments_for_analysis comments 200) ;;;
         yield (Progress "analyzing" "Generating discussion questions...") ;;;
         questions <--
           analysis_call
             (fun n text => w.(generate_discussion_questions) n text article_title)
             comments_text ;;;
         yield (Result "discussionQuestions" (Answer questions)) ;;;
         yield (Progress "analyzing" "Analyzing sentiment...") ;;;
         sentiment <--
           analysis_call
             (fun n text => w.(analyze_sentiment) n text article_title)
             comments_text ;;;
         yield (Result "sentiment" (Answer sentiment)) ;;;
         yield (Progress "analyzing" "Extracting commercial opportunities...") ;;;
         commercial <--
           try_except
             (analysis_call
                (fun n text =>
                   w.(extract_commercial_opportunities) n text article_title)
                comments_text)
             (fun _ => ret (as_result empty_merged)) ;;;
         yield (Result "commercialOpportunities" (Commercial commercial)) ;;;
         yield (Complete "Analysis complete"))
    report.

(** Phase 2 of the multi-article generators: one turn of the loop over
    the articles. A fetch that raises leaves a warning and nothing
    else. *)
Definition scrape_article (w : world) (n_articles : Z)
  (acc : list comment * list article_with_comments) (ia : Z * article)
  : M (list comment * list article_with_comments) :=
  let (all_comments, articles_with_comments) := acc in
  let (i, article) := ia in
  yield (Progress "scraping"
           ("Scraping comments from article " ++ str_of_Z (i + 1) ++ "/"
            ++ str_of_Z n_articles ++ ": "
            ++ substring 0 50 (a_title article) ++ "...")) ;;;
  try_except
    (result <-- lift (w.(fetch_all_comments) (a_short_url article)) ;;;
     let comments :=
       map (with_article_title (a_title article)) (f_comments result) in
     ret ((all_comments ++ comments)%list,
          match comments with
          | [] => articles_with_comments
          | _ =>
              (articles_with_comments
               ++ [{| ac_title := a_title article;
                      ac_url := a_url article;
                      ac_commentCount := len comments |}])%list
          end))
    (fun _ =>
       yield (Progress "scraping"
                ("Warning: Could not fetch comments for article "
                 ++ str_of_Z (i + 1))) ;;;
       ret acc).

(** Phase 3 of the multi-article generators: the batches, one
    AnalysisClient call each, and the merge. *)
Definition analyze_in_batches (w : world) (all_comments : list comment)
  (label : string) (article_count : Z) : M unit :=
  let total_comments := len all_comments in
  let batch_size := 200 in
  batches <-- lift (split_batches all_comments batch_size) ;;;
  let num_batches := len batches in
  yield (Progress "analyzing"
           ("Analyzing " ++ str_of_Z total_comments ++ " comments in "
            ++ str_of_Z num_batches ++ " batch(es)...")) ;;;
  batch_results <--
    for_each
      (fun ib : Z * list comment =>
         let (i, batch) := ib in
         yield (Progress "analyzing"
                  ("Processing batch " ++ str_of_Z (i + 1) ++ "/"
                   ++ str_of_Z num_batches ++ " ("
                   ++ str_of_Z (len batch) ++ " comments)...")) ;;;
         comments_text <--
           lift (prepare_comments_for_analysis batch (len batch)) ;;;
         analysis_call
           (fun n text =>
              w.(extract_commercial_opportunities_aggregated)
                n text label article_count)
           comments_text)
      (enumerate batches 0) ;;;
  let commercial := merge_commercial_results batch_results in
  yield (Result "commercialOpportunities"
           (Commercial (as_result commercial))) ;;;
  yield (Complete "Analysis complete").

Definition generate_keyword_analysis (w : world) (keyword : string)
  (limit : Z) : M unit :=
  try_except
    (if negb w.(ANTHROPIC_API_KEY) then
       yield (Error "ANTHROPIC_API_KEY environment variable not set.")
     else if negb w.(GUARDIAN_API_KEY) then
       yield (Error "GUARDIAN_API_KEY environment variable not set.")
     else
       yield (Progress "searching"
                ("Searching for articles about '" ++ keyword ++ "'...")) ;;;
       articles <-- lift (w.(search_articles_by_keyword) keyword limit) ;;;
       match articles with
       | [] => yield (Error ("No articles found for '" ++ keyword ++ "'"))
       | _ =>
           yield (Progress "searching"
                    ("Found " ++ str_of_Z (len articles) ++ " articles")) ;;;
           yield (Result "articles" (Articles articles)) ;;;
           scraped <--
             for_fold (scrape_article w (len articles))
               (enumerate articles 0) ([], []) ;;;
           let (all_comments, articles_with_comments) := scraped in
           match all_comments with
           | [] => yield (Error "No comments found across any articles")
           | _ =>
               yield (Result "meta"
                        (KeywordMeta keyword (len articles)
                           (len articles_with_comments) (len all_comments)
                           (Z.min (len all_comments) 200))) ;;;
               analyze_in_batches w all_comments keyword
                 (len articles_with_comments)
           end
       end)
    report.

Definition generate_section_analysis (w : world) (section_url : string)
  (limit : Z) : M unit :=
  try_except
    (if negb w.(ANTHROPIC_API_KEY) then
       yield (Error "ANTHROPIC_API_KEY environment variable not set.")
     else
       yield (Progress "searching" "Extracting articles from section page...") ;;;
       articles <-- lift (w.(extract_articles_from_section) section_url limit) ;;;
       match articles with
       | [] => yield (Error "No articles with comments found on this page")
       | _ =>
           yield (Progress "searching"
                    ("Found " ++ str_of_Z (len articles)
                     ++ " articles with comments")) ;;;
           yield (Result "articles" (Articles articles)) ;;;
           scraped <--
             for_fold (scrape_article w (len articles))
               (enumerate articles 0) ([], []) ;;;
           let (all_comments, articles_with_comments) := scraped in
           match all_comments with
           | [] => yield (Error "No comments found across any articles")
           | _ =>
               let section_name := w.(section_name_of) section_url in
               yield (Result "meta"
                        (SectionMeta section_url section_name (len articles)
                           (len articles_with_comments) (len all_comments)
                           (len all_comments))) ;;;
               analyze_in_batches w all_comments section_name
                 (len articles_with_comments)
           end
       end)
    report.

End App.

(** ** The words of the specification about the pipelines *)

Module PipelineSpec.
Import PyStr PyList Comments Merge Pipeline.

(** The text block of a batch: every comment of the batch, formatted,
    numbered from 1. *)
Definition batch_text (batch : list comment) : string :=
  join (newline ++ newline)
    (map format_comment (enumerate (sorted_desc recommends batch) 1)).

(** The batches of a run, none when the batch size is refused. *)
Definition batches_of (comments : list comment) (batch_size : Z)
  : list (list comment) :=
  match split_batches comments batch_size with
  | inr batches => batches
  | inl _ => []
  end.

(** What the AnalysisClient does with the texts, one call per text,
    when [k] calls were made before: it returns a result or raises. *)
Fixpoint answers_from {A} (f : nat -> string -> exn + A) (k : nat)
  (texts : list string) : list (exn + A) :=
  match texts with
  | [] => []
  | text :: rest => f k text :: answers_from f (S k) rest
  end.

(** A terminal event closes the stream: a completion or an error. *)
Definition is_terminal (e : event) : bool :=
  match e with
  | Complete _ | Error _ => true
  | _ => false
  end.

(** The progress event of a batch in the multi-article generators. *)
Definition batch_progress (num_batches : Z) (ib : Z * list comment) : event :=
  Progress "analyzing"
    ("Processing batch " ++ str_of_Z (fst ib + 1) ++ "/"
     ++ str_of_Z num_batches ++ " ("
     ++ str_of_Z (len (snd ib)) ++ " comments)...").

(** The event that opens phase 3. *)
Definition batches_announced (comments : list comment) : event :=
  Progress "analyzing"
    ("Analyzing " ++ str_of_Z (len comments) ++ " comments in "
     ++ str_of_Z (len (batches_of comments 200)) ++ " batch(es)...").

(** The events of phase 3 up to the dispatch of the [k]-th batch. *)
Definition dispatch_events (comments : list comment) (k : nat) : list event :=
  let batches := batches_of comments 200 in
  batches_announced comments
  :: map (batch_progress (len batches)) (firstn k (enumerate batches 0)).

(** No article has a comment: its fetch raises or returns none. *)
Definition no_comments (w : world) (articles : list article) : Prop :=
  Forall (fun a => match w.(fetch_all_comments) (a_short_url a) with
                   | inr f => f_comments f = []
                   | inl _ => True
                   end) articles.

(** No event of the list is terminal. *)
Definition nonterminal (evs : list event) : Prop :=
  forallb (fun e => negb (is_terminal e)) evs = true.

(** A stream is closed when its last event is terminal and no other
    event is. *)
Definition closed_stream (evs : list event) : Prop :=
  exists before e,
    evs = (before ++ [e])%list /\ is_terminal e = true /\ nonterminal before.

(** A computation is quiet when it yields no terminal event, whether it
    returns or raises. *)
Definition quiet {A} (m : M A) : Prop :=
  forall t, nonterminal (events t) -> nonterminal (events (fst (m t))).

(** A computation closes the stream when it yields its one terminal
    event last, unless it raises, and then it has yielded none. *)
Definition closing (m : M unit) : Prop :=
  forall t, nonterminal (events t) ->
    match snd (m t) with
    | inl _ => nonterminal (events (fst (m t)))
    | inr _ => closed_stream (events (fst (m t)))
    end.

(** The sum of the comment counts of the articles listed. *)
Definition counted (articles : list article_with_comments) : Z :=
  fold_right (fun a acc => ac_commentCount a + acc) 0 articles.

End PipelineSpec.

(** ** Sample runs *)

Module PipelineSamples.
Import PyStr PyList Comments Merge Pipeline Samples.

(** 450 comments with 450 down to 1 recommendations. *)
Definition comments_450 : list comment :=
  map (fun n => sample (Z.of_nat (450 - n)) "text") (seq 0 450).

Definition first_answer : option result :=
  answer [a_brand "Nike" 3 "neutral"] [] [].

Definition third_answer : option result :=
  answer [a_brand "Adidas" 2 "positive"] [] [].

Definition one_article : article :=
  {| a_title := "Shoes"; a_url := "https://www.theguardian.com/shoes";
     a_short_url := "/p/abc" |}.

(** A world with both keys, one article, the given comments under it,
    and an AnalysisClient whose second aggregated call does [second]. *)
Definition a_world (comments : list comment) (second : exn + option result)
  : world :=
  {| ANTHROPIC_API_KEY := true;
     GUARDIAN_API_KEY := true;
     extract_short_url := fun _ => inr "/p/abc";
     fetch_all_comments :=
       fun _ => inr {| f_comments := comments; f_title := Some "Shoes" |};
     search_articles_by_keyword := fun _ _ => inr [one_article];
     extract_articles_from_section := fun _ _ => inr [one_article];
     generate_discussion_questions := fun _ _ _ => inr "[]";
     analyze_sentiment := fun _ _ _ => inr "{}";
     extract_commercial_opportunities := fun _ _ _ => inr first_answer;
     extract_commercial_opportunities_aggregated :=
       fun n _ _ _ =>
         match n with
         | O => inr first_answer
         | S O => second
         | _ => inr third_answer
         end;
     section_name_of := fun _ => "Shoes" |}.

End PipelineSamples.

(** ** Reading the answer of the AnalysisClient *)

Module Answers.
Import PyStr Merge.

Definition open_brace : ascii := "{"%char.
Definition close_brace : ascii := "}"%char.

(** Does the character occur in the string? *)
Fixpoint occurs (c : ascii) (s : string) : bool :=
  match s with
  | EmptyString => false
  | String d r => Ascii.eqb d c || occurs c r
  end.

(** What follows the first ["{"]. *)
Fixpoint after_first_open (s : string) : option string :=
  match s with
  | EmptyString => None
  | String c r => if Ascii.eqb c open_brace then Some r else after_first_open r
  end.

(** The string up to its last ["}"], that one included. *)
Fixpoint upto_last_close (s : string) : option string :=
  match s with
  | EmptyString => None
  | String c r =>
      match upto_last_close r with
      | Some p => Some (String c p)
      | None => if Ascii.eqb c close_brace then Some (String c EmptyString)
                else None
      end
  end.

(** [re.search(r'\{.*\}', text, re.DOTALL)] and the [group()] of its
    match: the leftmost ["{"] that has a ["}"] after it, and everything up
    to the last ["}"], newlines included. *)
Definition search_braces (text : string) : option string :=
  match after_first_open text with
  | Some r =>
      match upto_last_close r with
      | Some p => Some (String open_brace p)
      | None => None
      end
  | None => None
  end.

(** [{"error": "Failed to parse commercial opportunities", "raw": text}] *)
Definition error_result (text : string) : option result :=
  Some {| error := Some "Failed to parse commercial opportunities";
          raw := Some text; brands := None; recommendations := None;
          opportunities := None |}.

(** The [try]/[except] that ends [extract_commercial_opportunities] and
    [extract_commercial_opportunities_aggregated]. [loads] is
    [json.loads]: the value read, or the message of its
    [JSONDecodeError], which is a [ValueError]. The second [json.loads]
    runs inside the handler, where nothing catches what it raises. *)
Definition parse_answer (loads : string -> string + option result)
  (text : string) : exn + option result :=
  match loads text with
  | inr result => inr result
  | inl _ =>
      match search_braces text with
      | Some matched =>
          match loads matched with
          | inr result => inr result
          | inl msg => inl (ValueError msg)
          end
      | None => inr (error_result text)
      end
  end.

(** [extract_commercial_opportunities_aggregated]: the prompt is filled
    in, [create] sends it and returns the text of the answer or raises,
    and the text is read. *)
Definition extract_commercial_opportunities_aggregated
  (prompt : string -> Z -> string -> string)
  (create : string -> exn + string)
  (loads : string -> string + option result)
  (comments_text keyword : string) (article_count : Z) : exn + option result :=
  match create (prompt keyword article_count comments_text) with
  | inl e => inl e
  | inr text => parse_answer loads text
  end.

End Answers.

(** ** Fetching a discussion, page by page *)

Module Scraper.
Import PyStr PyList Comments.

(** A page of the discussion API, as far as [fetch_all_comments] reads
    it: [data.get("pages", 1)] and, under [data.get("discussion", {})],
    the title and the comments. *)
Record discussion_page := {
  pg_pages : option Z;
  pg_title : option string;
  pg_comments : option (list comment)
}.

(** What [fetch_all_comments] returns. *)
Record scraped := {
  sc_title : option string;
  sc_comments : list comment;
  sc_totalFetched : Z
}.

(** The [while page <= total_pages] loop. [get_page] is the request of
    one page: it returns the data or raises. [requested] lists the pages
    asked for so far. The loop has no bound of its own, so the embedding
    takes [fuel]; it gives [None] when the fuel runs out. *)
Fixpoint fetch_pages (get_page : Z -> exn + discussion_page) (fuel : nat)
  (page total_pages : Z) (title : option string)
  (all_comments : list comment) (requested : list Z)
  : list Z * option (exn + scraped) :=
  if page <=? total_pages then
    match fuel with
    | O => (requested, None)
    | S fuel' =>
        match get_page page with
        | inl e => ((requested ++ [page])%list, Some (inl e))
        | inr data =>
            let title := if page =? 1 then pg_title data else title in
            let total_pages :=
              if page =? 1 then get (pg_pages data) 1 else total_pages in
            fetch_pages get_page fuel' (page + 1) total_pages title
              (all_comments ++ get (pg_comments data) [])%list
              (requested ++ [page])%list
        end
    end
  else
    (requested,
     Some (inr {| sc_title := title;
                  sc_comments := all_comments;
                  sc_totalFetched := len all_comments |})).

Definition fetch_all_comments (get_page : Z -> exn + discussion_page)
  (fuel : nat) : list Z * option (exn + scraped) :=
  fetch_pages get_page fuel 1 1 None [] [].

(** The pages [page, page + 1, ...], [k] of them. *)
Definition pages_from (page : Z) (k : nat) : list Z :=
  map (fun i => page + Z.of_nat i) (seq 0 k).

(** The comments of a page, none when the request raises. *)
Definition page_comments (get_page : Z -> exn + discussion_page) (page : Z)
  : list comment :=
  match get_page page with
  | inr data => get (pg_comments data) []
  | inl _ => []
  end.

(** A page with the given page count and comments. *)
Definition page_of (pages : Z) (cs : list comment) : discussion_page :=
  {| pg_pages := Some pages; pg_title := Some "Shoes";
     pg_comments := Some cs |}.

(** A discussion of three pages, the second one empty. *)
Definition three_pages (page : Z) : exn + discussion_page :=
  if page =? 1 then
    inr (page_of 3 [Samples.sample 1 "a"; Samples.sample 7 "b"])
  else if page =? 2 then inr (page_of 3 [])
  else if page =? 3 then
    inr (page_of 3 [Samples.sample 3 "c"; Samples.sample 5 "d"])
  else inl (Exception "404").

(** A discussion of three pages whose second page cannot be fetched. *)
Definition second_page_fails (page : Z) : exn + discussion_page :=
  if page =? 2 then inl (Exception "503") else three_pages page.

End Scraper.

(** ** Discussion keys: [extract_short_url] and
    [search_articles_by_keyword] *)

Module Keys.
Import PyStr PyList Comments.

Definition quote : ascii := "034"%char.

(** [s] between double quotes. *)
Definition quoted (s : string) : string :=
  String quote (s ++ String quote "").

(** [[a-z0-9]] *)
Definition is_key_char (c : ascii) : bool :=
  let n := nat_of_ascii c in
  ((97 <=? n) && (n <=? 122) || (48 <=? n) && (n <=? 57))%nat.

(** The longest run of [[a-z0-9]] at the start of [s], and what
    follows it. *)
Fixpoint key_span (s : string) : string * string :=
  match s with
  | EmptyString => ("", "")
  | String c r =>
      if is_key_char c then
        let (body, rest) := key_span r in (String c body, rest)
      else ("", s)
  end.

(** [s] without its prefix [p], when it starts with [p]. *)
Fixpoint strip_prefix (p s : string) : option string :=
  match p with
  | EmptyString => Some s
  | String a p' =>
      match s with
      | EmptyString => None
      | String b s' => if Ascii.eqb a b then strip_prefix p' s' else None
      end
  end.

(** The pieces the patterns of the scraper are made of, besides the
    group [(/p/[a-z0-9]+)]: a literal, [\s*], and an optional literal
    ([s?], [(?:www\.)?]). *)
Inductive piece : Type :=
| Lit (s : string)
| Spaces
| Maybe (s : string).

(** A pattern: pieces, the group [(/p/[a-z0-9]+)], pieces. *)
Record pattern := {
  before : list piece;
  after : list piece
}.

(** The pieces matched at the start of [s]: what follows them. Every
    optional or repeated piece of the patterns below is followed by a
    literal that it cannot start with, so the greedy match is the only
    one and nothing is tried again. *)
Fixpoint match_pieces (ps : list piece) (s : string) : option string :=
  match ps with
  | [] => Some s
  | Lit l :: ps' =>
      match strip_prefix l s with
      | Some r => match_pieces ps' r
      | None => None
      end
  | Spaces :: ps' => match_pieces ps' (lstrip s)
  | Maybe l :: ps' =>
      match strip_prefix l s with
      | Some r => match_pieces ps' r
      | None => match_pieces ps' s
      end
  end.

(** The pattern matched at the start of [s]: its [group(1)]. *)
Definition match_at (p : pattern) (s : string) : option string :=
  match match_pieces (before p) s with
  | None => None
  | Some r =>
      match strip_prefix "/p/" r with
      | None => None
      | Some r' =>
          match key_span r' with
          | (EmptyString, _) => None
          | (body, rest) =>
              match match_pieces (after p) rest with
              | Some _ => Some ("/p/" ++ body)
              | None => None
              end
          end
      end
  end.

(** [re.search(p, s)] and the [group(1)] of its match: the leftmost
    place where the pattern matches. *)
Fixpoint search (p : pattern) (s : string) : option string :=
  match match_at p s with
  | Some k => Some k
  | None =>
      match s with
      | EmptyString => None
      | String _ r => search p r
      end
  end.

(** ["shortUrl"\s*:\s*"https?://(?:www\.)?theguardian\.com(/p/[a-z0-9]+)"] *)
Definition short_url_field : pattern :=
  {| before := [Lit (quoted "shortUrl"); Spaces; Lit ":"; Spaces;
                Lit (String quote "http"); Maybe "s"; Lit "://";
                Maybe "www."; Lit "theguardian.com"];
     after := [Lit (String quote "")] |}.

(** [data-short-url="(/p/[a-z0-9]+)"] *)
Definition short_url_attribute : pattern :=
  {| before := [Lit ("data-short-url=" ++ String quote "")];
     after := [Lit (String quote "")] |}.

(** ["discussionId"\s*:\s*"(/p/[a-z0-9]+)"] *)
Definition discussion_id_field : pattern :=
  {| before := [Lit (quoted "discussionId"); Spaces; Lit ":"; Spaces;
                Lit (String quote "")];
     after := [Lit (String quote "")] |}.

(** [(/p/[a-z0-9]+)] *)
Definition bare_key : pattern := {| before := []; after := [] |}.

(** [extract_short_url]; [page] is the request of the article page: it
    gives [response.text] or raises. *)
Definition extract_short_url (page : string -> exn + string)
  (article_url : string) : exn + string :=
  match page article_url with
  | inl e => inl e
  | inr text =>
      match search short_url_field text with
      | Some key => inr key
      | None =>
          match search short_url_attribute text with
          | Some key => inr key
          | None =>
              match search discussion_id_field text with
              | Some key => inr key
              | None =>
                  inl (ValueError
                         ("Could not find discussion key in article: "
                          ++ article_url))
              end
          end
      end
  end.

(** An item of the results of the Content API, as far as
    [search_articles_by_keyword] reads it; [shortUrl] is
    [item.get("fields", {}).get("shortUrl")]. *)
Record search_item := {
  webTitle : option string;
  webUrl : option string;
  sectionName : option string;
  shortUrl : option string
}.

Record found_article := {
  sa_title : string;
  sa_url : string;
  sa_short_url : string;
  sa_section : string
}.

(** [limit = max(1, min(limit, 20))] *)
Definition page_size (limit : Z) : Z := Z.max 1 (Z.min limit 20).

(** One turn of the loop over the results. *)
Definition add_item (articles : list found_article) (item : search_item)
  : list found_article :=
  match search bare_key (get (shortUrl item) "") with
  | Some key =>
      (articles ++ [{| sa_title := get (webTitle item) "Unknown";
                       sa_url := get (webUrl item) "";
                       sa_short_url := key;
                       sa_section := get (sectionName item) "" |}])%list
  | None => articles
  end.

(** [search_articles_by_keyword]; [api_key] is
    [os.environ.get("GUARDIAN_API_KEY")], and [request keyword size key]
    is the request to the Content API: it gives
    [data.get("response", {}).get("results")] or raises. *)
Definition search_articles_by_keyword (api_key : option string)
  (request : string -> Z -> string -> exn + option (list search_item))
  (keyword : string) (limit : Z) : exn + list found_article :=
  match api_key with
  | Some key =>
      if truthy key then
        match request keyword (page_size limit) key with
        | inl e => inl e
        | inr results => inr (fold_left add_item (get results []) [])
        end
      else inl (ValueError "GUARDIAN_API_KEY environment variable not set")
  | None => inl (ValueError "GUARDIAN_API_KEY environment variable not set")
  end.

(** The limit of the routes [/analyze-keyword] and [/analyze-section]:
    [int(request.args.get("limit", 10))] clamped, and 10 when [int]
    raises [ValueError]. [int] is [None] on a string that is no number. *)
Definition request_limit (int : string -> option Z) (arg : option string)
  : Z :=
  match arg with
  | None => Z.max 1 (Z.min 10 20)
  | Some s =>
      match int s with
      | Some limit => Z.max 1 (Z.min limit 20)
      | None => 10
      end
  end.

(** Is [k] of the form [/p/] and one or more of [[a-z0-9]]? *)
Fixpoint all_chars (f : ascii -> bool) (s : string) : bool :=
  match s with
  | EmptyString => true
  | String c r => f c && all_chars f r
  end.

Definition is_key (k : string) : bool :=
  match strip_prefix "/p/" k with
  | Some body => truthy body && all_chars is_key_char body
  | None => false
  end.

(** Sample pages and results. *)
Definition page_with_field : string :=
  "<a data-short-url=" ++ quoted "/p/old1" ++ "> {"
  ++ quoted "shortUrl" ++ " : " ++ quoted "https://www.theguardian.com/p/x7y2z"
  ++ "}".

Definition items : list search_item :=
  [{| webTitle := Some "One"; webUrl := Some "u1"; sectionName := Some "Life";
      shortUrl := Some "https://www.theguardian.com/p/abc12" |};
   {| webTitle := Some "Two"; webUrl := Some "u2"; sectionName := None;
      shortUrl := None |};
   {| webTitle := None; webUrl := Some "u3"; sectionName := Some "Food";
      shortUrl := Some "https://gu.com/p/x9#comments" |}].

End Keys.

(* ================================================================= *)
(** * Properties *)

Example clean_html_ex1 :
  CleanHtml.clean_html "<p>Hello  <b>world</b></p> x" = "Hello world x".
Proof. reflexivity. Qed.

Example clean_html_ex2 :
  CleanHtml.clean_html "a <> b <<c> d> <e" = "a <> b d> <e".
Proof. reflexivity. Qed.

(** ** [clean_html] is idempotent *)

Module CleanHtmlFacts.
Import PyStr CleanHtml.

Lemma gt_not_space : is_space gt_char = false.
Proof. reflexivity. Qed.

Lemma space_is_space : is_space space = true.
Proof. reflexivity. Qed.

Lemma is_space_not_gt c : is_space c = true -> Ascii.eqb c gt_char = false.
Proof.
  intros H. destruct (Ascii.eqb_spec c gt_char) as [->|]; [|reflexivity].
  rewrite gt_not_space in H. discriminate.
Qed.

Lemma is_space_not_lt c : is_space c = true -> Ascii.eqb c lt_char = false.
Proof.
  intros H. destruct (Ascii.eqb_spec c lt_char) as [->|]; [|reflexivity].
  discriminate H.
Qed.

Lemma no_gt_no_tag s : has_gt s = false -> tag_follows s = false.
Proof.
  destruct s as [|d r]; simpl; auto.
  intros H. apply orb_false_iff in H as [_ ->]. apply andb_false_r.
Qed.

(** *** Tag stripping leaves no tag behind *)

Lemma has_gt_sub_tags s : forall b,
  has_gt s = false -> has_gt (sub_tags b s) = false.
Proof.
  induction s as [|c r IH]; intros b H; simpl in *; auto.
  apply orb_false_iff in H as [Hc Hr].
  destruct b.
  - rewrite Hc. auto.
  - rewrite (no_gt_no_tag r Hr), andb_false_r. simpl.
    rewrite Hc. simpl. auto.
Qed.

Lemma tag_follows_sub_tags s :
  tag_follows s = false -> tag_follows (sub_tags false s) = false.
Proof.
  destruct s as [|d r]; simpl; auto.
  intros H.
  destruct (Ascii.eqb d lt_char && tag_follows r) eqn:E; simpl.
  - apply andb_true_iff in E as [Ed Et].
    destruct (Ascii.eqb_spec d lt_char) as [->|]; [|discriminate].
    simpl in H.
    destruct r as [|e r']; [discriminate|].
    simpl in Et. apply andb_true_iff in Et as [_ Et].
    simpl in H. rewrite Et, orb_true_r in H. discriminate.
  - apply andb_false_iff in H as [H|H].
    + rewrite H. reflexivity.
    + rewrite (has_gt_sub_tags r false H). apply andb_false_r.
Qed.

Lemma sub_tags_tag_free s : forall b, tag_free (sub_tags b s) = true.
Proof.
  induction s as [|c r IH]; intros b; simpl; auto.
  destruct b.
  - destruct (Ascii.eqb c gt_char); auto.
  - destruct (Ascii.eqb c lt_char && tag_follows r) eqn:E; simpl.
    + rewrite IH. reflexivity.
    + rewrite IH, andb_true_r.
      apply andb_false_iff in E as [E|E].
      * rewrite E. reflexivity.
      * rewrite (tag_follows_sub_tags r E). rewrite andb_false_r. reflexivity.
Qed.

Lemma tag_free_fixed s : tag_free s = true -> sub_tags false s = s.
Proof.
  induction s as [|c r IH]; simpl; auto.
  intros H. apply andb_true_iff in H as [Hc Hr].
  apply negb_true_iff in Hc. rewrite Hc, (IH Hr). reflexivity.
Qed.

(** *** Whitespace collapsing and trimming keep the text tag free *)

Lemma has_gt_sub_spaces s : forall b,
  has_gt s = false -> has_gt (sub_spaces b s) = false.
Proof.
  induction s as [|c r IH]; intros b H; simpl in *; auto.
  apply orb_false_iff in H as [Hc Hr].
  destruct (is_space c); [destruct b|]; simpl; auto.
  rewrite Hc. simpl. auto.
Qed.

Lemma tag_follows_sub_spaces s : forall b,
  tag_follows s = false -> tag_follows (sub_spaces b s) = false.
Proof.
  destruct s as [|d r]; intros b H; simpl in *; auto.
  destruct (is_space d) eqn:Ed.
  - rewrite (is_space_not_gt d Ed) in H. simpl in H.
    destruct b; simpl.
    + apply no_gt_no_tag, has_gt_sub_spaces, H.
    + apply has_gt_sub_spaces, H.
  - simpl. apply andb_false_iff in H as [H|H].
    + rewrite H. reflexivity.
    + rewrite (has_gt_sub_spaces r false H). apply andb_false_r.
Qed.

Lemma tag_free_sub_spaces s : forall b,
  tag_free s = true -> tag_free (sub_spaces b s) = true.
Proof.
  induction s as [|c r IH]; intros b H; simpl in *; auto.
  apply andb_true_iff in H as [Hc Hr].
  destruct (is_space c) eqn:Ec.
  - destruct b; simpl; auto.
  - simpl. rewrite (IH false Hr), andb_true_r.
    apply negb_true_iff in Hc. apply negb_true_iff.
    apply andb_false_iff in Hc as [Hc|Hc].
    + rewrite Hc. reflexivity.
    + rewrite (tag_follows_sub_spaces r false Hc). apply andb_false_r.
Qed.

Lemma tag_free_lstrip s : tag_free s = true -> tag_free (lstrip s) = true.
Proof.
  induction s as [|c r IH]; simpl; auto.
  intros H. destruct (is_space c); auto.
  apply andb_true_iff in H as [_ Hr]. auto.
Qed.

Lemma has_gt_rstrip s : has_gt s = false -> has_gt (rstrip s) = false.
Proof.
  induction s as [|c r IH]; simpl; auto.
  intros H. apply orb_false_iff in H as [Hc Hr].
  destruct (is_space c && negb (truthy (rstrip r))); simpl; auto.
  rewrite Hc. simpl. auto.
Qed.

Lemma tag_follows_rstrip s :
  tag_follows s = false -> tag_follows (rstrip s) = false.
Proof.
  destruct s as [|d r]; simpl; auto.
  intros H.
  destruct (is_space d && negb (truthy (rstrip r))); simpl; auto.
  apply andb_false_iff in H as [H|H].
  - rewrite H. reflexivity.
  - rewrite (has_gt_rstrip r H). apply andb_false_r.
Qed.

Lemma tag_free_rstrip s : tag_free s = true -> tag_free (rstrip s) = true.
Proof.
  induction s as [|c r IH]; simpl; auto.
  intros H. apply andb_true_iff in H as [Hc Hr].
  destruct (is_space c && negb (truthy (rstrip r))); simpl; auto.
  rewrite (IH Hr), andb_true_r.
  apply negb_true_iff in Hc. apply negb_true_iff.
  apply andb_false_iff in Hc as [Hc|Hc].
  - rewrite Hc. reflexivity.
  - rewrite (tag_follows_rstrip r Hc). apply andb_false_r.
Qed.

(** *** Whitespace collapsing leaves single spaces *)

Lemma single_spaced_weaken s : forall b,
  single_spaced b s = true -> single_spaced false s = true.
Proof.
  destruct s as [|c r]; intros b H; simpl in *; auto.
  destruct (is_space c); auto.
  apply andb_true_iff in H as [H Hr]. apply andb_true_iff in H as [_ Hc].
  rewrite Hc, Hr. reflexivity.
Qed.

Lemma sub_spaces_single_spaced s : forall b,
  single_spaced b (sub_spaces b s) = true.
Proof.
  induction s as [|c r IH]; intros b; simpl; auto.
  destruct (is_space c) eqn:Ec.
  - destruct b; auto. simpl. apply IH.
  - simpl. rewrite Ec.
    destruct b; auto.
Qed.

Lemma single_spaced_fixed s : forall b,
  single_spaced b s = true -> sub_spaces b s = s.
Proof.
  induction s as [|c r IH]; intros b H; simpl in *; auto.
  destruct (is_space c) eqn:Ec.
  - apply andb_true_iff in H as [H Hr]. apply andb_true_iff in H as [Hb Hc].
    destruct (Ascii.eqb_spec c space) as [->|]; [|discriminate].
    destruct b; [discriminate|].
    f_equal. apply (IH true Hr).
  - f_equal. apply (IH false H).
Qed.

Lemma single_spaced_lstrip s : forall b,
  single_spaced b s = true -> single_spaced false (lstrip s) = true.
Proof.
  induction s as [|c r IH]; intros b H; simpl in *; auto.
  destruct (is_space c) eqn:Ec.
  - apply andb_true_iff in H as [_ Hr]. apply (IH true Hr).
  - simpl. rewrite Ec. exact H.
Qed.

Lemma single_spaced_rstrip s : forall b,
  single_spaced b s = true -> single_spaced b (rstrip s) = true.
Proof.
  induction s as [|c r IH]; intros b H; simpl in *; auto.
  destruct (is_space c && negb (truthy (rstrip r))); simpl; auto.
  destruct (is_space c).
  - apply andb_true_iff in H as [H Hr]. rewrite H. simpl. auto.
  - auto.
Qed.

(** *** Trimming is idempotent *)

Lemma lstrip_starts_nonspace s : starts_nonspace (lstrip s) = true.
Proof.
  induction s as [|c r IH]; simpl; auto.
  destruct (is_space c) eqn:Ec; auto. simpl. rewrite Ec. reflexivity.
Qed.

Lemma starts_nonspace_lstrip s : starts_nonspace s = true -> lstrip s = s.
Proof.
  destruct s as [|c r]; simpl; auto.
  intros H. apply negb_true_iff in H. rewrite H. reflexivity.
Qed.

Lemma starts_nonspace_rstrip s :
  starts_nonspace s = true -> starts_nonspace (rstrip s) = true.
Proof.
  destruct s as [|c r]; simpl; auto.
  intros H. apply negb_true_iff in H. rewrite H. simpl. rewrite H. reflexivity.
Qed.

Lemma rstrip_rstrip s : rstrip (rstrip s) = rstrip s.
Proof.
  induction s as [|c r IH]; simpl; auto.
  destruct (is_space c && negb (truthy (rstrip r))) eqn:E; simpl; auto.
  rewrite IH, E. reflexivity.
Qed.

Lemma strip_strip s : strip (strip s) = strip s.
Proof.
  unfold strip.
  rewrite (starts_nonspace_lstrip (rstrip (lstrip s))).
  - apply rstrip_rstrip.
  - apply starts_nonspace_rstrip, lstrip_starts_nonspace.
Qed.

(** C10. Cleaning a comment body twice gives the same text as cleaning
    it once: on the output of [clean_html] the tag substitution finds
    no tag, the whitespace substitution finds only single spaces, and
    [strip] finds nothing to trim. *)
Theorem clean_html_idempotent (s : string) :
  clean_html (clean_html s) = clean_html s.
Proof.
  unfold clean_html at 1.
  assert (Hfree : tag_free (clean_html s) = true).
  { unfold clean_html, strip.
    apply tag_free_rstrip, tag_free_lstrip, tag_free_sub_spaces,
      sub_tags_tag_free. }
  assert (Hsp : single_spaced false (clean_html s) = true).
  { unfold clean_html, strip.
    apply single_spaced_rstrip, (single_spaced_lstrip _ false),
      sub_spaces_single_spaced. }
  rewrite (tag_free_fixed _ Hfree), (single_spaced_fixed _ _ Hsp).
  unfold clean_html. apply strip_strip.
Qed.

End CleanHtmlFacts.

(** ** Slices, ranges and the sort *)

Module PyListFacts.
Import PyList.

Lemma len_nonneg {A} (l : list A) : 0 <= len l.
Proof. unfold len. lia. Qed.

Lemma len_app {A} (l1 l2 : list A) : len (l1 ++ l2) = len l1 + len l2.
Proof. unfold len. rewrite length_app. lia. Qed.

Lemma slice_to_firstn {A} (l : list A) (k : Z) :
  0 <= k <= len l -> slice_to l k = firstn (Z.to_nat k) l.
Proof.
  intros H. unfold slice_to, clamp.
  destruct (k <? 0) eqn:E; [lia|]. f_equal. lia.
Qed.

Lemma slice_from_skipn {A} (l : list A) (k : Z) :
  0 <= k <= len l -> slice_from l k = skipn (Z.to_nat k) l.
Proof.
  intros H. unfold slice_from, clamp.
  destruct (k <? 0) eqn:E; [lia|]. f_equal. lia.
Qed.

Lemma slice_to_all {A} (l : list A) (k : Z) :
  len l <= k -> slice_to l k = l.
Proof.
  intros H. pose proof (len_nonneg l). unfold slice_to, clamp.
  destruct (k <? 0) eqn:E; [lia|].
  apply firstn_all2. unfold len in *. lia.
Qed.

Lemma slice_chunk {A} (l : list A) (i b : Z) :
  0 <= i <= len l -> 0 <= b ->
  slice l i (i + b)
  = firstn (Z.to_nat (Z.min (i + b) (len l) - i)) (skipn (Z.to_nat i) l).
Proof.
  intros Hi Hb. unfold slice, clamp.
  destruct (i <? 0) eqn:E1; [lia|].
  destruct (i + b <? 0) eqn:E2; [lia|].
  replace (Z.min i (len l)) with i by lia. reflexivity.
Qed.

(** *** [range] with a positive step *)

Lemma range_from_nth (stop step : Z) : 0 < step ->
  forall fuel i k,
    nth_error (range_from fuel i stop step) k
    = if (k <? fuel)%nat && (i + Z.of_nat k * step <? stop)
      then Some (i + Z.of_nat k * step) else None.
Proof.
  intros Hs. induction fuel as [|f IH]; intros i k.
  - simpl. destruct k; reflexivity.
  - simpl. destruct (0 <? step) eqn:E; [|lia].
    destruct (i <? stop) eqn:Ei.
    + destruct k as [|k].
      * change (Z.of_nat 0) with 0.
        replace (i + 0 * step) with i by lia. rewrite Ei. reflexivity.
      * simpl nth_error. rewrite IH.
        replace (i + step + Z.of_nat k * step)
          with (i + Z.of_nat (S k) * step) by lia.
        reflexivity.
    + assert (E2 : (i + Z.of_nat k * step <? stop) = false)
        by (apply Z.ltb_ge; nia).
      rewrite E2, andb_false_r. destruct k; reflexivity.
Qed.

Lemma range_from_length (stop step : Z) (fuel : nat) :
  0 < step -> 0 <= stop -> (Z.to_nat stop <= fuel)%nat ->
  List.length (range_from fuel 0 stop step) = Z.to_nat (ceil_div stop step).
Proof.
  intros Hs Hn Hf. unfold ceil_div.
  set (c := (stop + step - 1) / step).
  assert (Hc1 : stop <= c * step).
  { unfold c. pose proof (Z.mul_div_le (stop + step - 1) step Hs).
    pose proof (Z.mod_pos_bound (stop + step - 1) step Hs).
    pose proof (Z.div_mod (stop + step - 1) step). nia. }
  assert (Hc2 : 0 < stop -> (c - 1) * step < stop).
  { intros _. unfold c.
    pose proof (Z.mul_div_le (stop + step - 1) step Hs). nia. }
  assert (Hc0 : 0 <= c) by (unfold c; apply Z.div_pos; lia).
  assert (Hcn : c <= stop).
  { destruct (Z.eq_dec stop 0) as [->|Hne].
    - unfold c. rewrite Z.div_small; lia.
    - specialize (Hc2 ltac:(lia)). nia. }
  pose proof (range_from_nth stop step Hs fuel 0) as Hnth.
  destruct (Nat.lt_trichotomy (List.length (range_from fuel 0 stop step))
              (Z.to_nat c)) as [Hlt|[Heq|Hgt]]; auto; exfalso.
  - assert (Hnone : nth_error (range_from fuel 0 stop step)
                      (Z.to_nat c - 1) = None)
      by (apply nth_error_None; lia).
    rewrite Hnth in Hnone.
    destruct (Nat.ltb_spec (Z.to_nat c - 1) fuel); [|lia].
    destruct (Z.ltb_spec (0 + Z.of_nat (Z.to_nat c - 1) * step) stop);
      [discriminate|].
    assert (0 < stop) by lia. specialize (Hc2 ltac:(lia)).
    replace (Z.of_nat (Z.to_nat c - 1)) with (c - 1) in * by lia. lia.
  - assert (Hsome : nth_error (range_from fuel 0 stop step) (Z.to_nat c)
                    <> None) by (apply nth_error_Some; lia).
    rewrite Hnth in Hsome.
    destruct (Z.ltb_spec (0 + Z.of_nat (Z.to_nat c) * step) stop).
    + rewrite Z2Nat.id in * by lia. lia.
    + rewrite andb_false_r in Hsome. congruence.
Qed.

Lemma range_positive (stop step : Z) : 0 < step -> 0 <= stop ->
  range 0 stop step = inr (range_from (Z.to_nat stop) 0 stop step).
Proof.
  intros Hs Hn. unfold range.
  destruct (Z.eqb_spec step 0); [lia|].
  do 2 f_equal. lia.
Qed.

(** *** [pick] and [stride] *)

Lemma pick_nth {A} (l : list A) (idxs : list Z) :
  Forall (fun i => 0 <= i < len l) idxs ->
  forall k, nth_error (pick l idxs) k
            = match nth_error idxs k with
              | Some i => nth_error l (Z.to_nat i)
              | None => None
              end.
Proof.
  induction 1 as [|i idxs Hi _ IH]; intros k.
  - destruct k; reflexivity.
  - unfold pick in *. simpl.
    destruct (nth_error l (Z.to_nat i)) as [x|] eqn:E.
    + destruct k; simpl; auto.
    + apply nth_error_None in E. unfold len in Hi. lia.
Qed.

Lemma range_from_bounds (stop step : Z) : 0 < step ->
  forall fuel i, 0 <= i ->
    Forall (fun j => 0 <= j < stop) (range_from fuel i stop step).
Proof.
  intros Hs. induction fuel as [|f IH]; intros i Hi; simpl; auto.
  destruct (0 <? step) eqn:E; [|lia].
  destruct (Z.ltb_spec i stop); auto.
  constructor; [lia|]. apply IH. lia.
Qed.

Lemma stride_nth {A} (l : list A) (step : Z) : 0 < step ->
  exists strided,
    stride l step = inr strided
    /\ forall k, nth_error strided k
                 = if Z.of_nat k * step <? len l
                   then nth_error l (Z.to_nat (Z.of_nat k * step))
                   else None.
Proof.
  intros Hs. unfold stride.
  destruct (Z.eqb_spec step 0); [lia|].
  destruct (0 <? step) eqn:E; [|lia].
  rewrite range_positive by (auto using len_nonneg). simpl.
  eexists; split; [reflexivity|]. intros k.
  rewrite pick_nth by (apply range_from_bounds; lia).
  rewrite range_from_nth by assumption. simpl.
  destruct (Z.ltb_spec (Z.of_nat k * step) (len l)).
  - destruct (Nat.ltb_spec k (Z.to_nat (len l))); [reflexivity|].
    exfalso. nia.
  - rewrite andb_false_r. reflexivity.
Qed.

(** *** The sort is a stable descending sort *)

Section Sorting.
Context {A : Type} (key : A -> Z).

Lemma insert_desc_perm x l : Permutation (x :: l) (insert_desc key x l).
Proof.
  induction l as [|y t IH]; simpl; auto.
  destruct (key y <=? key x); auto.
  rewrite perm_swap. apply perm_skip, IH.
Qed.

Lemma sorted_desc_perm l : Permutation l (sorted_desc key l).
Proof.
  induction l as [|x t IH]; simpl; auto.
  rewrite <- insert_desc_perm. apply perm_skip, IH.
Qed.

Lemma sorted_desc_length l : List.length (sorted_desc key l) = List.length l.
Proof. symmetry. apply Permutation_length, sorted_desc_perm. Qed.

Lemma insert_desc_sorted x l :
  StronglySorted (fun a b => key b <= key a) l ->
  StronglySorted (fun a b => key b <= key a) (insert_desc key x l).
Proof.
  induction 1 as [|y t Ht IH Hy]; simpl.
  - repeat constructor.
  - destruct (Z.leb_spec (key y) (key x)).
    + constructor; [constructor; assumption|].
      constructor; [assumption|].
      eapply Forall_impl; [|exact Hy]. simpl. intros; lia.
    + constructor; [assumption|].
      eapply Permutation_Forall; [apply insert_desc_perm|].
      constructor; [lia|assumption].
Qed.

Lemma sorted_desc_sorted l :
  StronglySorted (fun a b => key b <= key a) (sorted_desc key l).
Proof.
  induction l; simpl; [constructor|]. apply insert_desc_sorted; assumption.
Qed.

Lemma insert_desc_filter k x l :
  StronglySorted (fun a b => key b <= key a) l ->
  filter (fun y => key y =? k) (insert_desc key x l)
  = filter (fun y => key y =? k) (x :: l).
Proof.
  induction 1 as [|y t Ht IH Hy]; auto.
  simpl insert_desc. destruct (Z.leb_spec (key y) (key x)); auto.
  simpl filter at 1. rewrite IH. simpl.
  destruct (Z.eqb_spec (key y) k), (Z.eqb_spec (key x) k); auto. lia.
Qed.

Lemma sorted_desc_stable k l :
  filter (fun y => key y =? k) (sorted_desc key l)
  = filter (fun y => key y =? k) l.
Proof.
  induction l as [|x t IH]; auto. simpl sorted_desc.
  rewrite insert_desc_filter by apply sorted_desc_sorted.
  simpl. rewrite IH. reflexivity.
Qed.

Theorem sorted_desc_spec l : stable_desc_sort key l (sorted_desc key l).
Proof.
  split; [apply sorted_desc_perm|].
  split; [apply sorted_desc_sorted|]. intros k. apply sorted_desc_stable.
Qed.
End Sorting.

End PyListFacts.

(** ** Selection *)

Module SelectFacts.
Import PyList PyListFacts Comments Samples.

Lemma len_sorted (comments : list comment) :
  len (sorted_desc recommends comments) = len comments.
Proof. unfold len. rewrite sorted_desc_length. reflexivity. Qed.

Lemma select_within_budget (comments : list comment) (m : Z) :
  len comments <= m ->
  select comments m = inr (sorted_desc recommends comments).
Proof.
  intros H. unfold select. rewrite len_sorted.
  destruct (Z.gtb_spec (len comments) m); [lia|reflexivity].
Qed.

Lemma select_empty (m : Z) : 0 <= m -> select [] m = inr [].
Proof. intros H. apply (select_within_budget [] m). exact H. Qed.

Example select_seven_4 :
  select seven_comments 4
  = inr [sample 9 "g"; sample 5 "b"; sample 5 "d"; sample 2 "f"].
Proof. reflexivity. Qed.

(** C3, as the code has it. With a budget [m >= 2] smaller than the
    number of comments, the selection has [2 * (m / 2)] comments (so
    [m] of them when [m] is even); its first [m / 2] are the first
    [m / 2] of the stable descending sort by recommendations, and the
    [i]-th of the others is the comment of rank [m / 2 + i * step],
    with [step] the remainder's length divided by [m / 2]. *)
Theorem select_over_budget (comments : list comment) (m : Z) :
  2 <= m -> m < len comments ->
  let sorted_comments := sorted_desc recommends comments in
  let h := m / 2 in
  let step := (len comments - h) / h in
  exists selected,
    select comments m = inr selected
    /\ stable_desc_sort recommends comments sorted_comments
    /\ len selected = 2 * h
    /\ (m mod 2 = 0 -> len selected = m)
    /\ 1 <= step
    /\ firstn (Z.to_nat h) selected = firstn (Z.to_nat h) sorted_comments
    /\ forall i, 0 <= i < h ->
         nth_error selected (Z.to_nat (h + i))
         = nth_error sorted_comments (Z.to_nat (h + i * step)).
Proof.
  intros Hm Hlen sorted_comments h step.
  assert (Hh : 1 <= h) by (unfold h; apply Z.div_le_lower_bound; lia).
  assert (Hh2 : 2 * h <= m).
  { unfold h. pose proof (Z.mul_div_le m 2). lia. }
  assert (Hn : len sorted_comments = len comments) by apply len_sorted.
  assert (Hstep : 1 <= step).
  { unfold step. apply Z.div_le_lower_bound; lia. }
  assert (Hsh : step * h <= len comments - h).
  { unfold step. pose proof (Z.mul_div_le (len comments - h) h). lia. }
  unfold select. fold sorted_comments. fold h. rewrite Hn.
  destruct (Z.gtb_spec (len comments) m) as [_|]; [|lia].
  rewrite slice_to_firstn, slice_from_skipn by lia.
  set (remaining := skipn (Z.to_nat h) sorted_comments).
  assert (Hrem : len remaining = len comments - h).
  { unfold remaining, len in *. rewrite length_skipn. lia. }
  rewrite Hrem.
  destruct (Z.gtb_spec (len comments - h) h) as [_|]; [|lia].
  unfold floordiv. destruct (Z.eqb_spec h 0); [lia|]. simpl.
  fold step.
  destruct (stride_nth remaining step) as (strided & -> & Hnth); [lia|].
  simpl.
  assert (Hlast : (Z.to_nat h <= List.length strided)%nat).
  { destruct (Nat.le_gt_cases (Z.to_nat h) (List.length strided)); auto.
    assert (Hnone : nth_error strided (Z.to_nat h - 1) = None)
      by (apply nth_error_None; lia).
    rewrite Hnth in Hnone.
    replace (Z.of_nat (Z.to_nat h - 1)) with (h - 1) in Hnone by lia.
    destruct (Z.ltb_spec ((h - 1) * step) (len remaining)); [|nia].
    apply nth_error_None in Hnone. unfold len in *. lia. }
  rewrite (slice_to_firstn strided) by (unfold len; lia).
  set (top := firstn (Z.to_nat h) sorted_comments).
  set (sampled := firstn (Z.to_nat h) strided).
  assert (Htop : List.length top = Z.to_nat h).
  { unfold top. rewrite length_firstn. unfold len in *. lia. }
  assert (Hsam : List.length sampled = Z.to_nat h).
  { unfold sampled. rewrite length_firstn. lia. }
  exists (top ++ sampled)%list.
  split; [reflexivity|].
  split; [apply sorted_desc_spec|].
  assert (Hl : len (top ++ sampled) = 2 * h).
  { rewrite len_app. unfold len. lia. }
  split; [exact Hl|].
  split.
  { intros Heven. rewrite Hl. unfold h.
    pose proof (Z.div_mod m 2). lia. }
  split; [exact Hstep|].
  split.
  { rewrite firstn_app, Htop, Nat.sub_diag. simpl.
    rewrite app_nil_r. unfold top. rewrite firstn_firstn.
    f_equal. lia. }
  intros i Hi.
  rewrite nth_error_app2 by lia.
  replace (Z.to_nat (h + i) - List.length top)%nat with (Z.to_nat i) by lia.
  unfold sampled. rewrite nth_error_firstn.
  destruct (Nat.ltb_spec (Z.to_nat i) (Z.to_nat h)); [|lia].
  rewrite Hnth. rewrite Z2Nat.id by lia.
  destruct (Z.ltb_spec (i * step) (len remaining)); [|nia].
  unfold remaining. rewrite nth_error_skipn. f_equal. nia.
Qed.

Lemma select_over_budget_witness :
  exists selected,
    select seven_comments 4 = inr selected /\ len selected = 4.
Proof.
  destruct (select_over_budget seven_comments 4
              ltac:(lia) ltac:(reflexivity))
    as (selected & Hsel & _ & Hlen & _).
  exists selected. split; [exact Hsel | exact Hlen].
Defined.

(** C3, as the specification states it, fails for an odd budget: four comments
    and a budget of three give two comments, the top one and one
    sample. *)
Lemma select_odd_budget_counterexample :
  len four_comments > 3
  /\ select four_comments 3 = inr [sample 7 "b"; sample 5 "d"]
  /\ len [sample 7 "b"; sample 5 "d"] <> 3.
Proof. repeat split; discriminate. Qed.

(** C9, at the failing input. A budget of zero (or of one) and at least
    one comment: the half budget is zero, the remainder is longer than
    it, and the stride is a division by zero. *)
Theorem select_zero_budget_raises (c : comment) (cs : list comment) :
  select (c :: cs) 0
  = inl (ZeroDivisionError "integer division or modulo by zero").
Proof.
  unfold select.
  pose proof (len_sorted (c :: cs)) as Hn.
  assert (Hpos : 0 < len (c :: cs)) by (unfold len; simpl; lia).
  rewrite Hn.
  destruct (Z.gtb_spec (len (c :: cs)) 0); [|lia].
  change (0 / 2) with 0.
  rewrite slice_from_skipn by lia.
  change (Z.to_nat 0) with O. rewrite skipn_O, Hn.
  destruct (Z.gtb_spec (len (c :: cs)) 0); [|lia].
  reflexivity.
Qed.

Lemma select_budget_one_raises (c c' : comment) (cs : list comment) :
  select (c :: c' :: cs) 1
  = inl (ZeroDivisionError "integer division or modulo by zero").
Proof.
  unfold select.
  pose proof (len_sorted (c :: c' :: cs)) as Hn.
  assert (Hpos : 1 < len (c :: c' :: cs)) by (unfold len; simpl; lia).
  rewrite Hn.
  destruct (Z.gtb_spec (len (c :: c' :: cs)) 1); [|lia].
  change (1 / 2) with 0.
  rewrite slice_from_skipn by lia.
  change (Z.to_nat 0) with O. rewrite skipn_O, Hn.
  destruct (Z.gtb_spec (len (c :: c' :: cs)) 0); [|lia].
  reflexivity.
Qed.

End SelectFacts.

(** ** Batching *)

Module BatchFacts.
Import PyList PyListFacts Comments Samples SelectFacts.

Section Chunks.
Context {A : Type} (l : list A) (b : Z) (Hb : 1 <= b).

Local Abbreviation chunk := (fun i : Z => slice l i (i + b)).

Lemma chunk_length (i : Z) : 0 <= i <= len l ->
  len (chunk i) = Z.min (i + b) (len l) - i.
Proof.
  intros Hi. cbv beta. rewrite slice_chunk by lia.
  unfold len in *. rewrite length_firstn, length_skipn. lia.
Qed.

Lemma concat_chunks : forall fuel i,
  0 <= i <= len l -> (Z.to_nat (len l - i) <= fuel)%nat ->
  List.concat (map chunk (range_from fuel i (len l) b))
  = skipn (Z.to_nat i) l.
Proof.
  induction fuel as [|f IH]; intros i Hi Hf.
  - simpl. symmetry. apply skipn_all2. unfold len in *. lia.
  - simpl. destruct (0 <? b) eqn:E; [|lia].
    destruct (Z.ltb_spec i (len l)).
    + simpl. rewrite slice_chunk by lia.
      destruct (Z.le_gt_cases (len l) (i + b)).
      * replace (range_from f (i + b) (len l) b) with (@nil Z).
        { simpl. rewrite app_nil_r. apply firstn_all2.
          rewrite length_skipn. unfold len in *. lia. }
        destruct f; simpl; auto. rewrite E.
        destruct (Z.ltb_spec (i + b) (len l)); [lia|reflexivity].
      * rewrite IH by lia.
        replace (Z.to_nat (Z.min (i + b) (len l) - i)) with (Z.to_nat b)
          by lia.
        replace (Z.to_nat (i + b)) with (Z.to_nat b + Z.to_nat i)%nat
          by lia.
        rewrite <- skipn_skipn. apply firstn_skipn.
    + simpl. symmetry. apply skipn_all2. unfold len in *. lia.
Qed.

Lemma chunks_nth (fuel i : nat) (c : list A) :
  nth_error (map chunk (range_from fuel 0 (len l) b)) i = Some c ->
  Z.of_nat i * b < len l /\ c = chunk (Z.of_nat i * b).
Proof.
  rewrite nth_error_map, range_from_nth by lia.
  destruct (i <? fuel)%nat; simpl; [|discriminate].
  destruct (Z.ltb_spec (Z.of_nat i * b) (len l)); simpl; [|discriminate].
  intros [= <-]. auto.
Qed.
End Chunks.

Lemma ceil_div_bounds (n b : Z) : 1 <= b -> 0 <= n ->
  n <= ceil_div n b * b /\ (0 < n -> (ceil_div n b - 1) * b < n)
  /\ 0 <= ceil_div n b.
Proof.
  intros Hb Hn. unfold ceil_div.
  pose proof (Z.mul_div_le (n + b - 1) b ltac:(lia)).
  pose proof (Z.mod_pos_bound (n + b - 1) b ltac:(lia)).
  pose proof (Z.div_mod (n + b - 1) b ltac:(lia)).
  assert (0 <= (n + b - 1) / b) by (apply Z.div_pos; lia).
  repeat split; try nia.
Qed.

Example split_seven_3 :
  split_batches seven_comments 3
  = inr [[sample 9 "g"; sample 5 "b"; sample 5 "d"];
         [sample 3 "c"; sample 2 "f"; sample 1 "a"];
         [sample 0 "e"]].
Proof. reflexivity. Qed.

(** C4. For [N] comments and a batch size [B >= 1] there are
    [ceil(N / B)] batches; each one before the last has [B] comments
    and the last has [N - B * (ceil(N / B) - 1)]; the batches, put end to
    end, are the comments in the stable descending order of their
    recommendations; no comment gives no batch. *)
Theorem split_batches_spec (comments : list comment) (B : Z) :
  1 <= B ->
  let N := len comments in
  let sorted_comments := sorted_desc recommends comments in
  exists batches,
    split_batches comments B = inr batches
    /\ len batches = ceil_div N B
    /\ (forall i batch, nth_error batches i = Some batch ->
          Z.of_nat i < ceil_div N B - 1 -> len batch = B)
    /\ (forall batch,
          nth_error batches (Z.to_nat (ceil_div N B - 1)) = Some batch ->
          len batch = N - B * (ceil_div N B - 1))
    /\ List.concat batches = sorted_comments
    /\ stable_desc_sort recommends comments sorted_comments
    /\ (N = 0 -> batches = []).
Proof.
  intros HB N sorted_comments.
  assert (Hn : len sorted_comments = N) by apply len_sorted.
  assert (HN : 0 <= N) by apply len_nonneg.
  destruct (ceil_div_bounds N B HB HN) as (Hc1 & Hc2 & Hc0).
  unfold split_batches. fold sorted_comments. rewrite Hn.
  rewrite range_positive by lia. simpl.
  eexists. split; [reflexivity|].
  assert (Hlen : len (map (fun i => slice sorted_comments i (i + B))
                        (range_from (Z.to_nat N) 0 N B)) = ceil_div N B).
  { unfold len. rewrite length_map, range_from_length by lia. lia. }
  split; [exact Hlen|].
  split.
  { intros i batch Hi Hlt. rewrite <- Hn in Hi.
    apply (chunks_nth sorted_comments B HB) in Hi as [Hi ->].
    rewrite Hn in *.
    rewrite chunk_length by (rewrite ?Hn; nia). rewrite Hn. nia. }
  split.
  { intros batch Hi. rewrite <- Hn in Hi.
    apply (chunks_nth sorted_comments B HB) in Hi as [Hi ->].
    rewrite Hn in *.
    destruct (Z.eq_dec N 0) as [H0|H0]; [nia|].
    specialize (Hc2 ltac:(lia)).
    assert (1 <= ceil_div N B) by nia.
    rewrite Z2Nat.id in * by lia.
    rewrite chunk_length by (rewrite ?Hn; nia). rewrite Hn. nia. }
  split.
  { rewrite <- Hn at 2.
    rewrite (concat_chunks sorted_comments B HB) by lia. reflexivity. }
  split; [apply sorted_desc_spec|].
  intros H0. rewrite H0. reflexivity.
Qed.

Lemma split_batches_spec_witness :
  exists batches,
    split_batches seven_comments 3 = inr batches /\ len batches = 3.
Proof.
  destruct (split_batches_spec seven_comments 3 ltac:(lia))
    as (batches & Hb & Hlen & _).
  exists batches. split; [exact Hb | exact Hlen].
Defined.

End BatchFacts.

(** ** Insertion-ordered dictionaries *)

Module ODictFacts.
Import ODict MergeSpec.

Section Dict.
Context {K V : Type} (eqb : K -> K -> bool).
Hypothesis eqb_spec : forall a b, reflect (a = b) (eqb a b).

Local Abbreviation dict := (ODict.t (K := K) (V := V)).
Local Abbreviation lookup := (lookup (V := V) eqb).
Local Abbreviation store := (store (V := V) eqb).

Lemma eqb_refl k : eqb k k = true.
Proof. destruct (eqb_spec k k); congruence. Qed.

Lemma lookup_None k (d : dict) : lookup k d = None <-> ~ In k (keys d).
Proof.
  induction d as [|[k' v] d IH]; simpl.
  - tauto.
  - destruct (eqb_spec k k') as [->|Hne].
    + split; [discriminate|]. intros H. exfalso. auto.
    + rewrite IH. split; [intros H [E|E]; [congruence|auto] | tauto].
Qed.

Lemma lookup_Some_In k v (d : dict) : lookup k d = Some v -> In (k, v) d.
Proof.
  induction d as [|[k' v'] d IH]; simpl; [discriminate|].
  destruct (eqb_spec k k') as [->|Hne]; [intros [= ->]; auto | auto].
Qed.

Lemma In_lookup k v (d : dict) :
  NoDup (keys d) -> In (k, v) d -> lookup k d = Some v.
Proof.
  induction d as [|[k' v'] d IH]; simpl; [tauto|].
  intros Hnd [E|Hin]; inversion Hnd as [|? ? Hk Hd]; subst.
  - inversion E; subst. rewrite eqb_refl. reflexivity.
  - destruct (eqb_spec k k') as [->|Hne]; auto.
    exfalso. apply Hk. apply (in_map fst) in Hin. exact Hin.
Qed.

Lemma store_absent k v (d : dict) :
  lookup k d = None -> store k v d = (d ++ [(k, v)])%list.
Proof.
  induction d as [|[k' v'] d IH]; simpl; auto.
  destruct (eqb k k'); [discriminate|]. intros H. rewrite IH; auto.
Qed.

Lemma keys_store_present k v (d : dict) :
  lookup k d <> None -> keys (store k v d) = keys d.
Proof.
  induction d as [|[k' v'] d IH]; simpl; [congruence|].
  destruct (eqb k k'); simpl; auto. intros H. rewrite IH; auto.
Qed.

Lemma keys_store_absent k v (d : dict) :
  lookup k d = None -> keys (store k v d) = (keys d ++ [k])%list.
Proof.
  intros H. rewrite store_absent by assumption.
  unfold keys. rewrite map_app. reflexivity.
Qed.

Lemma lookup_store_same k v (d : dict) : lookup k (store k v d) = Some v.
Proof.
  induction d as [|[k' v'] d IH]; simpl.
  - rewrite eqb_refl. reflexivity.
  - destruct (eqb_spec k k') as [->|Hne]; simpl.
    + rewrite eqb_refl. reflexivity.
    + destruct (eqb_spec k k'); [contradiction|]. exact IH.
Qed.

Lemma lookup_store_other k k' v (d : dict) :
  k <> k' -> lookup k' (store k v d) = lookup k' d.
Proof.
  intros Hne. induction d as [|[k0 v0] d IH]; simpl.
  - destruct (eqb_spec k' k); congruence.
  - destruct (eqb_spec k k0) as [->|Hk]; simpl.
    + destruct (eqb_spec k' k0); congruence.
    + destruct (eqb_spec k' k0); auto.
Qed.

Lemma store_same_value k v (d : dict) : lookup k d = Some v -> store k v d = d.
Proof.
  induction d as [|[k' v'] d IH]; simpl; [discriminate|].
  destruct (eqb_spec k k') as [->|Hne].
  - intros [= ->]. reflexivity.
  - intros H. rewrite IH; auto.
Qed.

Lemma NoDup_keys_store k v (d : dict) :
  NoDup (keys d) -> NoDup (keys (store k v d)).
Proof.
  intros Hnd. destruct (lookup k d) eqn:E.
  - rewrite keys_store_present by congruence. exact Hnd.
  - rewrite keys_store_absent by assumption.
    apply NoDup_rev in Hnd. rewrite <- (rev_involutive (_ ++ _)).
    apply NoDup_rev. rewrite rev_app_distr. simpl.
    constructor; [|exact Hnd].
    rewrite <- in_rev. apply lookup_None. exact E.
Qed.

Lemma NoDup_keys_items (d : dict) : NoDup (keys d) -> NoDup d.
Proof. apply NoDup_map_inv. Qed.

(** *** Dictionaries with the same items *)

Lemma same_items_perm (d1 d2 : dict) : same_items eqb d1 d2 -> Permutation d1 d2.
Proof.
  intros (H1 & H2 & Hl).
  apply NoDup_Permutation; auto using NoDup_keys_items.
  intros [k v]. split; intros Hin.
  - apply lookup_Some_In. rewrite <- Hl. apply In_lookup; auto.
  - apply lookup_Some_In. rewrite Hl. apply In_lookup; auto.
Qed.

Lemma perm_same_items (d1 d2 : dict) :
  NoDup (keys d1) -> Permutation d1 d2 -> same_items eqb d1 d2.
Proof.
  intros H1 Hp.
  assert (H2 : NoDup (keys d2)).
  { eapply Permutation_NoDup; [|exact H1].
    apply Permutation_map. exact Hp. }
  split; [exact H1|]. split; [exact H2|]. intros k.
  destruct (lookup k d1) as [v|] eqn:E1.
  - symmetry. apply In_lookup; auto.
    eapply Permutation_in; [exact Hp|]. apply lookup_Some_In. exact E1.
  - symmetry. apply lookup_None. intros Hin.
    apply lookup_None in E1. apply E1.
    eapply Permutation_in; [|exact Hin].
    apply Permutation_map. symmetry. exact Hp.
Qed.

Lemma same_items_refl (d : dict) : NoDup (keys d) -> same_items eqb d d.
Proof. intros H. repeat split; auto. Qed.

(** *** The shared loop *)

Section Upsert.
Context {I : Type} (key : I -> option K) (seed : I -> V)
  (update : V -> I -> V).

Local Abbreviation upsert := (upsert eqb key seed update).
Local Abbreviation occurrences := (occurrences eqb key).
Local Abbreviation first_keys := (first_keys eqb key).

Lemma NoDup_keys_upsert (d : dict) i :
  NoDup (keys d) -> NoDup (keys (upsert d i)).
Proof.
  intros H. unfold ODict.upsert.
  destruct (key i); [|exact H].
  destruct (lookup k d); apply NoDup_keys_store; exact H.
Qed.

Lemma NoDup_keys_fold items : forall d : dict,
  NoDup (keys d) -> NoDup (keys (fold_left upsert items d)).
Proof.
  induction items as [|i items IH]; intros d H; simpl; auto.
  apply IH, NoDup_keys_upsert, H.
Qed.

Lemma upsert_same_items (d1 d2 : dict) i :
  same_items eqb d1 d2 -> same_items eqb (upsert d1 i) (upsert d2 i).
Proof.
  intros (H1 & H2 & Hl).
  split; [apply NoDup_keys_upsert, H1|].
  split; [apply NoDup_keys_upsert, H2|].
  intros k'. unfold ODict.upsert.
  destruct (key i) as [k|]; [|apply Hl].
  rewrite <- (Hl k).
  destruct (eqb_spec k k') as [<-|Hne].
  - destruct (lookup k d1); rewrite !lookup_store_same; reflexivity.
  - destruct (lookup k d1); rewrite !lookup_store_other by assumption;
      apply Hl.
Qed.

Lemma fold_same_items items : forall d1 d2 : dict,
  same_items eqb d1 d2 ->
  same_items eqb (fold_left upsert items d1) (fold_left upsert items d2).
Proof.
  induction items as [|i items IH]; intros d1 d2 H; simpl; auto.
  apply IH, upsert_same_items, H.
Qed.

(** *** Keys in first-seen order *)

Lemma In_first_keys k items :
  In k (first_keys items) <-> exists i, In i items /\ key i = Some k.
Proof.
  induction items as [|i items IH]; simpl.
  - split; [tauto | intros (i & [] & _)].
  - destruct (key i) as [k0|] eqn:Ei.
    + simpl. rewrite filter_In, IH. split.
      * intros [->|[(j & Hj & Hk) _]]; eauto.
      * intros (j & [->|Hj] & Hk).
        -- left. congruence.
        -- destruct (eqb_spec k0 k) as [->|Hne]; auto.
           right. split; eauto.
    + rewrite IH. split.
      * intros (j & Hj & Hk). eauto.
      * intros (j & [->|Hj] & Hk); [congruence|eauto].
Qed.

Lemma first_keys_snoc items i :
  first_keys (items ++ [i])
  = (first_keys items
     ++ match key i with
        | Some k => if existsb (eqb k) (first_keys items) then [] else [k]
        | None => []
        end)%list.
Proof.
  induction items as [|j items IH]; simpl.
  - destruct (key i); reflexivity.
  - destruct (key j) as [k0|] eqn:Ej; [|exact IH].
    rewrite IH. simpl. rewrite filter_app. f_equal. f_equal.
    destruct (key i) as [k|]; [|reflexivity].
    simpl. destruct (eqb_spec k k0) as [->|Hne]; simpl.
    + destruct (existsb _ _); simpl; auto. rewrite eqb_refl. reflexivity.
    + assert (Hex : existsb (eqb k)
                      (filter (fun k' => negb (eqb k0 k')) (first_keys items))
                    = existsb (eqb k) (first_keys items)).
      { clear IH. induction (first_keys items) as [|x l IHl]; simpl; auto.
        destruct (eqb_spec k0 x) as [<-|Hx]; simpl.
        - destruct (eqb_spec k k0); [contradiction|]. exact IHl.
        - rewrite IHl. reflexivity. }
      rewrite Hex. destruct (existsb _ _); simpl; auto.
      destruct (eqb_spec k0 k); [congruence|reflexivity].
Qed.

Lemma occurrences_snoc k items i :
  occurrences k (items ++ [i])
  = (occurrences k items
     ++ match key i with
        | Some k' => if eqb k k' then [i] else []
        | None => []
        end)%list.
Proof.
  unfold MergeSpec.occurrences. rewrite filter_app. simpl.
  destruct (key i) as [k'|]; [destruct (eqb k k')|]; reflexivity.
Qed.

Lemma existsb_In k (l : list K) : existsb (eqb k) l = true <-> In k l.
Proof.
  rewrite existsb_exists. split.
  - intros (x & Hx & E). destruct (eqb_spec k x); congruence.
  - intros H. exists k. split; [exact H | apply eqb_refl].
Qed.

(** The dictionary the loop builds from nothing: its keys are the
    distinct keys in first-seen order, and the entry of a key is the
    seed of its first occurrence updated by the later ones. *)
Theorem fold_upsert_spec items :
  let d := fold_left upsert items [] in
  keys d = first_keys items
  /\ forall k, lookup k d
               = match occurrences k items with
                 | first :: later => Some (fold_left update later (seed first))
                 | [] => None
                 end.
Proof.
  induction items as [|i items IH] using rev_ind.
  - simpl. auto.
  - cbv zeta in *. rewrite fold_left_app. simpl.
    destruct IH as [Hk Hl].
    set (d := fold_left upsert items []) in *.
    rewrite first_keys_snoc.
    unfold ODict.upsert at 1 2.
    destruct (key i) as [k|] eqn:Ei.
    + destruct (lookup k d) as [e|] eqn:El.
      * split.
        -- rewrite keys_store_present by congruence.
           assert (Hin : existsb (eqb k) (first_keys items) = true).
           { apply existsb_In. rewrite <- Hk.
             destruct (in_dec (fun a b => reflect_dec _ _ (eqb_spec a b))
                         k (keys d)); auto.
             apply lookup_None in n. congruence. }
           rewrite Hin, app_nil_r. exact Hk.
        -- intros k'. rewrite occurrences_snoc, Ei.
           destruct (eqb_spec k k') as [<-|Hne].
           ++ rewrite lookup_store_same, eqb_refl.
              rewrite Hl in El.
              destruct (occurrences k items) as [|first later];
                [discriminate|].
              injection El as <-. simpl.
              rewrite fold_left_app. reflexivity.
           ++ rewrite lookup_store_other by assumption.
              destruct (eqb_spec k' k); [congruence|].
              rewrite app_nil_r. apply Hl.
      * split.
        -- rewrite keys_store_absent by assumption.
           assert (Hin : existsb (eqb k) (first_keys items) = false).
           { destruct (existsb _ _) eqn:E; auto.
             apply existsb_In in E. rewrite <- Hk in E.
             apply lookup_None in El. contradiction. }
           rewrite Hin, Hk. reflexivity.
        -- intros k'. rewrite occurrences_snoc, Ei.
           destruct (eqb_spec k k') as [<-|Hne].
           ++ rewrite lookup_store_same, eqb_refl.
              rewrite Hl in El.
              destruct (occurrences k items); [reflexivity|discriminate].
           ++ rewrite lookup_store_other by assumption.
              destruct (eqb_spec k' k); [congruence|].
              rewrite app_nil_r. apply Hl.
    + rewrite app_nil_r. split; [exact Hk|].
      intros k'. rewrite occurrences_snoc, Ei, app_nil_r. apply Hl.
Qed.

Lemma keys_values_items (d : dict) :
  Forall2 (fun k v => In (k, v) d) (keys d) (values d).
Proof.
  induction d as [|[k v] d IH]; simpl; constructor.
  - left. reflexivity.
  - eapply Forall2_impl; [|exact IH]. simpl. auto.
Qed.

(** The values of that dictionary, entry by entry. *)
Corollary fold_upsert_entries items :
  entries_by_key eqb key
    (fun first later => fold_left update later (seed first))
    items (values (fold_left upsert items [])).
Proof.
  destruct (fold_upsert_spec items) as [Hk Hl].
  unfold entries_by_key. rewrite <- Hk.
  assert (Hnd : NoDup (keys (fold_left upsert items [])))
    by (apply NoDup_keys_fold; constructor).
  eapply Forall2_impl; [|apply keys_values_items].
  intros k v Hin. apply In_lookup in Hin; [|exact Hnd].
  rewrite Hl in Hin.
  destruct (occurrences k items) as [|first later]; [discriminate|].
  injection Hin as <-. eauto.
Qed.
(** *** Feeding the entries back as items *)

Lemma In_store kv k v (d : dict) :
  In kv (store k v d) -> kv = (k, v) \/ In kv d.
Proof.
  induction d as [|[k' v'] d IH]; simpl.
  - intros [<-|[]]. auto.
  - destruct (eqb_spec k k') as [->|Hne]; simpl.
    + intros [<-|H]; auto.
    + intros [<-|H]; auto. destruct (IH H); auto.
Qed.

Lemma lookup_app k (d1 d2 : dict) :
  lookup k (d1 ++ d2)%list
  = match lookup k d1 with Some v => Some v | None => lookup k d2 end.
Proof.
  induction d1 as [|[k' v'] d1 IH]; simpl; auto.
  destruct (eqb k k'); auto.
Qed.

Lemma fold_fresh items : forall ks (d : dict),
  map key items = map Some ks -> NoDup ks ->
  (forall k, In k ks -> lookup k d = None) ->
  fold_left upsert items d = (d ++ combine ks (map seed items))%list.
Proof.
  induction items as [|i items IH]; intros ks d Hk Hnd Hd.
  - destruct ks; [|discriminate]. simpl. rewrite app_nil_r. reflexivity.
  - destruct ks as [|k ks]; [discriminate|].
    simpl in Hk. injection Hk as Hi Hk.
    inversion Hnd as [|? ? Hnin Hnd']; subst.
    simpl fold_left. unfold ODict.upsert at 2.
    rewrite Hi, (Hd k) by (left; reflexivity).
    rewrite store_absent by (apply Hd; left; reflexivity).
    rewrite (IH ks) by
      (auto; intros k' Hin; rewrite lookup_app, (Hd k') by (right; exact Hin);
       simpl; destruct (eqb_spec k' k); congruence).
    rewrite <- app_assoc. reflexivity.
Qed.

Section Refold.
Context (back : V -> I).
Hypothesis seed_back : forall i k,
  key i = Some k ->
  key (back (seed i)) = Some k /\ seed (back (seed i)) = seed i.
Hypothesis update_back : forall e i k,
  key (back e) = Some k -> seed (back e) = e ->
  key (back (update e i)) = Some k
  /\ seed (back (update e i)) = update e i.

Local Abbreviation reseeds := (reseeds (V := V) key seed back).

Lemma reseeds_upsert (d : dict) i : reseeds d -> reseeds (upsert d i).
Proof.
  intros H. unfold ODict.upsert.
  destruct (key i) as [k|] eqn:Ei; [|exact H].
  unfold ODict.reseeds in *. rewrite Forall_forall in *.
  destruct (lookup k d) as [e|] eqn:El; intros kv Hin;
    apply In_store in Hin as [->|Hin]; auto; simpl.
  - apply lookup_Some_In in El. destruct (H _ El) as [H1 H2].
    simpl in *. eapply update_back; eauto.
  - eapply seed_back; eauto.
Qed.

Lemma reseeds_fold items : forall d : dict,
  reseeds d -> reseeds (fold_left upsert items d).
Proof.
  induction items as [|i items IH]; intros d H; simpl; auto.
  apply IH, reseeds_upsert, H.
Qed.

(** A dictionary is built again, item for item, from its own
    entries fed back in its own order. *)
Lemma refold (d : dict) :
  reseeds d -> NoDup (keys d) ->
  fold_left upsert (map back (values d)) [] = d.
Proof.
  intros Hr Hnd.
  rewrite (fold_fresh _ (keys d)); simpl; auto.
  - unfold keys, values. rewrite !map_map.
    clear Hnd. induction Hr as [|[k v] d [_ Hs] _ IH]; simpl; auto.
    simpl in Hs. rewrite Hs. f_equal. exact IH.
  - unfold keys, values. rewrite !map_map.
    clear Hnd. induction Hr as [|[k v] d [Hk _] _ IH]; simpl; auto.
    simpl in Hk. rewrite Hk. f_equal. exact IH.
Qed.

(** Merging the entries of a first merge, in any order, and then
    more items gives the items that merging everything gives. *)
Theorem refold_same_items (first more : list I) (entries : list V) :
  Permutation entries (values (fold_left upsert first [])) ->
  same_items eqb
    (fold_left upsert (map back entries ++ more)%list [])
    (fold_left upsert (first ++ more)%list []).
Proof.
  intros Hp. rewrite !fold_left_app.
  apply fold_same_items.
  set (d := fold_left upsert first []) in *.
  assert (Hnd : NoDup (keys d)) by (apply NoDup_keys_fold; constructor).
  assert (Hr : reseeds d) by (apply reseeds_fold; constructor).
  unfold values in Hp.
  apply Permutation_map_inv in Hp as (d' & -> & Hp').
  assert (Hnd' : NoDup (keys d')).
  { eapply Permutation_NoDup; [|exact Hnd].
    apply Permutation_map. exact Hp'. }
  assert (Hr' : reseeds d').
  { eapply Permutation_Forall; [exact Hp'|exact Hr]. }
  fold (values d'). rewrite (refold d' Hr' Hnd').
  apply perm_same_items; [exact Hnd'|]. symmetry. exact Hp'.
Qed.
(** The entries of a dictionary, in any order and cut after any
    number of them, fed back as items, give themselves back. *)
Lemma refold_entries (d : dict) (entries : list V) (n : nat) :
  reseeds d -> NoDup (keys d) -> Permutation entries (values d) ->
  values (fold_left upsert (map back (firstn n entries)) [])
  = firstn n entries.
Proof.
  intros Hr Hnd Hp. unfold values in Hp.
  apply Permutation_map_inv in Hp as (d' & -> & Hp').
  assert (Hnd' : NoDup (keys (firstn n d'))).
  { assert (H : NoDup (keys d')).
    { eapply Permutation_NoDup; [|exact Hnd].
      apply Permutation_map. exact Hp'. }
    unfold keys in *. rewrite <- firstn_map.
    rewrite <- (firstn_skipn n (map fst d')) in H.
    apply NoDup_app_remove_r in H. exact H. }
  assert (Hr' : reseeds (firstn n d')).
  { assert (H : reseeds d')
      by (eapply Permutation_Forall; [exact Hp'|exact Hr]).
    unfold ODict.reseeds in *. rewrite <- (firstn_skipn n d') in H.
    apply Forall_app in H. apply H. }
  rewrite !firstn_map. fold (values (firstn n d')).
  rewrite (refold (firstn n d') Hr' Hnd'). reflexivity.
Qed.

End Refold.

Lemma length_upsert (d : dict) i :
  (List.length d <= List.length (upsert d i))%nat.
Proof.
  unfold ODict.upsert. destruct (key i) as [k|]; auto.
  assert (G : forall v, (List.length d <= List.length (store k v d))%nat).
  { intros v. rewrite <- (length_map fst d), <- (length_map fst (store k v d)).
    fold (keys d). fold (keys (store k v d)).
    destruct (lookup k d) eqn:E.
    - rewrite keys_store_present by congruence. auto.
    - rewrite keys_store_absent by assumption. rewrite length_app. lia. }
  destruct (lookup k d); apply G.
Qed.

Lemma length_fold items : forall d : dict,
  (List.length d <= List.length (fold_left upsert items d))%nat.
Proof.
  induction items as [|i items IH]; intros d; simpl; auto.
  etransitivity; [apply length_upsert | apply IH].
Qed.

End Upsert.

(** *** A loop that keeps the first item of every key *)

Section KeepFirst.
Context {I : Type} (key : I -> option K) (seed : I -> V).

Local Abbreviation keep_first := (upsert eqb key seed (fun e _ => e)).

Lemma firstn_keep_first n (d : dict) i :
  (n <= List.length d)%nat -> firstn n (keep_first d i) = firstn n d.
Proof.
  intros Hn. unfold ODict.upsert.
  destruct (key i) as [k|]; [|reflexivity].
  destruct (lookup k d) as [e|] eqn:E.
  - rewrite store_same_value by assumption. reflexivity.
  - rewrite store_absent by assumption.
    rewrite firstn_app. replace (n - List.length d)%nat with O by lia.
    simpl. apply app_nil_r.
Qed.

Lemma firstn_eq_cases {A} n (l l' : list A) :
  firstn n l' = firstn n l ->
  l' = l \/ (n <= List.length l' /\ n <= List.length l)%nat.
Proof.
  intros H. pose proof (f_equal (@List.length A) H) as Hlen.
  rewrite !length_firstn in Hlen.
  destruct (Nat.le_gt_cases n (List.length l')); [right; lia|].
  left. rewrite !firstn_all2 in H by lia. exact H.
Qed.

(** What lies beyond the first [n] items of the dictionary does
    not change the first [n] items of the result. *)
Lemma firstn_fold_keep_first n items : forall d d' : dict,
  firstn n d' = firstn n d ->
  firstn n (fold_left keep_first items d')
  = firstn n (fold_left keep_first items d).
Proof.
  induction items as [|i items IH]; intros d d' H; simpl; auto.
  apply IH. destruct (firstn_eq_cases n d d' H) as [->|[H1 H2]]; auto.
  rewrite !firstn_keep_first by assumption. exact H.
Qed.
End KeepFirst.
End Dict.
End ODictFacts.

(** ** Merging *)

Module MergeFacts.
Import PyStr PyList PyListFacts ODict ODictFacts Merge MergeSpec Samples.
Import Comments (get).

Lemma pair_eqb_spec (a b : string * string) : reflect (a = b) (pair_eqb a b).
Proof.
  destruct a as [a1 a2], b as [b1 b2]. unfold pair_eqb. simpl.
  destruct (String.eqb_spec a1 b1), (String.eqb_spec a2 b2);
    constructor; congruence.
Qed.

Lemma slice_to_nonneg {A} (l : list A) (k : Z) :
  0 <= k -> slice_to l k = firstn (Z.to_nat k) l.
Proof.
  intros Hk. destruct (Z.le_gt_cases k (len l)).
  - apply slice_to_firstn. lia.
  - rewrite slice_to_all by lia. symmetry. apply firstn_all2.
    unfold len in *. lia.
Qed.

(** *** Each loop is an instance of the shared one *)

Lemma merge_brand_upsert d b :
  merge_brand d b = upsert String.eqb brand_key brand_seed brand_update d b.
Proof.
  unfold merge_brand, upsert, brand_key.
  destruct (truthy (lower (get (b_name b) ""))); simpl; [|reflexivity].
  destruct (lookup String.eqb _ d) as [e|]; [|reflexivity].
  unfold brand_update. destruct (polarized (b_sentiment b)); reflexivity.
Qed.

Lemma merge_recommendation_upsert d r :
  merge_recommendation d r
  = upsert String.eqb rec_key rec_seed rec_update d r.
Proof.
  unfold merge_recommendation, upsert, rec_key.
  destruct (truthy (lower (get (r_item r) ""))); simpl; [|reflexivity].
  destruct (lookup String.eqb _ d) as [e|]; reflexivity.
Qed.

Lemma merge_opportunity_upsert d o :
  merge_opportunity d o
  = upsert pair_eqb opp_key (fun o => o) (fun e _ => e) d o.
Proof.
  unfold merge_opportunity, upsert, opp_key, contains. simpl.
  destruct (truthy (lower (get (o_target o) ""))); simpl; [|reflexivity].
  destruct (lookup pair_eqb _ d) as [e|] eqn:E; simpl; [|reflexivity].
  symmetry. apply (store_same_value pair_eqb pair_eqb_spec). exact E.
Qed.

Lemma fold_ext {A B} (f g : A -> B -> A) (l : list B) :
  (forall a b, f a b = g a b) ->
  forall a, fold_left f l a = fold_left g l a.
Proof.
  intros H. induction l as [|b l IH]; intros a; simpl; auto.
  rewrite H. apply IH.
Qed.

(** *** The loop over the results, family by family *)

Lemma merge_result_fold (results : list (option result)) : forall st,
  fold_left merge_result results st
  = {| merged_brands :=
         fold_left merge_brand (incoming brands results) st.(merged_brands);
       merged_recommendations :=
         fold_left merge_recommendation (incoming recommendations results)
           st.(merged_recommendations);
       merged_opportunities :=
         fold_left merge_opportunity (incoming opportunities results)
           st.(merged_opportunities) |}.
Proof.
  induction results as [|r results IH]; intros st.
  - destruct st. reflexivity.
  - simpl fold_left at 1. rewrite IH. unfold incoming. simpl flat_map.
    rewrite !fold_left_app.
    destruct r as [d|]; simpl; [|reflexivity].
    destruct (skipped (Some d)); reflexivity.
Qed.

(** The merge, from the items of the results that are not skipped. *)
Lemma merge_by_incoming (results : list (option result)) :
  merge_commercial_results results
  = {| m_brands :=
         sorted_desc mentions
           (values (fold_left merge_brand (incoming brands results) []));
       m_recommendations :=
         firstn 8
           (sorted_desc endorsements
              (values (fold_left merge_recommendation
                         (incoming recommendations results) [])));
       m_opportunities :=
         firstn 5
           (values (fold_left merge_opportunity
                      (incoming opportunities results) [])) |}.
Proof.
  unfold merge_commercial_results. rewrite merge_result_fold. simpl.
  rewrite !slice_to_nonneg by lia. reflexivity.
Qed.

(** *** Entries in closed form *)

Lemma brand_fold_entry later : forall e,
  fold_left brand_update later e
  = {| name := e.(name); category := e.(category);
       sentiment := last_polarized e.(sentiment) later;
       mentions := e.(mentions)
                   + total (fun b => get (b_mentions b) 1) later |}.
Proof.
  induction later as [|b later IH]; intros e.
  - destruct e. simpl. f_equal. lia.
  - simpl fold_left. rewrite IH. simpl. f_equal. lia.
Qed.

Lemma brand_entry_fold first later :
  fold_left brand_update later (brand_seed first) = brand_entry_of first later.
Proof.
  rewrite brand_fold_entry. reflexivity.
Qed.

Lemma rec_fold_entry later : forall e,
  fold_left rec_update later e
  = {| item := e.(item); rec_category := e.(rec_category);
       quote := e.(quote);
       endorsements := e.(endorsements)
                       + total (fun r => get (r_endorsements r) 1) later |}.
Proof.
  induction later as [|r later IH]; intros e.
  - destruct e. simpl. f_equal. lia.
  - simpl fold_left. rewrite IH. simpl. f_equal. lia.
Qed.

Lemma rec_entry_fold first later :
  fold_left rec_update later (rec_seed first) = rec_entry_of first later.
Proof.
  rewrite rec_fold_entry. reflexivity.
Qed.

Lemma opp_fold_entry (later : list opportunity) : forall e : opportunity,
  fold_left (fun e _ => e) later e = e.
Proof. induction later; simpl; auto. Qed.

Lemma brand_entries (items : list brand) :
  entries_by_key String.eqb brand_key brand_entry_of items
    (values (fold_left merge_brand items [])).
Proof.
  rewrite (fold_ext _ _ _ merge_brand_upsert).
  eapply Forall2_impl;
    [|apply (fold_upsert_entries String.eqb String.eqb_spec)].
  simpl. intros k e (first & later & Ho & ->).
  exists first, later. split; [exact Ho | apply brand_entry_fold].
Qed.

Lemma rec_entries (items : list recommendation) :
  entries_by_key String.eqb rec_key rec_entry_of items
    (values (fold_left merge_recommendation items [])).
Proof.
  rewrite (fold_ext _ _ _ merge_recommendation_upsert).
  eapply Forall2_impl;
    [|apply (fold_upsert_entries String.eqb String.eqb_spec)].
  simpl. intros k e (first & later & Ho & ->).
  exists first, later. split; [exact Ho | apply rec_entry_fold].
Qed.

Lemma opp_entries (items : list opportunity) :
  entries_by_key pair_eqb opp_key (fun first _ => first) items
    (values (fold_left merge_opportunity items [])).
Proof.
  rewrite (fold_ext _ _ _ merge_opportunity_upsert).
  eapply Forall2_impl; [|apply (fold_upsert_entries pair_eqb pair_eqb_spec)].
  simpl. intros k e (first & later & Ho & ->).
  exists first, later. split; [exact Ho | apply opp_fold_entry].
Qed.

(** C1. The brands of the merge. Take the brands of the results that
    are not skipped, in order, and key each by its lowered name (a brand
    without a name has no key and is left out). There is one entry per
    key; it has the name and category of the first occurrence, the sum
    of the mentions of all occurrences (1 for an occurrence without the
    field), and the sentiment of the last later occurrence that is
    positive or negative, or else the sentiment of the first occurrence.
    The output lists the entries by descending mentions, entries of equal
    mentions in the order their keys were first seen. Nike with 3 neutral
    mentions and then NIKE with 2 positive ones give one entry: Nike,
    5 mentions, positive. *)
Theorem merge_brands_spec :
  (forall results : list (option result),
     exists entries,
       entries_by_key String.eqb brand_key brand_entry_of
         (incoming brands results) entries
       /\ m_brands (merge_commercial_results results)
          = sorted_desc mentions entries
       /\ stable_desc_sort mentions entries
            (m_brands (merge_commercial_results results)))
  /\ m_brands (merge_commercial_results
                 [answer [a_brand "Nike" 3 "neutral"] [] [];
                  answer [a_brand "NIKE" 2 "positive"] [] []])
     = [{| name := Some "Nike"; category := "";
           sentiment := "positive"; mentions := 5 |}].
Proof.
  split; [|reflexivity].
  intros results.
  exists (values (fold_left merge_brand (incoming brands results) [])).
  split; [apply brand_entries|].
  rewrite merge_by_incoming. simpl.
  split; [reflexivity | apply sorted_desc_spec].
Qed.

Example merge_brands_neutral_keeps :
  m_brands (merge_commercial_results
              [answer [a_brand "Nike" 3 "negative";
                       a_brand "nike" 2 "mixed";
                       a_brand "Adidas" 5 "neutral"] [] []])
  = [{| name := Some "Nike"; category := "";
        sentiment := "negative"; mentions := 5 |};
     {| name := Some "Adidas"; category := "";
        sentiment := "neutral"; mentions := 5 |}].
Proof. reflexivity. Qed.

(** C8. The opportunities of the merge. An opportunity is keyed by its
    lowered target and lowered type, and has a key only when the
    lowered target is not empty. The output holds, for the first five
    keys in first-seen order, the first opportunity of the key as it
    came; a later opportunity of the same key changes nothing, and an
    opportunity without a key is in no position of the output. Two
    opportunities for the partnership with Nike leave the rationale of
    the first. *)
Theorem merge_opportunities_spec :
  (forall results : list (option result),
     exists kept,
       entries_by_key pair_eqb opp_key (fun first _ => first)
         (incoming opportunities results) kept
       /\ m_opportunities (merge_commercial_results results) = firstn 5 kept
       /\ Forall (fun o => opp_key o <> None) kept)
  /\ m_opportunities (merge_commercial_results
                        [answer [] [] [an_opp "Nike" "partnership" "first"];
                         answer [] [] [an_opp "NIKE" "Partnership" "second"]])
     = [an_opp "Nike" "partnership" "first"].
Proof.
  split; [|reflexivity].
  intros results.
  exists (values (fold_left merge_opportunity
                    (incoming opportunities results) [])).
  pose proof (opp_entries (incoming opportunities results)) as He.
  split; [exact He|].
  split; [rewrite merge_by_incoming; reflexivity|].
  unfold entries_by_key in He.
  induction He as [|k e ks es (first & later & Ho & ->) _ IH];
    constructor; auto.
  assert (Hin : In first (occurrences pair_eqb opp_key k
                            (incoming opportunities results)))
    by (rewrite Ho; left; reflexivity).
  apply filter_In in Hin as [_ Hk].
  destruct (opp_key first); [discriminate|discriminate].
Qed.

(** An opportunity with a target and no type has the key of the target
    and the empty type, and is kept. *)
Example merge_opportunity_without_type :
  m_opportunities (merge_commercial_results
                     [answer [] []
                        [{| o_type := None; o_target := Some "Nike";
                            o_rationale := Some "r" |};
                         {| o_type := Some "partnership"; o_target := None;
                            o_rationale := Some "s" |}]])
  = [{| o_type := None; o_target := Some "Nike"; o_rationale := Some "r" |}].
Proof. reflexivity. Qed.

(** *** Results that are skipped *)

Lemma incoming_filter {A} (field : result -> option (list A)) results :
  incoming field (filter (fun r => negb (skipped r)) results)
  = incoming field results.
Proof.
  unfold incoming. induction results as [|r results IH]; simpl; auto.
  destruct (skipped r) eqn:E; simpl; rewrite ?IH;
    destruct r as [d|]; rewrite ?E; reflexivity.
Qed.

Lemma incoming_skipped {A} (field : result -> option (list A)) results :
  Forall (fun r => skipped r = true) results -> incoming field results = [].
Proof.
  unfold incoming. induction 1 as [|r results Hr _ IH]; simpl; auto.
  rewrite IH. destruct r as [d|]; [rewrite Hr|]; reflexivity.
Qed.

Lemma merge_filter_skipped (results : list (option result)) :
  merge_commercial_results results
  = merge_commercial_results (filter (fun r => negb (skipped r)) results).
Proof. rewrite !merge_by_incoming, !incoming_filter. reflexivity. Qed.

Lemma merge_all_skipped (results : list (option result)) :
  Forall (fun r => skipped r = true) results ->
  merge_commercial_results results = empty_merged.
Proof.
  intros H. rewrite merge_by_incoming, !incoming_skipped by assumption.
  reflexivity.
Qed.

(** C6. The merge of no result is the empty merged result; so is the
    merge of results that are all skipped, a result being skipped when
    it is [None], an empty dict, or a dict with the error key. Skipped
    results add nothing: the merge is the merge of the others. *)
Theorem merge_skips_invalid (results : list (option result)) :
  merge_commercial_results [] = empty_merged
  /\ merge_commercial_results results
     = merge_commercial_results (filter (fun r => negb (skipped r)) results)
  /\ (Forall (fun r => skipped r = true) results ->
      merge_commercial_results results = empty_merged).
Proof.
  split; [reflexivity|]. split.
  - apply merge_filter_skipped.
  - apply merge_all_skipped.
Qed.

Lemma merge_skips_invalid_witness :
  merge_commercial_results [None; parse_error; empty_dict] = empty_merged.
Proof.
  apply (merge_skips_invalid [None; parse_error; empty_dict]).
  repeat constructor.
Defined.

(** *** A merge of a merge *)

Lemma incoming_three {A} (field : result -> option (list A)) a b c :
  incoming field [a; b; c]
  = (incoming field [a; b] ++ incoming field [c])%list.
Proof. unfold incoming. simpl. rewrite !app_nil_r, app_assoc. reflexivity. Qed.

Lemma brand_seed_back e : brand_seed (as_brand e) = e.
Proof. destruct e. reflexivity. Qed.

Lemma rec_seed_back e : rec_seed (as_recommendation e) = e.
Proof. destruct e. reflexivity. Qed.

Lemma brands_refold (first more : list brand) (entries : list brand_entry) :
  Permutation entries (values (fold_left merge_brand first [])) ->
  Permutation
    (values (fold_left merge_brand (map as_brand entries ++ more)%list []))
    (values (fold_left merge_brand (first ++ more)%list [])).
Proof.
  intros Hp. rewrite !(fold_ext _ _ _ merge_brand_upsert) in *.
  apply Permutation_map, (same_items_perm String.eqb String.eqb_spec).
  apply (refold_same_items String.eqb String.eqb_spec _ _ _ as_brand);
    auto; intros; split; auto using brand_seed_back.
Qed.

Lemma recs_refold (first more : list recommendation)
  (entries : list rec_entry) :
  Permutation entries (values (fold_left merge_recommendation first [])) ->
  Permutation
    (values (fold_left merge_recommendation
               (map as_recommendation entries ++ more)%list []))
    (values (fold_left merge_recommendation (first ++ more)%list [])).
Proof.
  intros Hp. rewrite !(fold_ext _ _ _ merge_recommendation_upsert) in *.
  apply Permutation_map, (same_items_perm String.eqb String.eqb_spec).
  apply (refold_same_items String.eqb String.eqb_spec _ _ _ as_recommendation);
    auto; intros; split; auto using rec_seed_back.
Qed.

Lemma opps_refold_dict (d : opp_map) (more : list opportunity) :
  NoDup (keys d) ->
  reseeds opp_key (fun o => o) (fun o => o) d ->
  firstn 5 (values (fold_left
                      (upsert pair_eqb opp_key (fun o => o) (fun e _ => e))
                      more
                      (fold_left
                         (upsert pair_eqb opp_key (fun o => o) (fun e _ => e))
                         (firstn 5 (values d)) [])))
  = firstn 5 (values (fold_left
                        (upsert pair_eqb opp_key (fun o => o) (fun e _ => e))
                        more d)).
Proof.
  intros Hnd Hr.
  assert (Hre : fold_left (upsert pair_eqb opp_key (fun o => o) (fun e _ => e))
                  (firstn 5 (values d)) [] = firstn 5 d).
  { unfold values. rewrite firstn_map. fold (values (firstn 5 d)).
    rewrite <- (map_id (values (firstn 5 d))).
    apply (refold pair_eqb pair_eqb_spec opp_key (fun o => o) (fun e _ => e)
             (fun o => o)).
    - unfold reseeds in *. rewrite <- (firstn_skipn 5 d) in Hr.
      apply Forall_app in Hr. apply Hr.
    - unfold keys. rewrite <- firstn_map.
      unfold keys in Hnd. rewrite <- (firstn_skipn 5 (map fst d)) in Hnd.
      apply NoDup_app_remove_r in Hnd. exact Hnd. }
  rewrite Hre. unfold values. rewrite !firstn_map. f_equal.
  apply firstn_fold_keep_first; auto using pair_eqb_spec.
  rewrite firstn_firstn. reflexivity.
Qed.

Lemma opps_refold (first more : list opportunity) :
  firstn 5 (values (fold_left merge_opportunity
               (firstn 5 (values (fold_left merge_opportunity first []))
                ++ more)%list []))
  = firstn 5 (values (fold_left merge_opportunity (first ++ more)%list [])).
Proof.
  rewrite !(fold_ext _ _ _ merge_opportunity_upsert).
  rewrite !fold_left_app.
  apply opps_refold_dict.
  - apply (NoDup_keys_fold pair_eqb pair_eqb_spec). constructor.
  - apply (reseeds_fold pair_eqb pair_eqb_spec); auto. constructor.
Qed.

(** C5, as the code has it. Merging the merge of [a] and [b] with [c]
    gives the brand entries of the merge of [a], [b] and [c], so the
    same mention totals, and the same opportunities. It gives the same
    recommendation entries when the three results hold at most eight
    distinct recommendation items, so that no merge cuts its list. *)
Theorem merge_of_merge (a b c : option result) :
  let nested :=
    merge_commercial_results [as_result (merge_commercial_results [a; b]); c] in
  let flat := merge_commercial_results [a; b; c] in
  Permutation (m_brands nested) (m_brands flat)
  /\ m_opportunities nested = m_opportunities flat
  /\ ((List.length (first_keys String.eqb rec_key
                      (incoming recommendations [a; b; c])) <= 8)%nat ->
      Permutation (m_recommendations nested) (m_recommendations flat)).
Proof.
  cbv zeta. rewrite !merge_by_incoming. cbn [m_brands m_recommendations m_opportunities].
  rewrite !incoming_three.
  replace (incoming brands [as_result _; c])
    with (map as_brand
            (sorted_desc mentions
               (values (fold_left merge_brand (incoming brands [a; b]) [])))
          ++ incoming brands [c])%list
    by (unfold incoming; simpl; rewrite !app_nil_r; reflexivity).
  replace (incoming opportunities [as_result _; c])
    with (firstn 5 (values (fold_left merge_opportunity
                              (incoming opportunities [a; b]) []))
          ++ incoming opportunities [c])%list
    by (unfold incoming; simpl; rewrite !app_nil_r; reflexivity).
  replace (incoming recommendations [as_result _; c])
    with (map as_recommendation
            (firstn 8
               (sorted_desc endorsements
                  (values (fold_left merge_recommendation
                             (incoming recommendations [a; b]) []))))
          ++ incoming recommendations [c])%list
    by (unfold incoming; simpl; rewrite !app_nil_r; reflexivity).
  split; [|split].
  - etransitivity; [symmetry; apply sorted_desc_perm|].
    etransitivity; [|apply sorted_desc_perm].
    apply brands_refold. symmetry. apply sorted_desc_perm.
  - apply opps_refold.
  - intros Hle.
    set (A := incoming recommendations [a; b]) in *.
    set (C := incoming recommendations [c]) in *.
    assert (Hflat : List.length
                      (values (fold_left merge_recommendation (A ++ C)%list []))
                    = List.length (first_keys String.eqb rec_key (A ++ C)%list)).
    { rewrite (fold_ext _ _ _ merge_recommendation_upsert).
      destruct (fold_upsert_spec String.eqb String.eqb_spec
                  rec_key rec_seed rec_update (A ++ C)%list) as [Hk _].
      cbv zeta in Hk. rewrite <- Hk.
      unfold values, keys. rewrite !length_map. reflexivity. }
    assert (Hinner : (List.length
                        (values (fold_left merge_recommendation A []))
                      <= 8)%nat).
    { etransitivity; [|exact Hle]. rewrite <- Hflat.
      rewrite !(fold_ext _ _ _ merge_recommendation_upsert), fold_left_app.
      unfold values. rewrite !length_map. apply length_fold. }
    rewrite (firstn_all2 (n := 8)
               (sorted_desc endorsements
                  (values (fold_left merge_recommendation A []))))
      by (rewrite sorted_desc_length; exact Hinner).
    assert (Hp : Permutation
              (values (fold_left merge_recommendation
                 (map as_recommendation
                    (sorted_desc endorsements
                       (values (fold_left merge_recommendation A [])))
                  ++ C)%list []))
              (values (fold_left merge_recommendation (A ++ C)%list []))).
    { apply recs_refold. symmetry. apply sorted_desc_perm. }
    rewrite !firstn_all2.
    + etransitivity; [symmetry; apply sorted_desc_perm|].
      etransitivity; [|apply sorted_desc_perm]. exact Hp.
    + rewrite sorted_desc_length, Hflat. exact Hle.
    + rewrite sorted_desc_length, (Permutation_length Hp), Hflat. exact Hle.
Qed.

Lemma merge_of_merge_witness :
  Permutation
    (m_recommendations
       (merge_commercial_results
          [as_result (merge_commercial_results
                        [answer [] [a_rec "tea"; a_rec "Tea"] [];
                         answer [] [a_rec "coffee"] []]);
           answer [] [a_rec "TEA"] []]))
    (m_recommendations
       (merge_commercial_results
          [answer [] [a_rec "tea"; a_rec "Tea"] [];
           answer [] [a_rec "coffee"] [];
           answer [] [a_rec "TEA"] []])).
Proof.
  apply (merge_of_merge (answer [] [a_rec "tea"; a_rec "Tea"] [])
           (answer [] [a_rec "coffee"] []) (answer [] [a_rec "TEA"] [])).
  vm_compute. lia.
Defined.

(** C5, as the specification states it, fails for the recommendations. The first
    merge keeps eight of the nine items of [a] and drops ["r9"]; the
    endorsement of ["R9"] in [c] then counts alone, and ["r9"] is not
    among the final eight, while the merge of the three results ranks
    it first with two endorsements. *)
Lemma merge_of_merge_counterexample :
  let a := answer [] nine_recs [] in
  let b := answer [] [] [] in
  let c := answer [] [a_rec "R9"] [] in
  In (Some "r9")
    (map item (m_recommendations (merge_commercial_results [a; b; c])))
  /\ ~ In (Some "r9")
        (map item (m_recommendations
                     (merge_commercial_results
                        [as_result (merge_commercial_results [a; b]); c]))).
Proof.
  split.
  - left. reflexivity.
  - vm_compute. intros H.
    repeat (destruct H as [H|H]; [discriminate H|]). exact H.
Qed.

End MergeFacts.

(** ** The pipelines *)

Module PipelineFacts.
Import PyStr PyList PyListFacts Comments Merge MergeFacts.
Import Pipeline Batched App PipelineSpec Samples PipelineSamples.

(** *** Batches and their texts *)

Lemma split_batches_ok (comments : list comment) (B : Z) :
  1 <= B -> split_batches comments B = inr (batches_of comments B).
Proof.
  intros HB. unfold batches_of, split_batches.
  rewrite range_positive by (auto using len_nonneg; lia). reflexivity.
Qed.

Lemma prepare_batch (batch : list comment) :
  prepare_comments_for_analysis batch (len batch) = inr (batch_text batch).
Proof.
  unfold prepare_comments_for_analysis.
  rewrite SelectFacts.select_within_budget by lia. reflexivity.
Qed.

Lemma map_snd_enumerate {A} (l : list A) : forall k,
  map snd (enumerate l k) = l.
Proof. induction l as [|x l IH]; intros k; simpl; f_equal; auto. Qed.

Lemma flat_map_nil {A B} (l : list A) : flat_map (fun _ => @nil B) l = [].
Proof. induction l; simpl; auto. Qed.

Lemma flat_map_single {A B} (g : A -> B) (l : list A) :
  flat_map (fun x => [g x]) l = map g l.
Proof. induction l; simpl; f_equal; auto. Qed.

(** *** A loop of AnalysisClient calls *)

Section Dispatch.
Context {X A : Type} (pre : X -> list event) (text : X -> string)
  (f : nat -> string -> exn + A) (body : X -> M A).
Hypothesis body_spec : forall x t,
  body x t = ({| events := (events t ++ pre x)%list;
                 calls := (calls t ++ [text x])%list |},
              f (List.length (calls t)) (text x)).

(** When every call returns, the loop makes all the calls and
    collects all the results, error-tagged ones included. *)
Lemma for_each_all_return xs : forall results t,
  answers_from f (List.length (calls t)) (map text xs) = map inr results ->
  for_each body xs t
  = ({| events := (events t ++ flat_map pre xs)%list;
        calls := (calls t ++ map text xs)%list |}, inr results).
Proof.
  induction xs as [|x xs IH]; intros results t H; simpl in *.
  - destruct results; [|discriminate]. unfold ret.
    rewrite !app_nil_r. destruct t; reflexivity.
  - destruct results as [|r results]; [discriminate|].
    injection H as H1 H2. unfold bind at 1. rewrite body_spec, H1.
    unfold bind at 1. rewrite (IH results).
    + unfold ret. simpl. rewrite <- !app_assoc. reflexivity.
    + simpl. rewrite length_app, Nat.add_1_r. exact H2.
Qed.

(** When a call raises, the loop ends there: the calls before it and
    that call are the only ones made, and the exception goes on. *)
Lemma for_each_raises xs : forall results e rest t,
  answers_from f (List.length (calls t)) (map text xs)
  = (map inr results ++ inl e :: rest)%list ->
  for_each body xs t
  = ({| events :=
          (events t
           ++ flat_map pre (firstn (S (List.length results)) xs))%list;
        calls :=
          (calls t ++ map text (firstn (S (List.length results)) xs))%list |},
     inl e).
Proof.
  induction xs as [|x xs IH]; intros results e rest t H; simpl in H.
  - destruct results; discriminate.
  - destruct results as [|r results]; simpl in H; injection H as H1 H2.
    + simpl for_each. unfold bind at 1. rewrite body_spec, H1.
      simpl. rewrite app_nil_r. reflexivity.
    + simpl for_each. unfold bind at 1. rewrite body_spec, H1.
      unfold bind at 1. rewrite (IH results e rest).
      * simpl. rewrite <- !app_assoc. reflexivity.
      * simpl. rewrite length_app, Nat.add_1_r. exact H2.
Qed.
End Dispatch.

(** *** The batched pipelines *)

(** One turn of the loop over the batches: without a callback in
    [extract_commercial_opportunities_batched], and with its progress
    event in the generators. *)
Local Abbreviation batched_turn w label article_count :=
  (fun ib : Z * list comment =>
     let (i, batch) := ib in
     ret tt ;;;
     comments_text <--
       lift (prepare_comments_for_analysis batch (len batch)) ;;;
     analysis_call
       (fun n text =>
          extract_commercial_opportunities_aggregated w
            n text label article_count)
       comments_text).

Local Abbreviation generator_turn w label article_count num :=
  (fun ib : Z * list comment =>
     let (i, batch) := ib in
     yield (Progress "analyzing"
              ("Processing batch " ++ str_of_Z (i + 1) ++ "/"
               ++ str_of_Z num ++ " ("
               ++ str_of_Z (len batch) ++ " comments)...")) ;;;
     comments_text <--
       lift (prepare_comments_for_analysis batch (len batch)) ;;;
     analysis_call
       (fun n text =>
          extract_commercial_opportunities_aggregated w
            n text label article_count)
       comments_text).

Lemma batched_body (w : world) (label : string) (article_count : Z)
  (ib : Z * list comment) (t : trace) :
  batched_turn w label article_count ib t
  = ({| events := (events t ++ [])%list;
        calls := (calls t ++ [batch_text (snd ib)])%list |},
     w.(extract_commercial_opportunities_aggregated)
       (List.length (calls t)) (batch_text (snd ib)) label article_count).
Proof.
  destruct ib as [i batch]. unfold bind, ret, lift.
  rewrite prepare_batch. unfold analysis_call. simpl.
  rewrite app_nil_r. reflexivity.
Qed.

Lemma generator_body (w : world) (label : string) (article_count : Z)
  (num : Z) (ib : Z * list comment) (t : trace) :
  generator_turn w label article_count num ib t
  = ({| events := (events t ++ [batch_progress num ib])%list;
        calls := (calls t ++ [batch_text (snd ib)])%list |},
     w.(extract_commercial_opportunities_aggregated)
       (List.length (calls t)) (batch_text (snd ib)) label article_count).
Proof.
  destruct ib as [i batch]. unfold bind, yield, lift.
  rewrite prepare_batch. unfold analysis_call. reflexivity.
Qed.

Lemma batched_unfold w comments label article_count B t :
  1 <= B ->
  extract_commercial_opportunities_batched w comments label article_count
    B None t
  = match batches_of comments B with
    | [] => (t, inr empty_merged)
    | _ =>
        match for_each (batched_turn w label article_count)
                (enumerate (batches_of comments B) 0) t with
        | (t', inl e) => (t', inl e)
        | (t', inr batch_results) =>
            (t', inr (merge_commercial_results batch_results))
        end
    end.
Proof.
  intros HB. unfold extract_commercial_opportunities_batched.
  rewrite split_batches_ok by assumption.
  unfold bind at 1, lift.
  destruct (batches_of comments B); reflexivity.
Qed.

Lemma generator_unfold w comments label article_count t :
  analyze_in_batches w comments label article_count t
  = let batches := batches_of comments 200 in
    match for_each (generator_turn w label article_count (len batches))
            (enumerate batches 0)
            {| events := (events t ++ [batches_announced comments])%list;
               calls := calls t |} with
    | (t', inl e) => (t', inl e)
    | (t', inr batch_results) =>
        ({| events :=
              (events t'
               ++ [Result "commercialOpportunities"
                     (Commercial
                        (as_result (merge_commercial_results batch_results)));
                   Complete "Analysis complete"])%list;
            calls := calls t' |}, inr tt)
    end.
Proof.
  unfold analyze_in_batches.
  rewrite split_batches_ok by lia.
  unfold bind at 1, lift. unfold bind at 1, yield at 1.
  cbv zeta. unfold bind at 1.
  destruct (for_each _ _ _) as [t' [e|rs]]; [reflexivity|].
  unfold bind, yield. simpl. rewrite <- app_assoc. reflexivity.
Qed.

Lemma texts_of_batches (batches : list (list comment)) (k : Z) :
  map (fun ib : Z * list comment => batch_text (snd ib)) (enumerate batches k)
  = map batch_text batches.
Proof. rewrite <- (map_map snd batch_text), map_snd_enumerate. reflexivity. Qed.

Lemma texts_of_first_batches (batches : list (list comment)) (k : Z) n :
  map (fun ib : Z * list comment => batch_text (snd ib))
    (firstn n (enumerate batches k))
  = firstn n (map batch_text batches).
Proof. rewrite <- firstn_map, texts_of_batches. reflexivity. Qed.

(** C2: what the batched pipeline does, in
    [extract_commercial_opportunities_batched] and in phase 3 of the
    multi-article generators. When every AnalysisClient call returns,
    error-tagged answers included, every batch is dispatched and the
    outcome is the merge of the answers that are not skipped. When a
    call raises, the failure is not isolated as C2 requires: no batch
    loop has a handler of its own, unlike the commercial call of the
    single-article flow and the scraping loop, so that call is the last
    one made, no merged result is produced, and the exception leaves
    the pipeline (the generator then reports it as an error event). *)
Theorem batch_failure_outcome (w : world) (comments : list comment)
  (label : string) (article_count : Z) (t : trace) :
  let client := fun n text =>
    w.(extract_commercial_opportunities_aggregated) n text label article_count in
  let texts := fun B => map batch_text (batches_of comments B) in
  (forall B results, 1 <= B ->
     answers_from client (List.length (calls t)) (texts B) = map inr results ->
     extract_commercial_opportunities_batched w comments label article_count
       B None t
     = ({| events := events t; calls := (calls t ++ texts B)%list |},
        inr (merge_commercial_results
               (filter (fun r => negb (skipped r)) results))))
  /\ (forall B results e rest, 1 <= B ->
        answers_from client (List.length (calls t)) (texts B)
        = (map inr results ++ inl e :: rest)%list ->
        extract_commercial_opportunities_batched w comments label
          article_count B None t
        = ({| events := events t;
              calls := (calls t
                        ++ firstn (S (List.length results)) (texts B))%list |},
           inl e))
  /\ (forall results,
        answers_from client (List.length (calls t)) (texts 200)
        = map inr results ->
        analyze_in_batches w comments label article_count t
        = ({| events :=
                (events t
                 ++ dispatch_events comments
                      (List.length (batches_of comments 200))
                 ++ [Result "commercialOpportunities"
                       (Commercial
                          (as_result
                             (merge_commercial_results
                                (filter (fun r => negb (skipped r)) results))));
                     Complete "Analysis complete"])%list;
              calls := (calls t ++ texts 200)%list |},
           inr tt))
  /\ (forall results e rest,
        answers_from client (List.length (calls t)) (texts 200)
        = (map inr results ++ inl e :: rest)%list ->
        analyze_in_batches w comments label article_count t
        = ({| events :=
                (events t
                 ++ dispatch_events comments (S (List.length results)))%list;
              calls := (calls t
                        ++ firstn (S (List.length results)) (texts 200))%list |},
           inl e)).
Proof.
  intros client texts. unfold texts. repeat split.
  - intros B results HB H. rewrite batched_unfold by assumption.
    pose proof (for_each_all_return (fun _ => []) _ client
                  (batched_turn w label article_count)
                  (batched_body w label article_count)
                  (enumerate (batches_of comments B) 0) results t) as Hrun.
    rewrite texts_of_batches in Hrun. specialize (Hrun H).
    rewrite Hrun, flat_map_nil, app_nil_r, <- merge_filter_skipped.
    destruct (batches_of comments B); [|reflexivity].
    destruct results; [|discriminate]. simpl.
    rewrite app_nil_r. destruct t; reflexivity.
  - intros B results e rest HB H. rewrite batched_unfold by assumption.
    pose proof (for_each_raises (fun _ => []) _ client
                  (batched_turn w label article_count)
                  (batched_body w label article_count)
                  (enumerate (batches_of comments B) 0)
                  results e rest t) as Hrun.
    rewrite texts_of_batches in Hrun. specialize (Hrun H).
    rewrite texts_of_first_batches in Hrun.
    rewrite Hrun, flat_map_nil, app_nil_r.
    destruct (batches_of comments B); [|reflexivity].
    destruct results; discriminate.
  - intros results H. rewrite generator_unfold. cbv zeta.
    pose proof (for_each_all_return
                  (fun ib => [batch_progress
                                (len (batches_of comments 200)) ib])
                  _ client
                  (generator_turn w label article_count
                     (len (batches_of comments 200)))
                  (generator_body w label article_count
                     (len (batches_of comments 200)))
                  (enumerate (batches_of comments 200) 0) results
                  {| events := (events t ++ [batches_announced comments])%list;
                     calls := calls t |}) as Hrun.
    rewrite texts_of_batches in Hrun. specialize (Hrun H).
    rewrite Hrun. simpl events. simpl calls.
    rewrite flat_map_single, <- merge_filter_skipped.
    unfold dispatch_events. rewrite firstn_all2.
    + simpl. rewrite <- !app_assoc. reflexivity.
    + clear. generalize 0.
      induction (batches_of comments 200); intros z; simpl; auto.
      apply le_n_S. apply IHl.
  - intros results e rest H. rewrite generator_unfold. cbv zeta.
    pose proof (for_each_raises
                  (fun ib => [batch_progress
                                (len (batches_of comments 200)) ib])
                  _ client
                  (generator_turn w label article_count
                     (len (batches_of comments 200)))
                  (generator_body w label article_count
                     (len (batches_of comments 200)))
                  (enumerate (batches_of comments 200) 0)
                  results e rest
                  {| events := (events t ++ [batches_announced comments])%list;
                     calls := calls t |}) as Hrun.
    rewrite texts_of_batches in Hrun. specialize (Hrun H).
    rewrite texts_of_first_batches in Hrun.
    rewrite Hrun. simpl events. simpl calls.
    rewrite flat_map_single. unfold dispatch_events.
    simpl. rewrite <- !app_assoc. reflexivity.
Qed.

Lemma batch_failure_outcome_witness :
  snd (extract_commercial_opportunities_batched
         (a_world [] (inr parse_error)) comments_450 "shoes" 1 200 None start)
  = inr (merge_commercial_results [first_answer; third_answer]).
Proof.
  destruct (batch_failure_outcome (a_world [] (inr parse_error))
              comments_450 "shoes" 1 start) as (H & _).
  rewrite (H 200 [first_answer; parse_error; third_answer]);
    [reflexivity | lia | vm_compute; reflexivity].
Defined.

(** C2 does not hold of the code when the call raises. 450 comments
    make batches of 200, 200 and 50; the AnalysisClient call of the
    second batch raises; the batched function raises in turn, after two
    calls: the third batch is never dispatched and the merge of the
    first and third answers is not returned. The keyword generator ends
    with an error event and no commercial result. *)
Lemma batch_two_raises_counterexample :
  let timeout := Exception "timeout" in
  let run :=
    extract_commercial_opportunities_batched (a_world [] (inl timeout))
      comments_450 "shoes" 1 200 None start in
  let stream :=
    generate_keyword_analysis (a_world comments_450 (inl timeout))
      "shoes" 10 start in
  map len (batches_of comments_450 200) = [200; 200; 50]
  /\ snd run = inl timeout
  /\ snd run <> inr (merge_commercial_results [first_answer; third_answer])
  /\ List.length (calls (fst run)) = 2%nat
  /\ last (events (fst stream)) (Complete "") = Error "Error: timeout"
  /\ existsb (fun e => match e with
                       | Result "commercialOpportunities" _ => true
                       | _ => false
                       end) (events (fst stream)) = false.
Proof. vm_compute. repeat split; discriminate. Qed.

(** The nearby case: the second answer is error-tagged, the pipeline
    goes on and the merge holds the first and third answers. *)
Example batch_two_error_tagged :
  snd (extract_commercial_opportunities_batched
         (a_world [] (inr parse_error)) comments_450 "shoes" 1 200 None start)
  = inr {| m_brands :=
             [{| name := Some "Nike"; category := "";
                 sentiment := "neutral"; mentions := 3 |};
              {| name := Some "Adidas"; category := "";
                 sentiment := "positive"; mentions := 2 |}];
           m_recommendations := [];
           m_opportunities := [] |}.
Proof. vm_compute. reflexivity. Qed.

(** *** No comment at all *)

Lemma scrape_article_no_comments (w : world) (n i : Z) (a : article) t :
  match w.(fetch_all_comments) (a_short_url a) with
  | inr f => f_comments f = []
  | inl _ => True
  end ->
  exists evs,
    scrape_article w n ([], []) (i, a) t
    = ({| events := (events t ++ evs)%list; calls := calls t |},
       inr ([], []))
    /\ forallb (fun e => negb (is_terminal e)) evs = true.
Proof.
  intros Ha. unfold scrape_article.
  unfold bind at 1, yield at 1. unfold try_except, bind, lift.
  destruct (fetch_all_comments w (a_short_url a)) as [e|f].
  - unfold yield, ret. cbn [events calls].
    eexists. split; [rewrite <- app_assoc; reflexivity|reflexivity].
  - rewrite Ha. unfold ret. cbn [events calls map app].
    eexists. split; [reflexivity|reflexivity].
Qed.

Lemma scrape_no_comments (w : world) (n : Z) (articles : list article) :
  no_comments w articles ->
  forall i t,
  exists evs,
    for_fold (scrape_article w n) (enumerate articles i) ([], []) t
    = ({| events := (events t ++ evs)%list; calls := calls t |},
       inr ([], []))
    /\ forallb (fun e => negb (is_terminal e)) evs = true.
Proof.
  induction 1 as [|a articles Ha _ IH]; intros i t.
  - exists []. simpl. unfold ret. rewrite app_nil_r.
    destruct t; auto.
  - change (for_fold (scrape_article w n) (enumerate (a :: articles) i)
              ([], []) t)
      with (bind (scrape_article w n ([], []) (i, a))
              (for_fold (scrape_article w n) (enumerate articles (i + 1))) t).
    unfold bind at 1.
    destruct (scrape_article_no_comments w n i a t Ha) as (evs1 & -> & H1).
    destruct (IH (i + 1) {| events := (events t ++ evs1)%list;
                            calls := calls t |}) as (evs2 & -> & H2).
    exists (evs1 ++ evs2)%list. cbn [events calls]. split.
    + rewrite <- app_assoc. reflexivity.
    + rewrite forallb_app, H1, H2. reflexivity.
Qed.

Lemma keyword_no_comments (w : world) keyword limit articles :
  w.(ANTHROPIC_API_KEY) = true -> w.(GUARDIAN_API_KEY) = true ->
  w.(search_articles_by_keyword) keyword limit = inr articles ->
  articles <> [] -> no_comments w articles ->
  exists evs,
    generate_keyword_analysis w keyword limit start
    = ({| events := (evs ++ [Error "No comments found across any articles"])%list;
          calls := [] |}, inr tt)
    /\ forallb (fun e => negb (is_terminal e)) evs = true.
Proof.
  intros Ha Hg Hs Hne Hno.
  unfold generate_keyword_analysis, try_except. rewrite Ha, Hg. cbn [negb].
  unfold bind at 1, yield at 1. unfold bind at 1, lift at 1. rewrite Hs.
  destruct articles as [|a0 rest]; [congruence|].
  set (articles := a0 :: rest) in *.
  unfold bind at 1, yield at 1. unfold bind at 1, yield at 1.
  unfold bind at 1.
  match goal with
  | |- context [for_fold _ _ _ ?t1] =>
      destruct (scrape_no_comments w (len articles) articles Hno 0 t1)
        as (evs & -> & Hevs)
  end.
  unfold yield. cbn [events calls start app].
  eexists (_ :: _ :: _ :: evs). split.
  - reflexivity.
  - simpl. exact Hevs.
Qed.

Lemma section_no_comments (w : world) section_url limit articles :
  w.(ANTHROPIC_API_KEY) = true ->
  w.(extract_articles_from_section) section_url limit = inr articles ->
  articles <> [] -> no_comments w articles ->
  exists evs,
    generate_section_analysis w section_url limit start
    = ({| events := (evs ++ [Error "No comments found across any articles"])%list;
          calls := [] |}, inr tt)
    /\ forallb (fun e => negb (is_terminal e)) evs = true.
Proof.
  intros Ha Hs Hne Hno.
  unfold generate_section_analysis, try_except. rewrite Ha. cbn [negb].
  unfold bind at 1, yield at 1. unfold bind at 1, lift at 1. rewrite Hs.
  destruct articles as [|a0 rest]; [congruence|].
  set (articles := a0 :: rest) in *.
  unfold bind at 1, yield at 1. unfold bind at 1, yield at 1.
  unfold bind at 1.
  match goal with
  | |- context [for_fold _ _ _ ?t1] =>
      destruct (scrape_no_comments w (len articles) articles Hno 0 t1)
        as (evs & -> & Hevs)
  end.
  unfold yield. cbn [events calls start app].
  eexists (_ :: _ :: _ :: evs). split.
  - reflexivity.
  - simpl. exact Hevs.
Qed.

Lemma article_no_comments (w : world) article_url short_url fetched :
  w.(ANTHROPIC_API_KEY) = true ->
  w.(extract_short_url) article_url = inr short_url ->
  w.(fetch_all_comments) short_url = inr fetched ->
  f_comments fetched = [] ->
  exists evs,
    generate_analysis w article_url start
    = ({| events := (evs ++ [Complete "No comments to analyze."])%list;
          calls := [] |}, inr tt)
    /\ forallb (fun e => negb (is_terminal e)) evs = true.
Proof.
  intros Ha He Hf Hc.
  unfold generate_analysis, try_except. rewrite Ha. cbn [negb].
  unfold bind at 1, yield at 1. unfold bind at 1, lift at 1. rewrite He.
  unfold bind at 1, yield at 1. unfold bind at 1, lift at 1. rewrite Hf.
  rewrite Hc. change (len (@nil comment)) with 0. cbn [Z.eqb].
  unfold bind, yield. cbn [events calls start app].
  eexists [_; _; _; _]. split; reflexivity.
Qed.

Lemma batched_no_comments (w : world) keyword article_count B callback t :
  B <> 0 ->
  extract_commercial_opportunities_batched w [] keyword article_count
    B callback t
  = (t, inr empty_merged).
Proof.
  intros HB. unfold extract_commercial_opportunities_batched.
  unfold split_batches, range. simpl.
  destruct (Z.eqb_spec B 0); [contradiction|]. reflexivity.
Qed.

(** C7, as the code has it. With no comment collected, no flow calls
    the AnalysisClient and every flow ends its stream with one terminal
    event, nothing terminal before it: the single-article flow with the
    completion "No comments to analyze.", the keyword and the section
    flows with the error "No comments found across any articles". The
    batched function returns the empty merged result, no call made. *)
Theorem no_comments_outcome (w : world) :
  (forall article_url short_url fetched,
     w.(ANTHROPIC_API_KEY) = true ->
     w.(extract_short_url) article_url = inr short_url ->
     w.(fetch_all_comments) short_url = inr fetched ->
     f_comments fetched = [] ->
     exists evs,
       generate_analysis w article_url start
       = ({| events := (evs ++ [Complete "No comments to analyze."])%list;
             calls := [] |}, inr tt)
       /\ forallb (fun e => negb (is_terminal e)) evs = true)
  /\ (forall keyword limit articles,
        w.(ANTHROPIC_API_KEY) = true -> w.(GUARDIAN_API_KEY) = true ->
        w.(search_articles_by_keyword) keyword limit = inr articles ->
        articles <> [] -> no_comments w articles ->
        exists evs,
          generate_keyword_analysis w keyword limit start
          = ({| events :=
                  (evs ++ [Error "No comments found across any articles"])%list;
                calls := [] |}, inr tt)
          /\ forallb (fun e => negb (is_terminal e)) evs = true)
  /\ (forall section_url limit articles,
        w.(ANTHROPIC_API_KEY) = true ->
        w.(extract_articles_from_section) section_url limit = inr articles ->
        articles <> [] -> no_comments w articles ->
        exists evs,
          generate_section_analysis w section_url limit start
          = ({| events :=
                  (evs ++ [Error "No comments found across any articles"])%list;
                calls := [] |}, inr tt)
          /\ forallb (fun e => negb (is_terminal e)) evs = true)
  /\ (forall keyword article_count B callback t,
        B <> 0 ->
        extract_commercial_opportunities_batched w [] keyword article_count
          B callback t
        = (t, inr empty_merged)).
Proof.
  split; [|split; [|split]].
  - apply article_no_comments.
  - apply keyword_no_comments.
  - apply section_no_comments.
  - apply batched_no_comments.
Qed.

Lemma no_comments_outcome_witness :
  (exists evs,
     generate_analysis (a_world [] (inr None)) "url" start
     = ({| events := (evs ++ [Complete "No comments to analyze."])%list;
           calls := [] |}, inr tt)
     /\ forallb (fun e => negb (is_terminal e)) evs = true)
  /\ (exists evs,
        generate_keyword_analysis (a_world [] (inr None)) "shoes" 10 start
        = ({| events :=
                (evs ++ [Error "No comments found across any articles"])%list;
              calls := [] |}, inr tt)
        /\ forallb (fun e => negb (is_terminal e)) evs = true).
Proof.
  destruct (no_comments_outcome (a_world [] (inr None))) as (H1 & H2 & _).
  split.
  - apply (H1 "url" "/p/abc" {| f_comments := []; f_title := Some "Shoes" |});
      reflexivity.
  - apply (H2 "shoes" 10 [one_article]); try reflexivity.
    + discriminate.
    + repeat constructor.
Defined.

(** C7, as the specification states it, fails in the keyword flow: one article
    without comments, and the stream ends with an error event; it has no
    completion event. No AnalysisClient call is made. *)
Lemma keyword_no_comments_counterexample :
  let stream :=
    generate_keyword_analysis (a_world [] (inr None)) "shoes" 10 start in
  last (events (fst stream)) (Progress "" "")
  = Error "No comments found across any articles"
  /\ existsb (fun e => match e with Complete _ => true | _ => false end)
       (events (fst stream)) = false
  /\ calls (fst stream) = [].
Proof. vm_compute. repeat split. Qed.

End PipelineFacts.

(** ** More on cleaning, selection and batching *)

Module SelectionFacts.
Import PyStr PyList PyListFacts CleanHtml CleanHtmlFacts Comments Samples.
Import Merge Pipeline Batched.

(** The output of [clean_html] is clean: no tag match is left in it, its
    only whitespace is single spaces between other characters, and
    [strip] has nothing to remove. *)
Theorem clean_html_normal_form (s : string) :
  tag_free (clean_html s) = true
  /\ single_spaced false (clean_html s) = true
  /\ starts_nonspace (clean_html s) = true
  /\ strip (clean_html s) = clean_html s.
Proof.
  unfold clean_html. repeat split.
  - unfold strip.
    apply tag_free_rstrip, tag_free_lstrip, tag_free_sub_spaces,
      sub_tags_tag_free.
  - unfold strip.
    apply single_spaced_rstrip, (single_spaced_lstrip _ false),
      sub_spaces_single_spaced.
  - unfold strip. apply starts_nonspace_rstrip, lstrip_starts_nonspace.
  - apply strip_strip.
Qed.

(** Text without a tag, with single spaces only and already trimmed is
    left as it is. *)
Theorem clean_html_fixed (s : string) :
  tag_free s = true -> single_spaced false s = true -> strip s = s ->
  clean_html s = s.
Proof.
  intros Hfree Hsp Hstrip. unfold clean_html.
  rewrite (tag_free_fixed _ Hfree), (single_spaced_fixed _ _ Hsp).
  exact Hstrip.
Qed.

Lemma clean_html_fixed_witness : clean_html "a <> b d> <e" = "a <> b d> <e".
Proof. apply clean_html_fixed; reflexivity. Defined.

(** A list that fits the budget is selected whole, in the stable
    descending order of the recommendations. *)
Theorem select_whole_list (comments : list comment) (m : Z) :
  len comments <= m ->
  exists selected,
    select comments m = inr selected
    /\ stable_desc_sort recommends comments selected
    /\ len selected = len comments.
Proof.
  intros H. exists (sorted_desc recommends comments).
  split; [apply SelectFacts.select_within_budget; exact H|].
  split; [apply sorted_desc_spec | apply SelectFacts.len_sorted].
Qed.

Lemma select_whole_list_witness :
  exists selected,
    select four_comments 200 = inr selected /\ len selected = 4.
Proof.
  destruct (select_whole_list four_comments 200 ltac:(discriminate))
    as (l & H & _ & Hl).
  exists l. split; [exact H | exact Hl].
Defined.

Lemma pick_incl {A} (l : list A) (idxs : list Z) : incl (pick l idxs) l.
Proof.
  unfold pick. intros x Hx. apply in_flat_map in Hx as (i & _ & Hi).
  destruct (nth_error l (Z.to_nat i)) as [y|] eqn:E; [|destruct Hi].
  destruct Hi as [<-|[]]. eapply nth_error_In. exact E.
Qed.

Lemma stride_incl {A} (l strided : list A) (step : Z) :
  stride l step = inr strided -> incl strided l.
Proof.
  unfold stride. destruct (step =? 0); [discriminate|].
  destruct (0 <? step).
  - destruct (range 0 (len l) step); simpl; [discriminate|].
    intros [= <-]. apply pick_incl.
  - destruct (range (len l - 1) (-1) step); simpl; [discriminate|].
    intros [= <-]. apply pick_incl.
Qed.

Lemma slice_to_incl {A} (l : list A) (k : Z) : incl (slice_to l k) l.
Proof.
  unfold slice_to. intros x Hx.
  rewrite <- (firstn_skipn (Z.to_nat (clamp (len l) k)) l).
  apply in_or_app. left. exact Hx.
Qed.

Lemma slice_from_incl {A} (l : list A) (k : Z) : incl (slice_from l k) l.
Proof.
  unfold slice_from. intros x Hx.
  rewrite <- (firstn_skipn (Z.to_nat (clamp (len l) k)) l).
  apply in_or_app. right. exact Hx.
Qed.

Lemma slice_to_len {A} (l : list A) (k : Z) : 0 <= k -> len (slice_to l k) <= k.
Proof.
  intros Hk. unfold slice_to, len. rewrite length_firstn.
  unfold clamp. destruct (k <? 0) eqn:E; lia.
Qed.

(** Whatever the selection returns holds comments of the input only. *)
Lemma select_incl (comments selected : list comment) (m : Z) :
  select comments m = inr selected -> incl selected comments.
Proof.
  unfold select.
  assert (Hs : incl (sorted_desc recommends comments) comments).
  { intros x Hx. eapply Permutation_in; [|exact Hx].
    symmetry. apply sorted_desc_perm. }
  destruct (len _ >? m).
  - destruct (if _ >? _ then _ else _) as [e|step]; simpl; [discriminate|].
    destruct (stride _ step) as [e|strided] eqn:Es; simpl; [discriminate|].
    intros [= <-]. apply incl_app.
    + eapply incl_tran; [apply slice_to_incl | exact Hs].
    + eapply incl_tran; [apply slice_to_incl|].
      eapply incl_tran; [eapply stride_incl; exact Es|].
      eapply incl_tran; [apply slice_from_incl | exact Hs].
  - intros [= <-]. exact Hs.
Qed.

Lemma select_returns (comments : list comment) (m : Z) :
  2 <= m \/ len comments <= m ->
  exists selected,
    select comments m = inr selected
    /\ len selected <= m
    /\ incl selected comments.
Proof.
  intros Hm.
  assert (Hn : len (sorted_desc recommends comments) = len comments)
    by apply SelectFacts.len_sorted.
  destruct (Z.le_gt_cases (len comments) m) as [Hfit|Hover].
  - exists (sorted_desc recommends comments).
    rewrite SelectFacts.select_within_budget by assumption.
    split; [reflexivity|]. split; [lia|].
    eapply select_incl. apply SelectFacts.select_within_budget. exact Hfit.
  - destruct Hm as [Hm|Hm]; [|lia].
    assert (Hh : 1 <= m / 2) by (apply Z.div_le_lower_bound; lia).
    assert (Hh2 : 2 * (m / 2) <= m) by (pose proof (Z.mul_div_le m 2); lia).
    destruct (select comments m) as [e|selected] eqn:Esel.
    + exfalso. unfold select in Esel. rewrite Hn in Esel.
      destruct (Z.gtb_spec (len comments) m); [|lia].
      rewrite slice_from_skipn in Esel by lia.
      assert (Hrem : len (skipn (Z.to_nat (m / 2))
                            (sorted_desc recommends comments))
                     = len comments - m / 2).
      { unfold len in *. rewrite length_skipn. lia. }
      rewrite Hrem in Esel.
      destruct (Z.gtb_spec (len comments - m / 2) (m / 2)); [|lia].
      unfold floordiv in Esel.
      destruct (Z.eqb_spec (m / 2) 0); [lia|]. simpl in Esel.
      assert (Hstep : 1 <= (len comments - m / 2) / (m / 2))
        by (apply Z.div_le_lower_bound; lia).
      destruct (stride_nth (skipn (Z.to_nat (m / 2))
                              (sorted_desc recommends comments))
                  ((len comments - m / 2) / (m / 2)) ltac:(lia))
        as (strided & Hs & _).
      rewrite Hs in Esel. simpl in Esel. discriminate.
    + exists selected. split; [reflexivity|].
      split; [|eapply select_incl; exact Esel].
      unfold select in Esel. rewrite Hn in Esel.
      destruct (Z.gtb_spec (len comments) m); [|lia].
      destruct (if _ >? _ then _ else _) as [e|step]; simpl in Esel;
        [discriminate|].
      destruct (stride _ step) as [e|strided]; simpl in Esel; [discriminate|].
      injection Esel as <-. rewrite len_app.
      pose proof (slice_to_len (sorted_desc recommends comments) (m / 2)
                    ltac:(lia)).
      pose proof (slice_to_len strided (m / 2) ltac:(lia)). lia.
Qed.

(** With a budget of two or more, or a budget that the list fits, the
    selection does not raise; it holds at most as many comments as the
    budget, all of them comments of the input. *)
Theorem select_within_bounds (comments : list comment) (m : Z) :
  2 <= m \/ len comments <= m ->
  exists selected,
    select comments m = inr selected
    /\ len selected <= m
    /\ incl selected comments.
Proof. apply select_returns. Qed.

Lemma select_within_bounds_witness :
  exists selected,
    select seven_comments 3 = inr selected /\ len selected <= 3.
Proof.
  destruct (select_within_bounds seven_comments 3 ltac:(left; lia))
    as (l & H & Hl & _).
  exists l. split; [exact H | exact Hl].
Defined.

(** A batch size of zero is refused with a [ValueError]; a negative one
    gives no batch at all, so that the batched function returns the empty
    merged result, whatever the comments, without a single call. *)
Theorem batch_size_not_positive (w : world) (comments : list comment)
  (keyword : string) (article_count : Z) (t : trace) :
  (extract_commercial_opportunities_batched w comments keyword article_count
     0 None t
   = (t, inl (ValueError "range() arg 3 must not be zero")))
  /\ (forall B, B < 0 ->
        split_batches comments B = inr []
        /\ extract_commercial_opportunities_batched w comments keyword
             article_count B None t
           = (t, inr empty_merged)).
Proof.
  split.
  - reflexivity.
  - intros B HB.
    assert (Hs : split_batches comments B = inr []).
    { unfold split_batches, range.
      destruct (Z.eqb_spec B 0); [lia|]. simpl.
      destruct (Z.to_nat _); simpl; auto.
      destruct (0 <? B) eqn:E; [lia|].
      pose proof (len_nonneg (sorted_desc recommends comments)).
      destruct (Z.ltb_spec (len (sorted_desc recommends comments)) 0);
        [lia|reflexivity]. }
    split; [exact Hs|].
    unfold extract_commercial_opportunities_batched.
    rewrite Hs. reflexivity.
Qed.

Lemma batch_size_not_positive_witness :
  extract_commercial_opportunities_batched
    (PipelineSamples.a_world [] (inr None)) seven_comments "shoes" 1 (-5)
    None start
  = (start, inr empty_merged).
Proof.
  apply (batch_size_not_positive (PipelineSamples.a_world [] (inr None))
           seven_comments "shoes" 1 start).
  lia.
Defined.

End SelectionFacts.

(** ** The shape of a merged result *)

Module MergeShape.
Import PyStr PyList PyListFacts ODict ODictFacts Merge MergeSpec MergeFacts.
Import Samples.
Import Comments (get).

(** *** The sort on a sorted list *)

Lemma sorted_desc_fixed {A} (key : A -> Z) (l : list A) :
  StronglySorted (fun a b => key b <= key a) l -> sorted_desc key l = l.
Proof.
  induction 1 as [|x t Ht IH Hx]; simpl; auto.
  rewrite IH. destruct Hx as [|y t' Hy _]; simpl; auto.
  destruct (Z.leb_spec (key y) (key x)); [reflexivity|lia].
Qed.

Lemma StronglySorted_firstn {A} (R : A -> A -> Prop) (l : list A) :
  StronglySorted R l -> forall n, StronglySorted R (firstn n l).
Proof.
  induction 1 as [|x t Ht IH Hx]; intros n; destruct n; simpl;
    try constructor; auto.
  rewrite <- (firstn_skipn n t) in Hx. apply Forall_app in Hx. apply Hx.
Qed.

Lemma NoDup_firstn {A} (l : list A) (n : nat) : NoDup l -> NoDup (firstn n l).
Proof.
  intros H. rewrite <- (firstn_skipn n l) in H.
  apply NoDup_app_remove_r in H. exact H.
Qed.

Lemma Forall_firstn {A} (P : A -> Prop) (l : list A) (n : nat) :
  Forall P l -> Forall P (firstn n l).
Proof.
  intros H. rewrite <- (firstn_skipn n l) in H.
  apply Forall_app in H. apply H.
Qed.

Lemma NoDup_map_Some {A} (l : list A) : NoDup l -> NoDup (map Some l).
Proof.
  induction 1 as [|x l Hx _ IH]; simpl; constructor; auto.
  rewrite in_map_iff. intros (y & [= ->] & Hy). contradiction.
Qed.

(** *** The three dictionaries of a merge *)

Lemma reseeds_keys {K V I} (key : I -> option K) (seed : I -> V)
  (back : V -> I) (d : ODict.t) :
  reseeds key seed back d ->
  map (fun e => key (back e)) (values d) = map Some (keys d).
Proof.
  induction 1 as [|[k v] d [Hk _] _ IH]; simpl; auto.
  simpl in Hk. rewrite Hk. f_equal. exact IH.
Qed.

Lemma brand_dict (items : list brand) :
  let d := fold_left merge_brand items [] in
  NoDup (keys d) /\ reseeds brand_key brand_seed as_brand d.
Proof.
  cbv zeta. rewrite (fold_ext _ _ _ merge_brand_upsert). split.
  - apply (NoDup_keys_fold String.eqb String.eqb_spec). constructor.
  - apply (reseeds_fold String.eqb String.eqb_spec); auto;
      try (intros; split; solve [auto using brand_seed_back]); constructor.
Qed.

Lemma rec_dict (items : list recommendation) :
  let d := fold_left merge_recommendation items [] in
  NoDup (keys d) /\ reseeds rec_key rec_seed as_recommendation d.
Proof.
  cbv zeta. rewrite (fold_ext _ _ _ merge_recommendation_upsert). split.
  - apply (NoDup_keys_fold String.eqb String.eqb_spec). constructor.
  - apply (reseeds_fold String.eqb String.eqb_spec); auto;
      try (intros; split; solve [auto using rec_seed_back]); constructor.
Qed.

Lemma opp_dict (items : list opportunity) :
  let d := fold_left merge_opportunity items [] in
  NoDup (keys d) /\ reseeds opp_key (fun o => o) (fun o => o) d.
Proof.
  cbv zeta. rewrite (fold_ext _ _ _ merge_opportunity_upsert). split.
  - apply (NoDup_keys_fold pair_eqb pair_eqb_spec). constructor.
  - apply (reseeds_fold pair_eqb pair_eqb_spec); auto. constructor.
Qed.

Lemma distinct_keys {K V I} (key : I -> option K) (seed : I -> V)
  (back : V -> I) (d : ODict.t) (entries : list V) (n : nat) :
  NoDup (keys d) -> reseeds key seed back d ->
  Permutation entries (values d) ->
  NoDup (map (fun e => key (back e)) (firstn n entries))
  /\ Forall (fun e => key (back e) <> None) (firstn n entries).
Proof.
  intros Hnd Hr Hp.
  assert (H1 : NoDup (map (fun e => key (back e)) entries)).
  { eapply Permutation_NoDup.
    - symmetry. apply Permutation_map. exact Hp.
    - rewrite (reseeds_keys _ _ _ _ Hr). apply NoDup_map_Some, Hnd. }
  assert (H2 : Forall (fun e => key (back e) <> None) entries).
  { eapply Permutation_Forall; [symmetry; exact Hp|].
    unfold values. apply Forall_map.
    eapply Forall_impl; [|exact Hr]. intros [k v] [Hk _]. simpl in *.
    congruence. }
  split.
  - rewrite <- firstn_map. apply NoDup_firstn, H1.
  - apply Forall_firstn, H2.
Qed.

(** No two brands of a merged result have the same normalized name, no
    two recommendations the same normalized item, no two opportunities
    the same key, and each has one; there are at most eight
    recommendations and five opportunities. *)
Theorem merged_keys_distinct (results : list (option result)) :
  let m := merge_commercial_results results in
  NoDup (map (fun e => brand_key (as_brand e)) m.(m_brands))
  /\ Forall (fun e => brand_key (as_brand e) <> None) m.(m_brands)
  /\ NoDup (map (fun e => rec_key (as_recommendation e)) m.(m_recommendations))
  /\ Forall (fun e => rec_key (as_recommendation e) <> None)
       m.(m_recommendations)
  /\ NoDup (map opp_key m.(m_opportunities))
  /\ Forall (fun o => opp_key o <> None) m.(m_opportunities)
  /\ (List.length m.(m_recommendations) <= 8)%nat
  /\ (List.length m.(m_opportunities) <= 5)%nat.
Proof.
  cbv zeta. rewrite merge_by_incoming.
  cbn [m_brands m_recommendations m_opportunities].
  destruct (brand_dict (incoming brands results)) as [Hb1 Hb2].
  destruct (rec_dict (incoming recommendations results)) as [Hr1 Hr2].
  destruct (opp_dict (incoming opportunities results)) as [Ho1 Ho2].
  cbv zeta in *.
  pose proof (distinct_keys _ _ _ _
                (sorted_desc mentions
                   (values (fold_left merge_brand (incoming brands results) [])))
                (List.length
                   (sorted_desc mentions
                      (values (fold_left merge_brand
                                 (incoming brands results) []))))
                Hb1 Hb2 (Permutation_sym (sorted_desc_perm _ _))) as Hb.
  rewrite firstn_all in Hb.
  pose proof (distinct_keys _ _ _ _
                (sorted_desc endorsements
                   (values (fold_left merge_recommendation
                              (incoming recommendations results) [])))
                8 Hr1 Hr2 (Permutation_sym (sorted_desc_perm _ _))) as Hr.
  pose proof (distinct_keys _ _ _ _
                (values (fold_left merge_opportunity
                           (incoming opportunities results) []))
                5 Ho1 Ho2 (Permutation_refl _)) as Ho.
  cbv beta in Ho.
  repeat split; try apply Hb; try apply Hr; try apply Ho;
    rewrite length_firstn; lia.
Qed.

(** The recommendations of the merge. There is one entry per lowered
    item; it has the item, category and quote of the first occurrence
    and the sum of the endorsements of all occurrences (1 where the field
    is absent): endorsements add up, the highest is not what is kept. The
    output lists the first eight entries by descending endorsements,
    ties in first-seen order. *)
Theorem merge_recommendations_spec :
  (forall results : list (option result),
     exists entries,
       entries_by_key String.eqb rec_key rec_entry_of
         (incoming recommendations results) entries
       /\ m_recommendations (merge_commercial_results results)
          = firstn 8 (sorted_desc endorsements entries)
       /\ stable_desc_sort endorsements entries
            (sorted_desc endorsements entries))
  /\ m_recommendations
       (merge_commercial_results
          [answer []
             [{| r_item := Some "Green tea"; r_category := Some "drink";
                 r_quote := Some "first"; r_endorsements := Some 3 |};
              {| r_item := Some "green TEA"; r_category := Some "food";
                 r_quote := Some "second"; r_endorsements := Some 5 |}] []])
     = [{| item := Some "Green tea"; rec_category := "drink";
           quote := "first"; endorsements := 8 |}].
Proof.
  split; [|reflexivity].
  intros results.
  exists (values (fold_left merge_recommendation
                    (incoming recommendations results) [])).
  split; [apply rec_entries|].
  rewrite merge_by_incoming. simpl.
  split; [reflexivity | apply sorted_desc_spec].
Qed.

(** Merging a merged result alone gives it back. *)
Theorem merge_idempotent (results : list (option result)) :
  merge_commercial_results [as_result (merge_commercial_results results)]
  = merge_commercial_results results.
Proof.
  rewrite (merge_by_incoming [_]).
  replace (incoming brands [as_result (merge_commercial_results results)])
    with (map as_brand (m_brands (merge_commercial_results results)))
    by (unfold incoming; simpl; rewrite app_nil_r; reflexivity).
  replace (incoming recommendations
             [as_result (merge_commercial_results results)])
    with (map as_recommendation
            (m_recommendations (merge_commercial_results results)))
    by (unfold incoming; simpl; rewrite app_nil_r; reflexivity).
  replace (incoming opportunities
             [as_result (merge_commercial_results results)])
    with (m_opportunities (merge_commercial_results results))
    by (unfold incoming; simpl; rewrite app_nil_r; reflexivity).
  rewrite (merge_by_incoming results).
  cbn [m_brands m_recommendations m_opportunities].
  destruct (brand_dict (incoming brands results)) as [Hb1 Hb2].
  destruct (rec_dict (incoming recommendations results)) as [Hr1 Hr2].
  destruct (opp_dict (incoming opportunities results)) as [Ho1 Ho2].
  cbv zeta in *.
  set (B := sorted_desc mentions
              (values (fold_left merge_brand (incoming brands results) []))).
  set (R := sorted_desc endorsements
              (values (fold_left merge_recommendation
                         (incoming recommendations results) []))).
  set (O := values (fold_left merge_opportunity
                      (incoming opportunities results) [])).
  assert (HB : values (fold_left merge_brand (map as_brand B) []) = B).
  { rewrite (fold_ext _ _ _ merge_brand_upsert).
    pose proof (refold_entries String.eqb String.eqb_spec brand_key brand_seed
                  brand_update as_brand
                  (fold_left merge_brand (incoming brands results) [])
                  B (List.length B) Hb2 Hb1
                  (Permutation_sym (sorted_desc_perm _ _))) as H.
    rewrite firstn_all in H. exact H. }
  assert (HR : values (fold_left merge_recommendation
                         (map as_recommendation (firstn 8 R)) [])
               = firstn 8 R).
  { rewrite (fold_ext _ _ _ merge_recommendation_upsert).
    exact (refold_entries String.eqb String.eqb_spec rec_key rec_seed
             rec_update as_recommendation
             (fold_left merge_recommendation
                (incoming recommendations results) [])
             R 8 Hr2 Hr1 (Permutation_sym (sorted_desc_perm _ _))). }
  assert (HO : values (fold_left merge_opportunity (firstn 5 O) [])
               = firstn 5 O).
  { rewrite (fold_ext _ _ _ merge_opportunity_upsert).
    pose proof (refold_entries pair_eqb pair_eqb_spec opp_key (fun o => o)
                  (fun e _ => e) (fun o => o)
                  (fold_left merge_opportunity
                     (incoming opportunities results) [])
                  O 5 Ho2 Ho1 (Permutation_refl _)) as H.
    rewrite map_id in H. exact H. }
  rewrite HB, HR, HO. f_equal.
  - apply sorted_desc_fixed. apply sorted_desc_sorted.
  - rewrite sorted_desc_fixed
      by (apply StronglySorted_firstn, sorted_desc_sorted).
    rewrite firstn_firstn. reflexivity.
  - rewrite firstn_firstn. reflexivity.
Qed.

(** *** Mention totals do not depend on the order of the results *)

Lemma Permutation_filter_same {A} (f : A -> bool) (l l' : list A) :
  Permutation l l' -> Permutation (filter f l) (filter f l').
Proof.
  induction 1 as [|x l l' _ IH|x y l|l l' l'' _ IH1 _ IH2]; simpl; auto.
  - destruct (f x); auto.
  - destruct (f x), (f y); auto. apply perm_swap.
  - etransitivity; eauto.
Qed.

Lemma Permutation_incoming {A} (field : result -> option (list A)) rs rs' :
  Permutation rs rs' -> Permutation (incoming field rs) (incoming field rs').
Proof.
  unfold incoming.
  induction 1 as [|x l l' _ IH|x y l|l l' l'' _ IH1 _ IH2]; simpl; auto.
  - apply Permutation_app_head. exact IH.
  - rewrite !app_assoc. apply Permutation_app_tail, Permutation_app_comm.
  - etransitivity; eauto.
Qed.

Lemma total_perm {A} (count : A -> Z) (l l' : list A) :
  Permutation l l' -> total count l = total count l'.
Proof.
  induction 1 as [|x l l' _ IH|x y l|l l' l'' _ IH1 _ IH2]; simpl; lia.
Qed.

(** The mention totals of a brand dictionary, key by key. *)
Local Abbreviation totals_of d :=
  (map (fun kv : string * brand_entry => (fst kv, mentions (snd kv))) d).

Lemma lookup_totals k (d : brand_map) :
  lookup String.eqb k (totals_of d)
  = option_map mentions (lookup String.eqb k d).
Proof.
  induction d as [|[k' e] d IH]; simpl; auto.
  destruct (String.eqb k k'); auto.
Qed.

Lemma lookup_brand_total k (items : list brand) :
  lookup String.eqb k (totals_of (fold_left merge_brand items []))
  = match occurrences String.eqb brand_key k items with
    | [] => None
    | l => Some (total (fun b => get (b_mentions b) 1) l)
    end.
Proof.
  rewrite lookup_totals, (fold_ext _ _ _ merge_brand_upsert).
  destruct (fold_upsert_spec String.eqb String.eqb_spec brand_key brand_seed
              brand_update items) as [_ Hl].
  cbv zeta in Hl. rewrite Hl.
  destruct (occurrences String.eqb brand_key k items) as [|first later];
    [reflexivity|].
  rewrite brand_entry_fold. reflexivity.
Qed.

Lemma brand_key_name (e : brand_entry) (k : string) :
  brand_key (as_brand e) = Some k -> lower (get e.(name) "") = k.
Proof.
  unfold brand_key, as_brand. simpl.
  destruct (truthy _); [intros [= <-]; reflexivity | discriminate].
Qed.

Lemma brand_totals_dict (d : brand_map) :
  reseeds brand_key brand_seed as_brand d ->
  map brand_total (values d) = totals_of d.
Proof.
  induction 1 as [|[k e] d [Hk _] _ IH]; simpl; auto.
  simpl in Hk. apply brand_key_name in Hk.
  unfold brand_total at 1. rewrite Hk, IH. reflexivity.
Qed.

(** The mention total of every brand is the same in whatever order the
    results are merged: the merged brands of two orderings have the same
    normalized names with the same totals. *)
Theorem brand_totals_commute (results results' : list (option result)) :
  Permutation results results' ->
  Permutation
    (map brand_total (m_brands (merge_commercial_results results)))
    (map brand_total (m_brands (merge_commercial_results results'))).
Proof.
  intros Hp. rewrite !merge_by_incoming. cbn [m_brands].
  set (A := incoming brands results).
  set (A' := incoming brands results').
  assert (HA : Permutation A A') by (apply Permutation_incoming; exact Hp).
  destruct (brand_dict A) as [Hn Hr], (brand_dict A') as [Hn' Hr'].
  cbv zeta in *.
  etransitivity;
    [apply Permutation_map; symmetry; apply sorted_desc_perm|].
  etransitivity;
    [|apply Permutation_map; apply sorted_desc_perm].
  rewrite (brand_totals_dict _ Hr), (brand_totals_dict _ Hr').
  apply (same_items_perm String.eqb String.eqb_spec).
  split; [|split].
  - unfold keys in *. rewrite map_map. exact Hn.
  - unfold keys in *. rewrite map_map. exact Hn'.
  - intros k. rewrite !lookup_brand_total.
    pose proof (Permutation_filter_same
                  (fun i => match brand_key i with
                            | Some k' => String.eqb k k'
                            | None => false
                            end) A A' HA) as Ho.
    fold (occurrences String.eqb brand_key k A) in Ho.
    fold (occurrences String.eqb brand_key k A') in Ho.
    destruct (occurrences String.eqb brand_key k A) as [|x l];
      destruct (occurrences String.eqb brand_key k A') as [|x' l'].
    + reflexivity.
    + apply Permutation_nil in Ho. discriminate.
    + symmetry in Ho. apply Permutation_nil in Ho. discriminate.
    + f_equal. apply total_perm. exact Ho.
Qed.

Lemma brand_totals_commute_witness :
  Permutation
    (map brand_total
       (m_brands (merge_commercial_results
                    [answer [a_brand "Nike" 3 "neutral"] [] [];
                     answer [a_brand "NIKE" 2 "positive";
                             a_brand "Puma" 1 "mixed"] [] []])))
    (map brand_total
       (m_brands (merge_commercial_results
                    [answer [a_brand "NIKE" 2 "positive";
                             a_brand "Puma" 1 "mixed"] [] [];
                     answer [a_brand "Nike" 3 "neutral"] [] []]))).
Proof.
  apply brand_totals_commute. apply perm_swap.
Defined.

End MergeShape.

(** ** The streams of the generators *)

Module StreamFacts.
Import PyStr PyList PyListFacts Comments Merge.
Import Pipeline Batched App PipelineSpec Samples PipelineSamples.

Lemma nonterminal_app (a b : list event) :
  nonterminal (a ++ b) <-> nonterminal a /\ nonterminal b.
Proof. unfold nonterminal. rewrite forallb_app, andb_true_iff. tauto. Qed.

Lemma nonterminal_start : nonterminal (events start).
Proof. reflexivity. Qed.

(** *** Quiet computations *)

Lemma quiet_ret {A} (a : A) : quiet (ret a).
Proof. intros t H. exact H. Qed.

Lemma quiet_lift {A} (r : exn + A) : quiet (lift r).
Proof. intros t H. exact H. Qed.

Lemma quiet_yield (e : event) : is_terminal e = false -> quiet (yield e).
Proof.
  intros He t H. unfold yield. simpl. apply nonterminal_app. split; auto.
  unfold nonterminal. simpl. rewrite He. reflexivity.
Qed.

Lemma quiet_call {A} (f : nat -> string -> exn + A) (text : string) :
  quiet (analysis_call f text).
Proof. intros t H. exact H. Qed.

Lemma quiet_bind {A B} (m : M A) (k : A -> M B) :
  quiet m -> (forall a, quiet (k a)) -> quiet (bind m k).
Proof.
  intros Hm Hk t H. unfold bind. specialize (Hm t H).
  destruct (m t) as [t' [e|a]]; simpl in *; auto.
  apply Hk. exact Hm.
Qed.

Lemma quiet_try {A} (m : M A) (handler : exn -> M A) :
  quiet m -> (forall e, quiet (handler e)) -> quiet (try_except m handler).
Proof.
  intros Hm Hh t H. unfold try_except. specialize (Hm t H).
  destruct (m t) as [t' [e|a]]; simpl in *; auto.
  apply Hh. exact Hm.
Qed.

Lemma quiet_for_each {A B} (f : A -> M B) (l : list A) :
  (forall x, quiet (f x)) -> quiet (for_each f l).
Proof.
  intros Hf. induction l as [|x l IH]; simpl.
  - apply quiet_ret.
  - apply quiet_bind; [apply Hf|]. intros y.
    apply quiet_bind; [exact IH|]. intros ys. apply quiet_ret.
Qed.

Lemma quiet_for_fold {A S} (f : S -> A -> M S) (l : list A) :
  (forall s x, quiet (f s x)) -> forall s, quiet (for_fold f l s).
Proof.
  intros Hf. induction l as [|x l IH]; intros s; simpl.
  - apply quiet_ret.
  - apply quiet_bind; [apply Hf|]. exact IH.
Qed.

(** *** Computations that close the stream *)

Lemma closing_yield (e : event) : is_terminal e = true -> closing (yield e).
Proof.
  intros He t H. unfold yield. simpl. exists (events t), e. auto.
Qed.

Lemma closing_bind {A} (m : M A) (k : A -> M unit) :
  quiet m -> (forall a, closing (k a)) -> closing (bind m k).
Proof.
  intros Hm Hk t H. unfold bind. specialize (Hm t H).
  destruct (m t) as [t' [e|a]]; simpl in *; auto.
  apply Hk. exact Hm.
Qed.

(** The two handlers that end a generator turn an exception into the
    one terminal event. *)
Lemma try_report_closes (body : M unit) (t : trace) :
  closing body -> nonterminal (events t) ->
  snd (try_except body report t) = inr tt
  /\ closed_stream (events (fst (try_except body report t))).
Proof.
  intros Hb H. unfold try_except. specialize (Hb t H).
  destruct (body t) as [t' [e|[]]]; simpl in *.
  - unfold report. destruct (is_ValueError e); unfold yield; simpl;
      (split; [reflexivity|]); eexists _, _; eauto.
  - auto.
Qed.

Ltac stream :=
  repeat first
    [ apply quiet_ret
    | apply quiet_lift
    | apply quiet_call
    | apply quiet_yield; reflexivity
    | apply closing_yield; reflexivity
    | apply closing_bind; [|intros]
    | apply quiet_bind; [|intros]
    | apply quiet_try; [|intros]
    | apply quiet_for_each; intros
    | apply quiet_for_fold; intros
    | match goal with
      | |- closing (if ?c then _ else _) => destruct c
      | |- closing (match ?x with _ => _ end) => destruct x
      | |- quiet (match ?x with _ => _ end) => destruct x
      end ].

Lemma scrape_article_quiet w n acc ia : quiet (scrape_article w n acc ia).
Proof. unfold scrape_article. stream. Qed.

Lemma analyze_in_batches_closing w comments label article_count :
  closing (analyze_in_batches w comments label article_count).
Proof. unfold analyze_in_batches. stream. Qed.

(** Whatever the collaborators do, a generator does not raise and its
    stream is closed: it ends with one terminal event, a completion or an
    error, and has no other. *)
Theorem streams_always_close (w : world) :
  (forall article_url,
     let run := generate_analysis w article_url start in
     snd run = inr tt /\ closed_stream (events (fst run)))
  /\ (forall keyword limit,
        let run := generate_keyword_analysis w keyword limit start in
        snd run = inr tt /\ closed_stream (events (fst run)))
  /\ (forall section_url limit,
        let run := generate_section_analysis w section_url limit start in
        snd run = inr tt /\ closed_stream (events (fst run))).
Proof.
  split; [|split]; intros; cbv zeta;
    (apply try_report_closes; [|apply nonterminal_start]).
  - destruct (ANTHROPIC_API_KEY w); simpl; stream.
  - destruct (ANTHROPIC_API_KEY w), (GUARDIAN_API_KEY w); simpl; stream;
      first [apply scrape_article_quiet | apply analyze_in_batches_closing].
  - destruct (ANTHROPIC_API_KEY w); simpl; stream;
      first [apply scrape_article_quiet | apply analyze_in_batches_closing].
Qed.

(** *** The single-article flow, step by step *)

Lemma prepare_returns (comments : list comment) :
  exists text, prepare_comments_for_analysis comments 200 = inr text.
Proof.
  destruct (SelectionFacts.select_returns comments 200 ltac:(left; lia))
    as (selected & Hs & _).
  unfold prepare_comments_for_analysis. rewrite Hs. simpl. eauto.
Qed.

(** The single-article flow with at least one comment. The three
    analyses get the same text, in the order questions, sentiment,
    commercial. When the first two return, the stream completes whatever
    the commercial analysis does: if it raises, the empty result stands in
    for its answer. When the questions analysis raises, the stream ends
    with the error and no other analysis is called. *)
Theorem single_article_run (w : world) (article_url short_url : string)
  (f : fetched) :
  w.(ANTHROPIC_API_KEY) = true ->
  w.(extract_short_url) article_url = inr short_url ->
  w.(fetch_all_comments) short_url = inr f ->
  f_comments f <> [] ->
  let comments := f_comments f in
  let title := get (f_title f) "Unknown Article" in
  let opening :=
    [Progress "scraping" "Extracting discussion key...";
     Progress "scraping" ("Found key " ++ short_url ++ ". Fetching comments...");
     Progress "scraping" ("Scraped " ++ str_of_Z (len comments) ++ " comments");
     Result "meta"
       (ArticleMeta title article_url (len comments)
          (count_distinct (map user_id comments)) (Z.min (len comments) 200));
     Progress "preparing" "Preparing comments for analysis...";
     Progress "analyzing" "Generating discussion questions..."] in
  exists text,
    prepare_comments_for_analysis comments 200 = inr text
    /\ (forall questions sentiment,
          w.(generate_discussion_questions) 0%nat text title = inr questions ->
          w.(analyze_sentiment) 1%nat text title = inr sentiment ->
          generate_analysis w article_url start
          = ({| events :=
                  (opening
                   ++ [Result "discussionQuestions" (Answer questions);
                       Progress "analyzing" "Analyzing sentiment...";
                       Result "sentiment" (Answer sentiment);
                       Progress "analyzing"
                         "Extracting commercial opportunities...";
                       Result "commercialOpportunities"
                         (Commercial
                            match w.(extract_commercial_opportunities)
                                    2%nat text title with
                            | inr answer => answer
                            | inl _ => as_result empty_merged
                            end);
                       Complete "Analysis complete"])%list;
                calls := [text; text; text] |}, inr tt))
    /\ (forall e,
          w.(generate_discussion_questions) 0%nat text title = inl e ->
          generate_analysis w article_url start
          = ({| events :=
                  (opening
                   ++ [Error (if is_ValueError e then exn_str e
                              else "Error: " ++ exn_str e)])%list;
                calls := [text] |}, inr tt)).
Proof.
  intros Ha He Hf Hc comments title opening.
  destruct (prepare_returns comments) as (text & Ht).
  exists text. split; [exact Ht|].
  assert (Hlen : (len comments =? 0) = false).
  { apply Z.eqb_neq. unfold len, comments.
    destruct (f_comments f); [congruence|]. simpl. lia. }
  assert (Hrun : forall k : M unit,
            generate_analysis w article_url start
            = try_except
                (fun t0 =>
                   bind (analysis_call
                           (fun n text =>
                              w.(generate_discussion_questions) n text title)
                           text)
                     (fun questions =>
                        yield (Result "discussionQuestions" (Answer questions)) ;;;
                        yield (Progress "analyzing" "Analyzing sentiment...") ;;;
                        sentiment <--
                          analysis_call
                            (fun n text => w.(analyze_sentiment) n text title)
                            text ;;;
                        yield (Result "sentiment" (Answer sentiment)) ;;;
                        yield (Progress "analyzing"
                                 "Extracting commercial opportunities...") ;;;
                        commercial <--
                          try_except
                            (analysis_call
                               (fun n text =>
                                  w.(extract_commercial_opportunities)
                                    n text title)
                               text)
                            (fun _ => ret (as_result empty_merged)) ;;;
                        yield (Result "commercialOpportunities"
                                 (Commercial commercial)) ;;;
                        yield (Complete "Analysis complete"))
                     {| events := opening; calls := [] |})
                report start).
  { intros _. unfold generate_analysis, try_except. rewrite Ha. cbn [negb].
    unfold bind at 1, yield at 1. unfold bind at 1, lift at 1. rewrite He.
    unfold bind at 1, yield at 1. unfold bind at 1, lift at 1. rewrite Hf.
    fold comments. fold title. rewrite Hlen.
    unfold bind at 1, yield at 1. unfold bind at 1, yield at 1.
    unfold bind at 1, yield at 1. unfold bind at 1, lift at 1. rewrite Ht.
    unfold bind at 1, yield at 1. reflexivity. }
  rewrite (Hrun (ret tt)). clear Hrun.
  split.
  - intros questions sentiment Hq Hs.
    unfold try_except at 1, bind at 1, analysis_call at 1.
    cbn [calls events List.length]. rewrite Hq.
    unfold bind at 1, yield at 1. unfold bind at 1, yield at 1.
    unfold bind at 1, analysis_call at 1.
    cbn [calls events List.length app]. rewrite Hs.
    unfold bind at 1, yield at 1. unfold bind at 1, yield at 1.
    unfold bind at 1, try_except at 1, analysis_call at 1.
    cbn [calls events List.length app].
    destruct (extract_commercial_opportunities w 2 text title);
      reflexivity.
  - intros e Hq.
    unfold try_except at 1, bind at 1, analysis_call at 1.
    cbn [calls events List.length]. rewrite Hq.
    unfold report. destruct (is_ValueError e); reflexivity.
Qed.

Lemma single_article_run_witness :
  exists text,
    prepare_comments_for_analysis four_comments 200 = inr text
    /\ generate_analysis (a_world four_comments (inr None)) "url" start
       = ({| events :=
               [Progress "scraping" "Extracting discussion key...";
                Progress "scraping" "Found key /p/abc. Fetching comments...";
                Progress "scraping" "Scraped 4 comments";
                Result "meta" (ArticleMeta "Shoes" "url" 4 1 4);
                Progress "preparing" "Preparing comments for analysis...";
                Progress "analyzing" "Generating discussion questions...";
                Result "discussionQuestions" (Answer "[]");
                Progress "analyzing" "Analyzing sentiment...";
                Result "sentiment" (Answer "{}");
                Progress "analyzing" "Extracting commercial opportunities...";
                Result "commercialOpportunities" (Commercial first_answer);
                Complete "Analysis complete"];
             calls := [text; text; text] |}, inr tt).
Proof.
  destruct (single_article_run (a_world four_comments (inr None)) "url"
              "/p/abc"
              {| f_comments := four_comments; f_title := Some "Shoes" |}
              eq_refl eq_refl eq_refl ltac:(discriminate))
    as (text & Ht & Hrun & _).
  exists text. split; [exact Ht|].
  apply (Hrun "[]" "{}"); reflexivity.
Defined.

(** *** The loop over the articles *)

Lemma counted_app (l1 l2 : list article_with_comments) :
  counted (l1 ++ l2) = counted l1 + counted l2.
Proof. induction l1 as [|a l1 IH]; simpl; [reflexivity|]. rewrite IH. lia. Qed.

Lemma scrape_article_step (w : world) (n i : Z) (a : article)
  (all : list comment) (listed : list article_with_comments) (t : trace) :
  exists comments added evs,
    scrape_article w n (all, listed) (i, a) t
    = ({| events := (events t ++ evs)%list; calls := calls t |},
       inr ((all ++ comments)%list, (listed ++ added)%list))
    /\ len comments = counted added
    /\ Forall (fun c => article_title c = Some (a_title a)) comments
    /\ Forall (fun l => 1 <= ac_commentCount l) added
    /\ nonterminal evs
    /\ (List.length added <= 1)%nat.
Proof.
  unfold scrape_article.
  unfold bind at 1, yield at 1. unfold try_except, bind, lift.
  destruct (fetch_all_comments w (a_short_url a)) as [e|f].
  - exists [], []. eexists [_; _]. unfold yield, ret. cbn [events calls].
    rewrite (app_nil_r all), (app_nil_r listed).
    split; [rewrite <- app_assoc; reflexivity|].
    repeat split; auto.
  - unfold ret. cbn [events calls].
    exists (map (with_article_title (a_title a)) (f_comments f)).
    destruct (f_comments f) as [|c cs] eqn:Ec.
    + exists []. eexists [_]. simpl. rewrite (app_nil_r listed).
      split; [reflexivity|]. repeat split; auto.
    + eexists [_]. eexists [_]. split; [reflexivity|].
      split; [simpl; lia|].
      split; [apply Forall_map, Forall_forall; intros; reflexivity|].
      split; [repeat constructor; unfold len; simpl; lia|].
      split; [reflexivity|simpl; lia].
Qed.

Lemma scrape_loop (w : world) (n : Z) (articles : list article) :
  forall i all listed t,
  exists comments added evs,
    for_fold (scrape_article w n) (enumerate articles i) (all, listed) t
    = ({| events := (events t ++ evs)%list; calls := calls t |},
       inr ((all ++ comments)%list, (listed ++ added)%list))
    /\ len comments = counted added
    /\ Forall (fun c => exists a, In a articles
                                  /\ article_title c = Some (a_title a))
         comments
    /\ Forall (fun l => 1 <= ac_commentCount l) added
    /\ nonterminal evs
    /\ (List.length added <= List.length articles)%nat.
Proof.
  induction articles as [|a articles IH]; intros i all listed t.
  - exists [], [], []. simpl. unfold ret. rewrite !app_nil_r.
    destruct t. repeat split; auto.
  - change (for_fold (scrape_article w n) (enumerate (a :: articles) i)
              (all, listed) t)
      with (bind (scrape_article w n (all, listed) (i, a))
              (for_fold (scrape_article w n) (enumerate articles (i + 1))) t).
    unfold bind at 1.
    destruct (scrape_article_step w n i a all listed t)
      as (c1 & l1 & e1 & -> & Hc1 & Ht1 & Hl1 & He1 & Hn1).
    destruct (IH (i + 1) (all ++ c1)%list (listed ++ l1)%list
                {| events := (events t ++ e1)%list; calls := calls t |})
      as (c2 & l2 & e2 & -> & Hc2 & Ht2 & Hl2 & He2 & Hn2).
    exists (c1 ++ c2)%list, (l1 ++ l2)%list, (e1 ++ e2)%list.
    cbn [events calls]. rewrite <- !app_assoc.
    split; [reflexivity|].
    split; [rewrite len_app, counted_app; lia|].
    split.
    { apply Forall_app. split.
      - eapply Forall_impl; [|exact Ht1]. intros c Hc.
        exists a. split; [left; reflexivity | exact Hc].
      - eapply Forall_impl; [|exact Ht2]. intros c (a' & Ha' & Hc).
        exists a'. split; [right; exact Ha' | exact Hc]. }
    split; [apply Forall_app; auto|].
    split; [apply nonterminal_app; auto|].
    rewrite length_app. simpl. lia.
Qed.

(** The loop over the articles never raises and calls no analysis. The
    comments it collects are as many as the counts of the articles it
    lists add up to; each carries the title of one of the articles; a
    listed article has at least one comment; an article whose fetch
    raises leaves a warning only. *)
Theorem scrape_accounts (w : world) (articles : list article) (t : trace) :
  exists all_comments articles_with_comments evs,
    for_fold (scrape_article w (len articles)) (enumerate articles 0)
      ([], []) t
    = ({| events := (events t ++ evs)%list; calls := calls t |},
       inr (all_comments, articles_with_comments))
    /\ len all_comments = counted articles_with_comments
    /\ Forall (fun c => exists a, In a articles
                                  /\ article_title c = Some (a_title a))
         all_comments
    /\ Forall (fun l => 1 <= ac_commentCount l) articles_with_comments
    /\ nonterminal evs
    /\ len articles_with_comments <= len articles.
Proof.
  destruct (scrape_loop w (len articles) articles 0 [] [] t)
    as (c & l & e & H & H1 & H2 & H3 & H4 & H5).
  exists c, l, e. simpl in H. rewrite H.
  repeat split; auto. unfold len. lia.
Qed.

End StreamFacts.

(** ** Reading the answer of the AnalysisClient *)

Module AnswerFacts.
Import PyStr Merge MergeSpec MergeFacts Answers Samples.

Lemma append_assoc (a b c : string) : ((a ++ b) ++ c = a ++ (b ++ c))%string.
Proof. induction a as [|x a IH]; simpl; [reflexivity|]. rewrite IH. reflexivity. Qed.

Lemma after_first_open_found (pre r : string) :
  occurs open_brace pre = false ->
  after_first_open (pre ++ String open_brace r) = Some r.
Proof.
  induction pre as [|c pre IH]; simpl; auto.
  intros H. apply orb_false_iff in H as [Hc Hp]. rewrite Hc. auto.
Qed.

Lemma after_first_open_spec (s r : string) :
  after_first_open s = Some r ->
  exists pre, s = (pre ++ String open_brace r)%string
              /\ occurs open_brace pre = false.
Proof.
  revert r. induction s as [|c s IH]; intros r; simpl; [discriminate|].
  destruct (Ascii.eqb_spec c open_brace) as [->|Hne].
  - intros [= ->]. exists EmptyString. auto.
  - intros H. destruct (IH r H) as (pre & -> & Hp).
    exists (String c pre). simpl. split; [reflexivity|].
    destruct (Ascii.eqb_spec c open_brace); [contradiction|]. exact Hp.
Qed.

Lemma after_first_open_none (s : string) :
  after_first_open s = None -> occurs open_brace s = false.
Proof.
  induction s as [|c s IH]; simpl; auto.
  destruct (Ascii.eqb c open_brace); [discriminate|]. exact IH.
Qed.

Lemma upto_last_close_none (s : string) :
  upto_last_close s = None <-> occurs close_brace s = false.
Proof.
  induction s as [|c s IH]; simpl; [tauto|].
  destruct (upto_last_close s) as [p|].
  - split; [discriminate|]. intros H.
    apply orb_false_iff in H as [_ H]. apply IH in H. discriminate.
  - destruct (Ascii.eqb c close_brace); simpl.
    + split; discriminate.
    + split; intros _; [apply IH|]; reflexivity.
Qed.

Lemma upto_last_close_found (body post : string) :
  occurs close_brace post = false ->
  upto_last_close (body ++ String close_brace post)
  = Some (body ++ String close_brace EmptyString)%string.
Proof.
  intros Hp. apply upto_last_close_none in Hp.
  induction body as [|c body IH]; simpl.
  - rewrite Hp. reflexivity.
  - rewrite IH. reflexivity.
Qed.

Lemma upto_last_close_spec (s p : string) :
  upto_last_close s = Some p ->
  exists body post,
    p = (body ++ String close_brace EmptyString)%string
    /\ s = (p ++ post)%string
    /\ occurs close_brace post = false.
Proof.
  revert p. induction s as [|c s IH]; intros p; simpl; [discriminate|].
  destruct (upto_last_close s) as [q|] eqn:E.
  - intros [= <-]. destruct (IH q eq_refl) as (body & post & -> & Hs & Hp).
    exists (String c body), post. simpl. rewrite Hs at 1. auto.
  - destruct (Ascii.eqb_spec c close_brace) as [->|]; [|discriminate].
    intros [= <-]. exists EmptyString, s. simpl.
    apply upto_last_close_none in E. auto.
Qed.

Lemma occurs_app (c : ascii) (a b : string) :
  occurs c (a ++ b) = occurs c a || occurs c b.
Proof.
  induction a as [|x a IH]; simpl; [reflexivity|].
  rewrite IH, orb_assoc. reflexivity.
Qed.

(** The match of the brace pattern. When there is one, the text reads
    [pre ++ "{" ++ body ++ "}" ++ post] with no ["{"] in [pre] and no
    ["}"] in [post], and the match is ["{" ++ body ++ "}"]: it runs from
    the first ["{"] to the last ["}"]. There is none exactly when no ["}"]
    comes after a ["{"]. *)
Theorem search_braces_spec (text : string) :
  match search_braces text with
  | Some matched =>
      exists pre body post,
        text = (pre ++ String open_brace body
                    ++ String close_brace post)%string
        /\ matched = String open_brace (body ++ String close_brace EmptyString)
        /\ occurs open_brace pre = false
        /\ occurs close_brace post = false
  | None =>
      forall pre body post,
        text <> (pre ++ String open_brace body
                     ++ String close_brace post)%string
  end.
Proof.
  unfold search_braces.
  destruct (after_first_open text) as [r|] eqn:Ea.
  - destruct (after_first_open_spec _ _ Ea) as (pre & -> & Hpre).
    destruct (upto_last_close r) as [p|] eqn:Eu.
    + destruct (upto_last_close_spec _ _ Eu) as (body & post & -> & Hr & Hpost).
      exists pre, body, post. rewrite Hr at 1.
      rewrite append_assoc. simpl. auto.
    + intros pre' body post H.
      apply upto_last_close_none in Eu.
      (* the closing brace of the other reading lies after the first
         opening brace *)
      assert (Hr : exists q, r = (q ++ String close_brace post)%string).
      { clear Eu Ea. revert pre' H.
        induction pre as [|c pre IH]; intros pre' H; simpl in *.
        - destruct pre' as [|d pre']; simpl in H.
          + injection H as ->. eauto.
          + injection H as <- ->.
            exists (pre' ++ String open_brace body)%string.
            rewrite append_assoc. reflexivity.
        - apply orb_false_iff in Hpre as [Hc Hp].
          destruct pre' as [|d pre']; simpl in H.
          + injection H as -> _. rewrite Ascii.eqb_refl in Hc. discriminate.
          + injection H as _ H. apply (IH Hp pre' H). }
      destruct Hr as (q & ->).
      rewrite occurs_app in Eu. simpl in Eu.
      rewrite ?Ascii.eqb_refl, ?orb_true_r in Eu. discriminate.
  - intros pre body post H. apply after_first_open_none in Ea.
    rewrite H, occurs_app in Ea. simpl in Ea.
    rewrite ?Ascii.eqb_refl, ?orb_true_r in Ea. discriminate.
Qed.

Lemma search_braces_found (pre body post : string) :
  occurs open_brace pre = false -> occurs close_brace post = false ->
  search_braces (pre ++ String open_brace body ++ String close_brace post)
  = Some (String open_brace (body ++ String close_brace EmptyString)).
Proof.
  intros Hpre Hpost. unfold search_braces.
  change (String open_brace body ++ String close_brace post)%string
    with (String open_brace (body ++ String close_brace post)).
  rewrite after_first_open_found by assumption.
  rewrite upto_last_close_found by assumption. reflexivity.
Qed.

(** An object wrapped in prose is recovered: when the text as a whole
    does not parse but reads [pre ++ object ++ post], the object running
    from the first ["{"] of the text to its last ["}"], the answer is
    what [json.loads] reads in the object. *)
Theorem object_in_prose_recovered (loads : string -> string + option result)
  (pre body post msg : string) (value : option result) :
  let object := String open_brace (body ++ String close_brace EmptyString) in
  let text := (pre ++ String open_brace body ++ String close_brace post)%string in
  occurs open_brace pre = false -> occurs close_brace post = false ->
  loads text = inl msg -> loads object = inr value ->
  parse_answer loads text = inr value.
Proof.
  intros object text Hpre Hpost Ht Ho. unfold parse_answer.
  rewrite Ht. unfold text. rewrite search_braces_found by assumption.
  fold object. rewrite Ho. reflexivity.
Qed.

Lemma object_in_prose_recovered_witness :
  parse_answer
    (fun s => if String.eqb s "{}" then inr empty_dict else inl "Expecting value")
    "Here you are: {} Enjoy."
  = inr empty_dict.
Proof.
  apply (object_in_prose_recovered
           (fun s => if String.eqb s "{}" then inr empty_dict
                     else inl "Expecting value")
           "Here you are: " "" " Enjoy." "Expecting value" empty_dict);
    reflexivity.
Defined.

(** An answer that does not parse and has no ["}"] after a ["{"] becomes
    the error-tagged result, which carries the text; the merge skips
    it, so that it changes the merge of no list of results. *)
Theorem unparsable_answer_skipped (loads : string -> string + option result)
  (text msg : string) (results : list (option result)) :
  loads text = inl msg ->
  (forall pre body post,
     text <> (pre ++ String open_brace body ++ String close_brace post)%string) ->
  parse_answer loads text = inr (error_result text)
  /\ skipped (error_result text) = true
  /\ merge_commercial_results (results ++ [error_result text])
     = merge_commercial_results results.
Proof.
  intros Ht Hno. unfold parse_answer. rewrite Ht.
  pose proof (search_braces_spec text) as Hs.
  destruct (search_braces text) as [m|].
  - destruct Hs as (pre & body & post & H & _). exfalso. eapply Hno, H.
  - split; [reflexivity|]. split; [reflexivity|].
    rewrite (merge_filter_skipped (results ++ [_])), filter_app. simpl.
    rewrite app_nil_r. symmetry. apply merge_filter_skipped.
Qed.

Lemma unparsable_answer_skipped_witness :
  parse_answer (fun _ => inl "Expecting value") "I cannot help with that."
  = inr (error_result "I cannot help with that.").
Proof.
  apply (unparsable_answer_skipped (fun _ => inl "Expecting value")
           "I cannot help with that." "Expecting value" []).
  - reflexivity.
  - pose proof (search_braces_spec "I cannot help with that.") as H.
    exact H.
Defined.

(** An answer that does not parse but has a ["}"] after a ["{"] never
    becomes the error-tagged result by default: either the part from the
    first ["{"] to the last ["}"] parses and is the answer, or the second
    [json.loads] raises its [ValueError] out of the function. *)
Theorem braces_that_do_not_parse_raise
  (loads : string -> string + option result)
  (pre body post msg : string) :
  let text := (pre ++ String open_brace body ++ String close_brace post)%string in
  loads text = inl msg ->
  exists matched,
    search_braces text = Some matched
    /\ parse_answer loads text
       = match loads matched with
         | inr value => inr value
         | inl msg' => inl (ValueError msg')
         end.
Proof.
  intros text Ht. unfold parse_answer. rewrite Ht.
  pose proof (search_braces_spec text) as Hs.
  destruct (search_braces text) as [m|].
  - exists m. split; reflexivity.
  - exfalso. eapply Hs. reflexivity.
Qed.

Lemma braces_that_do_not_parse_raise_witness :
  parse_answer (fun _ => inl "Expecting property name") "{oops}"
  = inl (ValueError "Expecting property name").
Proof.
  destruct (braces_that_do_not_parse_raise
              (fun _ => inl "Expecting property name")
              "" "oops" "" "Expecting property name" eq_refl)
    as (m & _ & H).
  exact H.
Defined.

End AnswerFacts.

(** ** Fetching a discussion, page by page *)

Module ScraperFacts.
Import PyStr PyList PyListFacts Comments Scraper Samples.

Lemma pages_from_S (page : Z) (k : nat) :
  pages_from page (S k) = page :: pages_from (page + 1) k.
Proof.
  unfold pages_from. simpl. f_equal; [f_equal; lia|].
  rewrite <- seq_shift, map_map. apply map_ext. intros i. lia.
Qed.

Lemma pages_from_snoc (page : Z) (k : nat) :
  pages_from page (S k) = (pages_from page k ++ [page + Z.of_nat k])%list.
Proof.
  unfold pages_from. rewrite seq_S, map_app. reflexivity.
Qed.

Section Loop.
Context (get_page : Z -> exn + discussion_page).

(** The loop past the first page, when every page up to the last
    answers. *)
Lemma fetch_pages_all (k : nat) : forall fuel page total title all requested,
  2 <= page -> Z.of_nat k = Z.max 0 (total - page + 1) -> (k <= fuel)%nat ->
  (forall p, page <= p <= total -> exists data, get_page p = inr data) ->
  fetch_pages get_page fuel page total title all requested
  = ((requested ++ pages_from page k)%list,
     Some (inr {| sc_title := title;
                  sc_comments :=
                    (all ++ flat_map (page_comments get_page)
                              (pages_from page k))%list;
                  sc_totalFetched :=
                    len (all ++ flat_map (page_comments get_page)
                                 (pages_from page k)) |})).
Proof.
  induction k as [|k IH]; intros fuel page total title all requested Hp Ht Hf Hall.
  - assert (E : (page <=? total) = false) by (apply Z.leb_gt; lia).
    destruct fuel; simpl; rewrite E; simpl; rewrite !app_nil_r; reflexivity.
  - destruct fuel as [|fuel]; [lia|].
    assert (E : (page <=? total) = true) by (apply Z.leb_le; lia).
    simpl fetch_pages. rewrite E.
    destruct (Hall page ltac:(lia)) as (data & Hd). rewrite Hd.
    destruct (Z.eqb_spec page 1); [lia|].
    rewrite (IH fuel (page + 1) total) by (try lia; intros; apply Hall; lia).
    assert (Hc : page_comments get_page page = get (pg_comments data) [])
      by (unfold page_comments; rewrite Hd; reflexivity).
    rewrite pages_from_S. simpl flat_map. rewrite Hc.
    rewrite <- !app_assoc. reflexivity.
Qed.

(** The loop past the first page, when a page raises after [j] pages
    that answer. *)
Lemma fetch_pages_raise (j : nat) : forall fuel page total title all requested e,
  2 <= page -> page + Z.of_nat j <= total -> (j < fuel)%nat ->
  (forall p, page <= p < page + Z.of_nat j -> exists data, get_page p = inr data) ->
  get_page (page + Z.of_nat j) = inl e ->
  fetch_pages get_page fuel page total title all requested
  = ((requested ++ pages_from page (S j))%list, Some (inl e)).
Proof.
  induction j as [|j IH]; intros fuel page total title all requested e
                                 Hp Ht Hf Hall He.
  - destruct fuel as [|fuel]; [lia|].
    assert (E : (page <=? total) = true) by (apply Z.leb_le; lia).
    simpl fetch_pages. rewrite E.
    replace (page + Z.of_nat 0) with page in He by lia. rewrite He.
    unfold pages_from. simpl. repeat f_equal. lia.
  - destruct fuel as [|fuel]; [lia|].
    assert (E : (page <=? total) = true) by (apply Z.leb_le; lia).
    simpl fetch_pages. rewrite E.
    destruct (Hall page ltac:(lia)) as (data & Hd). rewrite Hd.
    destruct (Z.eqb_spec page 1); [lia|].
    rewrite (IH fuel (page + 1) total _ _ _ e); try lia.
    + rewrite (pages_from_S page (S j)). rewrite <- !app_assoc. reflexivity.
    + intros p Hrange. apply Hall. lia.
    + replace (page + 1 + Z.of_nat j) with (page + Z.of_nat (S j)) by lia.
      exact He.
Qed.

(** When every page answers, [fetch_all_comments] asks for the pages
    1 to [n] once each, in order, [n] being the page count the first
    page announces, or 1 when it announces none or less than one; it
    returns the comments of these pages in page order, their number, and
    the title of the first page. Fuel for [n] turns of the loop is
    enough. *)
Theorem fetch_all_pages (first : discussion_page) (fuel : nat) :
  get_page 1 = inr first ->
  let n := Z.to_nat (Z.max 1 (get (pg_pages first) 1)) in
  (forall p, 2 <= p <= Z.of_nat n -> exists data, get_page p = inr data) ->
  (n <= fuel)%nat ->
  fetch_all_comments get_page fuel
  = (pages_from 1 n,
     Some (inr {| sc_title := pg_title first;
                  sc_comments :=
                    flat_map (page_comments get_page) (pages_from 1 n);
                  sc_totalFetched :=
                    len (flat_map (page_comments get_page)
                           (pages_from 1 n)) |})).
Proof.
  intros H1 n Hall Hf.
  destruct fuel as [|fuel]; [lia|].
  unfold fetch_all_comments. simpl fetch_pages. rewrite H1. simpl.
  assert (Hn : exists k, n = S k) by (exists (Nat.pred n); lia).
  destruct Hn as (k & Hk).
  rewrite (fetch_pages_all k).
  - assert (Hc : page_comments get_page 1 = get (pg_comments first) [])
      by (unfold page_comments; rewrite H1; reflexivity).
    rewrite Hk, pages_from_S. simpl flat_map. rewrite Hc. reflexivity.
  - lia.
  - lia.
  - lia.
  - intros p Hp. apply Hall. lia.
Qed.

(** When a page raises and the pages before it answer, the first page
    announcing at least that many pages, [fetch_all_comments] raises the
    same, after asking for that page and the pages before it and for no
    other; nothing of what was fetched is returned. *)
Theorem fetch_page_failure (fuel : nat) (e : exn) (failing : Z) :
  1 <= failing ->
  (forall p, 1 <= p < failing -> exists data, get_page p = inr data) ->
  (forall first, get_page 1 = inr first ->
                 failing <= get (pg_pages first) 1) ->
  get_page failing = inl e ->
  (Z.to_nat failing <= fuel)%nat ->
  fetch_all_comments get_page fuel
  = (pages_from 1 (Z.to_nat failing), Some (inl e)).
Proof.
  intros Hpos Hall Hcount He Hf.
  destruct fuel as [|fuel]; [lia|].
  unfold fetch_all_comments. simpl fetch_pages.
  destruct (Z.eq_dec failing 1) as [->|Hne].
  - rewrite He. reflexivity.
  - destruct (Hall 1 ltac:(lia)) as (first & H1). rewrite H1. simpl.
    specialize (Hcount first H1).
    assert (Hj : exists j, Z.to_nat failing = S (S j))
      by (exists (Z.to_nat failing - 2)%nat; lia).
    destruct Hj as (j & Hj). rewrite Hj.
    replace failing with (2 + Z.of_nat j) in * by lia.
    rewrite (fetch_pages_raise j fuel 2 _ _ _ _ e).
    + rewrite (pages_from_S 1). reflexivity.
    + lia.
    + lia.
    + lia.
    + intros p Hp. apply Hall. lia.
    + exact He.
Qed.
End Loop.

Lemma fetch_all_pages_witness :
  fetch_all_comments three_pages 3
  = ([1; 2; 3],
     Some (inr {| sc_title := Some "Shoes";
                  sc_comments :=
                    [sample 1 "a"; sample 7 "b"; sample 3 "c"; sample 5 "d"];
                  sc_totalFetched := 4 |})).
Proof.
  apply (fetch_all_pages three_pages (page_of 3 [sample 1 "a"; sample 7 "b"]) 3).
  - reflexivity.
  - intros p Hp. simpl in Hp.
    assert (Hc : p = 2 \/ p = 3) by lia.
    destruct Hc as [-> | ->]; eexists; reflexivity.
  - simpl. lia.
Defined.

Lemma fetch_page_failure_witness :
  fetch_all_comments second_page_fails 2
  = ([1; 2], Some (inl (Exception "503"))).
Proof.
  apply (fetch_page_failure second_page_fails 2 (Exception "503") 2).
  - lia.
  - intros p Hp. assert (Hc : p = 1) by lia. subst p.
    eexists; reflexivity.
  - intros first Hfirst. injection Hfirst as <-. simpl. lia.
  - reflexivity.
  - simpl. lia.
Defined.

End ScraperFacts.

(** ** Discussion keys *)

Module KeyFacts.
Import PyStr PyList PyListFacts Comments Keys.

Lemma strip_prefix_app (p : string) : forall s r,
  strip_prefix p s = Some r -> s = (p ++ r)%string.
Proof.
  induction p as [|a p IH]; intros s r H; simpl in *.
  - congruence.
  - destruct s as [|b s]; [discriminate|].
    destruct (Ascii.eqb_spec a b) as [->|]; [|discriminate].
    f_equal. apply IH. exact H.
Qed.

Lemma strip_prefix_found (p r : string) :
  strip_prefix p (p ++ r) = Some r.
Proof.
  induction p as [|a p IH]; simpl; [reflexivity|].
  rewrite Ascii.eqb_refl. exact IH.
Qed.

Lemma key_span_app (s : string) : forall body rest,
  key_span s = (body, rest) ->
  s = (body ++ rest)%string /\ all_chars is_key_char body = true.
Proof.
  induction s as [|c s IH]; intros body rest H; simpl in H.
  - injection H as <- <-. split; reflexivity.
  - destruct (is_key_char c) eqn:Ec.
    + destruct (key_span s) as [b r] eqn:Es.
      injection H as <- <-.
      destruct (IH b r eq_refl) as (-> & Hb).
      split; [reflexivity|]. simpl. rewrite Ec. exact Hb.
    + injection H as <- <-. split; reflexivity.
Qed.

(** A run that starts with a character of the class is not empty. *)
Lemma key_span_starts (c : ascii) (s : string) :
  is_key_char c = true -> fst (key_span (String c s)) <> EmptyString.
Proof.
  intros Hc. simpl. rewrite Hc.
  destruct (key_span s). simpl. discriminate.
Qed.

Lemma lstrip_suffix (s : string) : exists m, s = (m ++ lstrip s)%string.
Proof.
  induction s as [|c s (m & IH)]; simpl.
  - exists EmptyString. reflexivity.
  - destruct (is_space c).
    + exists (String c m). simpl. f_equal. exact IH.
    + exists EmptyString. reflexivity.
Qed.

Lemma match_pieces_suffix (ps : list piece) : forall s r,
  match_pieces ps s = Some r -> exists m, s = (m ++ r)%string.
Proof.
  induction ps as [|[l| |l] ps IH]; intros s r H; simpl in H.
  - injection H as <-. exists EmptyString. reflexivity.
  - destruct (strip_prefix l s) as [r'|] eqn:El; [|discriminate].
    apply strip_prefix_app in El. destruct (IH _ _ H) as (m & ->).
    exists (l ++ m)%string. rewrite El.
    symmetry. apply AnswerFacts.append_assoc.
  - destruct (IH _ _ H) as (m & Hm).
    destruct (lstrip_suffix s) as (m' & Hs).
    exists (m' ++ m)%string. rewrite AnswerFacts.append_assoc, <- Hm.
    exact Hs.
  - destruct (strip_prefix l s) as [r'|] eqn:El.
    + apply strip_prefix_app in El. destruct (IH _ _ H) as (m & ->).
      exists (l ++ m)%string. rewrite El.
      symmetry. apply AnswerFacts.append_assoc.
    + exact (IH _ _ H).
Qed.

Lemma is_key_built (body : string) :
  body <> EmptyString -> all_chars is_key_char body = true ->
  is_key ("/p/" ++ body) = true.
Proof.
  intros Hne Hall. unfold is_key.
  rewrite strip_prefix_found. rewrite Hall.
  destruct body; [congruence|reflexivity].
Qed.

Lemma match_at_spec (p : pattern) (s k : string) :
  match_at p s = Some k ->
  is_key k = true /\ exists pre post, s = (pre ++ k ++ post)%string.
Proof.
  unfold match_at. intros H.
  destruct (match_pieces (before p) s) as [r|] eqn:Eb; [|discriminate].
  destruct (strip_prefix "/p/" r) as [r'|] eqn:Ep; [|discriminate].
  destruct (key_span r') as [body rest] eqn:Ek.
  destruct (key_span_app _ _ _ Ek) as (Hr' & Hall).
  destruct body as [|c body]; [discriminate|].
  destruct (match_pieces (after p) rest) as [r''|]; [|discriminate].
  injection H as <-.
  split; [apply is_key_built; [discriminate|exact Hall]|].
  apply match_pieces_suffix in Eb. destruct Eb as (m & ->).
  apply strip_prefix_app in Ep. subst r r'.
  exists m, rest. reflexivity.
Qed.

Lemma search_found (p : pattern) (s : string) : forall k,
  search p s = Some k ->
  is_key k = true /\ exists pre post, s = (pre ++ k ++ post)%string.
Proof.
  induction s as [|c s IH]; intros k H.
  - simpl in H. destruct (match_at p "") eqn:E; [|discriminate].
    injection H as <-. exact (match_at_spec _ _ _ E).
  - simpl in H. destruct (match_at p (String c s)) eqn:E.
    + injection H as <-. exact (match_at_spec _ _ _ E).
    + destruct (IH _ H) as (Hk & pre & post & ->).
      split; [exact Hk|]. exists (String c pre), post. reflexivity.
Qed.

(** The bare pattern matches at the start of [s] exactly when [s]
    starts with [/p/] and a character of the class. *)
Lemma match_at_bare (s : string) :
  match_at bare_key s = None <->
  (forall c post, s = ("/p/" ++ String c post)%string ->
                  is_key_char c = false).
Proof.
  unfold match_at, bare_key. simpl match_pieces. split.
  - intros H c post ->.
    rewrite strip_prefix_found in H.
    destruct (is_key_char c) eqn:Ec; [|reflexivity].
    pose proof (key_span_starts c post Ec) as Hne.
    destruct (key_span (String c post)) as [[|b body] rest];
      [simpl in Hne; congruence|discriminate].
  - intros H.
    destruct (strip_prefix "/p/" s) as [r|] eqn:Ep; [|reflexivity].
    apply strip_prefix_app in Ep.
    destruct r as [|c r]; [reflexivity|].
    specialize (H c r Ep). simpl. rewrite H. reflexivity.
Qed.

(** An item of the results adds at most one article, and its key is
    well formed. *)
Lemma add_item_keys (articles : list found_article) (item : search_item) :
  Forall (fun a => is_key (sa_short_url a) = true) articles ->
  Forall (fun a => is_key (sa_short_url a) = true) (add_item articles item)
  /\ (List.length (add_item articles item) <= S (List.length articles))%nat.
Proof.
  intros H. unfold add_item.
  destruct (search bare_key (get (shortUrl item) "")) as [key|] eqn:E.
  - apply search_found in E. destruct E as (Hk & _). split.
    + apply Forall_app. split; [exact H|].
      constructor; [exact Hk|constructor].
    + rewrite length_app. simpl. lia.
  - split; [exact H|lia].
Qed.

Lemma fold_add_item_keys (results : list search_item) : forall articles,
  Forall (fun a => is_key (sa_short_url a) = true) articles ->
  Forall (fun a => is_key (sa_short_url a) = true)
    (fold_left add_item results articles)
  /\ (List.length (fold_left add_item results articles)
      <= List.length articles + List.length results)%nat.
Proof.
  induction results as [|item results IH]; intros articles H; simpl.
  - split; [exact H|lia].
  - destruct (add_item_keys articles item H) as (Hk & Hl).
    destruct (IH _ Hk) as (Hk' & Hl'). split; [exact Hk'|lia].
Qed.

(** The key [extract_short_url] returns is [/p/] followed by one or
    more of [a-z0-9], and it stands in the text of the page. *)
Theorem extract_short_url_key (page : string -> exn + string)
  (article_url key : string) :
  extract_short_url page article_url = inr key ->
  is_key key = true
  /\ exists text pre post,
       page article_url = inr text /\ text = (pre ++ key ++ post)%string.
Proof.
  unfold extract_short_url. intros H.
  destruct (page article_url) as [e|text]; [discriminate|].
  assert (Hfound : exists p, search p text = Some key).
  { destruct (search short_url_field text) as [k|] eqn:E1.
    - injection H as <-. eauto.
    - destruct (search short_url_attribute text) as [k|] eqn:E2.
      + injection H as <-. eauto.
      + destruct (search discussion_id_field text) as [k|] eqn:E3.
        * injection H as <-. eauto.
        * discriminate. }
  destruct Hfound as (p & Hp).
  destruct (search_found _ _ _ Hp) as (Hk & pre & post & Ht).
  split; [exact Hk|]. exists text, pre, post. split; [reflexivity|exact Ht].
Qed.

Lemma extract_short_url_key_witness :
  is_key "/p/x7y2z" = true
  /\ exists text pre post,
       (fun _ : string => @inr exn string page_with_field) "u" = inr text
       /\ text = (pre ++ "/p/x7y2z" ++ post)%string.
Proof.
  apply (extract_short_url_key (fun _ => inr page_with_field) "u" "/p/x7y2z").
  reflexivity.
Defined.

Lemma key_span_exact (body : string) (c : ascii) (rest : string) :
  all_chars is_key_char body = true -> is_key_char c = false ->
  key_span (body ++ String c rest) = (body, String c rest).
Proof.
  intros Hall Hc. induction body as [|b body IH]; simpl in *.
  - rewrite Hc. reflexivity.
  - apply andb_prop in Hall. destruct Hall as (Hb & Hall).
    rewrite Hb, (IH Hall). reflexivity.
Qed.

Lemma search_reaches (p : pattern) (pre : string) : forall s k,
  match_at p s = Some k -> search p (pre ++ s) <> None.
Proof.
  intros s k H. induction pre as [|a pre IH].
  - change (search p ("" ++ s)) with (search p s).
    destruct s; simpl; rewrite H; discriminate.
  - change (search p (String a pre ++ s))
      with (match match_at p (String a (pre ++ s)) with
            | Some k => Some k
            | None => search p (pre ++ s)
            end).
    destruct (match_at p (String a (pre ++ s))); [discriminate|exact IH].
Qed.

(** A page that holds [data-short-url="k"] for a well formed key [k]
    gives a key: [extract_short_url] does not raise on it. *)
Theorem attribute_gives_key (page : string -> exn + string)
  (article_url pre key post : string) :
  page article_url
  = inr (pre ++ "data-short-url=" ++ quoted key ++ post)%string ->
  is_key key = true ->
  exists found, extract_short_url page article_url = inr found.
Proof.
  intros Hpage Hkey. unfold extract_short_url. rewrite Hpage.
  destruct (search short_url_field _) as [k|]; [eauto|].
  assert (Hm : match_at short_url_attribute
                 ("data-short-url=" ++ quoted key ++ post) = Some key).
  { unfold is_key in Hkey.
    destruct (strip_prefix "/p/" key) as [body|] eqn:Ep; [|discriminate].
    apply strip_prefix_app in Ep. subst key.
    apply andb_prop in Hkey. destruct Hkey as (Hne & Hall).
    assert (Htext :
              ("data-short-url=" ++ quoted ("/p/" ++ body) ++ post)%string
              = (("data-short-url=" ++ String quote "")
                 ++ "/p/" ++ body ++ String quote post)%string).
    { unfold quoted. simpl. rewrite AnswerFacts.append_assoc. reflexivity. }
    rewrite Htext. unfold match_at.
    change (before short_url_attribute)
      with [Lit ("data-short-url=" ++ String quote "")].
    change (after short_url_attribute) with [Lit (String quote "")].
    cbn [match_pieces].
    rewrite strip_prefix_found, strip_prefix_found.
    rewrite (key_span_exact body quote post Hall eq_refl).
    destruct body as [|b body]; [discriminate|].
    change (String quote post) with (String quote "" ++ post)%string.
    rewrite strip_prefix_found. reflexivity. }
  pose proof (search_reaches short_url_attribute pre _ _ Hm) as Hs.
  destruct (search short_url_attribute _) as [k|]; [eauto|congruence].
Qed.

Lemma attribute_gives_key_witness :
  exists found,
    extract_short_url
      (fun _ => inr ("<a " ++ "data-short-url=" ++ quoted "/p/abc" ++ ">"))
      "u"
    = inr found.
Proof.
  apply (attribute_gives_key _ "u" "<a " "/p/abc" ">");
    reflexivity.
Defined.

(** [re.search] with the pattern [(/p/[a-z0-9]+)] finds nothing exactly
    in the strings where no [/p/] is followed by one of [a-z0-9]. *)
Theorem search_bare_key_none (s : string) :
  search bare_key s = None <->
  (forall pre c post, s = (pre ++ "/p/" ++ String c post)%string ->
                      is_key_char c = false).
Proof.
  induction s as [|a s IH].
  - split.
    + intros _ pre c post H. destruct pre; discriminate.
    + intros _. reflexivity.
  - change (search bare_key (String a s))
      with (match match_at bare_key (String a s) with
            | Some k => Some k
            | None => search bare_key s
            end).
    split.
    + intros H pre c post Hs.
      destruct (match_at bare_key (String a s)) eqn:E; [discriminate|].
      destruct pre as [|b pre].
      * apply (proj1 (match_at_bare _) E c post). exact Hs.
      * injection Hs as _ Hs. exact (proj1 IH H pre c post Hs).
    + intros H.
      assert (E : match_at bare_key (String a s) = None).
      { apply match_at_bare. intros c post Hs.
        exact (H EmptyString c post Hs). }
      rewrite E. apply IH. intros pre c post Hs.
      apply (H (String a pre) c post). simpl. f_equal. exact Hs.
Qed.

(** Every article [search_articles_by_keyword] returns carries a well
    formed key; the articles are no more than the results of the
    request, and the request asks for between 1 and 20 of them. *)
Theorem search_articles_keys (api_key : option string)
  (request : string -> Z -> string -> exn + option (list search_item))
  (keyword : string) (limit : Z) (articles : list found_article) :
  search_articles_by_keyword api_key request keyword limit = inr articles ->
  exists key size results,
    api_key = Some key /\ key <> EmptyString
    /\ 1 <= size <= 20
    /\ request keyword size key = inr results
    /\ Forall (fun a => is_key (sa_short_url a) = true) articles
    /\ len articles <= len (get results []).
Proof.
  unfold search_articles_by_keyword. intros H.
  destruct api_key as [key|]; [|discriminate].
  destruct key as [|c key]; [discriminate|]. simpl in H.
  destruct (request keyword (page_size limit) (String c key))
    as [e|results] eqn:Er; [discriminate|].
  injection H as <-.
  exists (String c key), (page_size limit), results.
  destruct (fold_add_item_keys (get results []) [] (Forall_nil _))
    as (Hk & Hl).
  repeat split; try assumption; try discriminate;
    try (unfold page_size; lia).
  unfold len. simpl in Hl. lia.
Qed.

Lemma search_articles_keys_witness :
  exists key size results,
    Some "k" = Some key /\ key <> EmptyString
    /\ 1 <= size <= 20
    /\ (fun (_ : string) (_ : Z) (_ : string) =>
          @inr exn (option (list search_item)) (Some items)) "shoes" size key
       = inr results
    /\ Forall (fun a => is_key (sa_short_url a) = true)
         (fold_left add_item items [])
    /\ len (fold_left add_item items []) <= len (get results []).
Proof.
  apply (search_articles_keys (Some "k") (fun _ _ _ => inr (Some items))
           "shoes" 50).
  reflexivity.
Defined.

(** The limit the routes pass on lies between 1 and 20 whatever the
    query holds, it is 10 when the query has none or one that is no
    number, and [search_articles_by_keyword] asks for exactly that
    many. *)
Theorem request_limit_range (int : string -> option Z) (arg : option string) :
  1 <= request_limit int arg <= 20
  /\ page_size (request_limit int arg) = request_limit int arg
  /\ (match arg with
      | None => request_limit int arg = 10
      | Some s => int s = None -> request_limit int arg = 10
      end).
Proof.
  unfold request_limit, page_size.
  destruct arg as [s|]; [destruct (int s) as [n|]|];
    repeat split; try lia; try discriminate; reflexivity.
Qed.

End KeyFacts.
